(** * code-dog: the analysis pipeline, its risk score and its sandbox registry

    A shallow embedding of [backend/services/analysisEngine.js] (the
    [AnalysisEngine] and [DockerService] classes and [sanitizeConfidence]),
    of the oracle adapter [aiService.js] and of the [Job] model's methods,
    with the properties of the natural-language specification stated over
    it.

    Numbers.  JavaScript numbers are binary64 values.  A finite one is
    modelled by the rational it stands for ([Q]); [Num] adds [NaN] and the
    two infinities.  Comparisons are exact.  An addition, a multiplication
    or a division gives the exact result rounded to the nearest binary64
    value, a tie going to the even significand, and an infinity beyond the
    largest finite value (module [Binary64]); the two zeros are not told
    apart.  [Math.round x] is [Qfloor (x + 1/2)], which needs no rounding.
    The module [Machine] redoes the score's arithmetic on the primitive
    binary64 floats of Rocq, to compare the two on examples.

    Effects.  The engine's methods are [async] functions that mutate one
    job document, save it, emit socket events and throw.  They are modelled
    in a state-and-exception monad over a [World]; what the outside world
    answers (the store, git, the oracle) is read from an [Env].  A world
    also records what the properties speak of and the code does not keep:
    every value assigned to [job.status] and [job.progress], and the status
    of every document the store accepted. *)

From Stdlib Require Import ZArith QArith Qround Qabs Qpower List String Ascii Bool Lia Lqa Floats.
From stdpp Require Import base gmap strings.
Import ListNotations.

Local Open Scope string_scope.
Local Open Scope Z_scope.

(** ** Enumerations of the [Job] model *)

(** [jobSchema.status] *)
Inductive Status := pending | cloning | building | analyzing | completed | failed.

(** [alertSchema.severity] *)
Inductive Severity := sev_low | sev_medium | sev_high | sev_critical.

(** [riskLevel] of a dependency.  The engine stores what the oracle
    answered, unvalidated: one of the five risk tiers of
    [dependencyAnalysisSchema.riskLevel], or any other text ([tier_other],
    whose [name] is none of the five names and is not empty). *)
Inductive RiskTier :=
| tier_safe | tier_low | tier_medium | tier_high | tier_critical
| tier_other (name : string).

(** [jobSchema.riskLevel]: the four risk levels *)
Inductive RiskLevel := low | medium | high | critical.

(** [alertSchema.type] *)
Inductive AlertType := type_dependency | type_commit | type_runtime | type_ai_analysis.

Definition Severity_eqb (a b : Severity) : bool :=
  match a, b with
  | sev_low, sev_low | sev_medium, sev_medium
  | sev_high, sev_high | sev_critical, sev_critical => true
  | _, _ => false
  end.

Definition RiskTier_eqb (a b : RiskTier) : bool :=
  match a, b with
  | tier_safe, tier_safe | tier_low, tier_low | tier_medium, tier_medium
  | tier_high, tier_high | tier_critical, tier_critical => true
  | tier_other name, tier_other name' => String.eqb name name'
  | _, _ => false
  end.

(** ** JavaScript numbers *)

(** A number: [NaN], a finite value or an infinity. *)
Inductive Num := NaN | Fin (q : Q) | PInf | NInf.

(** Binary64 arithmetic.  A binary64 value has 53 significant bits, no bit
    below 2^-1074 and a magnitude of at most (2^53 - 1) * 2^971. *)
Module Binary64.

Local Open Scope Q_scope.

(** The integer part of the binary logarithm of a positive rational. *)
Definition ilog2 (x : Q) : Z :=
  let k := (Z.log2 (Qnum x) - Z.log2 (Zpos (Qden x)))%Z in
  if Qle_bool (2 ^ k) x then k else (k - 1)%Z.

(** The exponent of the last bit of the binary64 values next to a positive
    [x]. *)
Definition lastPlace (x : Q) : Z := Z.max (-1074) (ilog2 x - 52).

(** The nearest integer, a tie going to the even one. *)
Definition nearestEven (x : Q) : Z :=
  let f := Qfloor x in
  match Qcompare (x - inject_Z f) (1 # 2) with
  | Lt => f
  | Gt => (f + 1)%Z
  | Eq => if Z.even f then f else (f + 1)%Z
  end.

Definition round_positive (x : Q) : Q :=
  let e := lastPlace x in inject_Z (nearestEven (x / 2 ^ e)) * 2 ^ e.

(** The multiple of the last place nearest to [x], whatever its magnitude. *)
Definition round (x : Q) : Q :=
  match Qcompare x 0 with
  | Eq => 0
  | Gt => round_positive x
  | Lt => - round_positive (- x)
  end.

(** [Number.MAX_VALUE] *)
Definition maxValue : Q := (2 ^ 53 - 1) * 2 ^ 971.

(** The binary64 value of the exact result [x] of an operation, or of a
    decimal literal. *)
Definition number (x : Q) : Num :=
  let r := round x in
  if Qle_bool (Qabs r) maxValue then Fin (Qred r)
  else if Qle_bool 0 x then PInf else NInf.

(** [a + b] *)
Definition add (a b : Num) : Num :=
  match a, b with
  | NaN, _ | _, NaN => NaN
  | PInf, NInf | NInf, PInf => NaN
  | PInf, _ | _, PInf => PInf
  | NInf, _ | _, NInf => NInf
  | Fin x, Fin y => number (x + y)
  end.

(** [- a] *)
Definition opp (a : Num) : Num :=
  match a with
  | NaN => NaN
  | Fin x => Fin (- x)
  | PInf => NInf
  | NInf => PInf
  end.

(** [a - b] *)
Definition sub (a b : Num) : Num := add a (opp b).

(** [a * b] *)
Definition mul (a b : Num) : Num :=
  match a, b with
  | NaN, _ | _, NaN => NaN
  | Fin x, Fin y => number (x * y)
  | Fin x, PInf | PInf, Fin x =>
      match Qcompare x 0 with Eq => NaN | Gt => PInf | Lt => NInf end
  | Fin x, NInf | NInf, Fin x =>
      match Qcompare x 0 with Eq => NaN | Gt => NInf | Lt => PInf end
  | PInf, PInf | NInf, NInf => PInf
  | PInf, NInf | NInf, PInf => NInf
  end.

(** [a / b]; a zero divisor is taken as [+0] *)
Definition div (a b : Num) : Num :=
  match a, b with
  | NaN, _ | _, NaN => NaN
  | Fin x, Fin y =>
      match Qcompare y 0 with
      | Eq => match Qcompare x 0 with Eq => NaN | Gt => PInf | Lt => NInf end
      | _ => number (x / y)
      end
  | Fin _, PInf | Fin _, NInf => Fin 0
  | PInf, Fin y => if Qle_bool 0 y then PInf else NInf
  | NInf, Fin y => if Qle_bool 0 y then NInf else PInf
  | _, _ => NaN
  end.

End Binary64.

Module Num.

  (** [a > b] (false as soon as one side is [NaN]) *)
Definition gt (a b : Num) : bool :=
    match a, b with
    | NaN, _ | _, NaN => false
    | PInf, PInf => false
    | PInf, _ => true
    | _, PInf => false
    | NInf, _ => false
    | Fin _, NInf => true
    | Fin x, Fin y => negb (Qle_bool x y)
    end.

  (** [a >= b] *)
Definition ge (a b : Num) : bool :=
    match a, b with
    | NaN, _ | _, NaN => false
    | PInf, _ => true
    | _, NInf => true
    | _, PInf => false
    | NInf, _ => false
    | Fin x, Fin y => Qle_bool y x
    end.

  (** [a / 100] *)
Definition div100 (a : Num) : Num := Binary64.div a (Fin 100).

  (** [Math.min(a, b)] *)
Definition min (a b : Num) : Num :=
    match a, b with
    | NaN, _ | _, NaN => NaN
    | NInf, _ | _, NInf => NInf
    | PInf, y => y
    | x, PInf => x
    | Fin x, Fin y => if Qle_bool x y then Fin x else Fin y
    end.

  (** [Math.max(a, b)] *)
Definition max (a b : Num) : Num :=
    match a, b with
    | NaN, _ | _, NaN => NaN
    | PInf, _ | _, PInf => PInf
    | NInf, y => y
    | x, NInf => x
    | Fin x, Fin y => if Qle_bool x y then Fin y else Fin x
    end.

  (** [a || 0] for a number [a]: [NaN] and zero are falsy *)
Definition or0 (a : Num) : Num :=
    match a with
    | NaN => Fin 0
    | Fin x => if Qeq_bool x 0 then Fin 0 else Fin x
    | other => other
    end.

  (** a number lying in the interval [0,1] *)
Definition in_unit (a : Num) : Prop :=
    match a with
    | Fin x => (0 <= x /\ x <= 1)%Q
    | _ => False
    end.

  (** a number that is not negative: a finite one from 0 on, or the
      positive infinity *)
Definition nonnegative (a : Num) : Prop :=
    match a with
    | Fin x => (0 <= x)%Q
    | PInf => True
    | _ => False
    end.

End Num.

(** The values a confidence field can hold after [JSON.parse]. *)
Inductive JSValue :=
| JNull
| JUndefined
| JNumber (n : Num)
| JString (s : string)
| JBool (b : bool)
| JObject.

(** [value.endsWith('%')] *)
Fixpoint endsWith_percent (s : string) : bool :=
  match s with
  | EmptyString => false
  | String c EmptyString => Ascii.eqb c "%"%char
  | String _ rest => endsWith_percent rest
  end.

Section SanitizeConfidence.

  (** The runtime's [parseFloat]. *)
  Variable parseFloat : string -> Num.

  (** The two branches of [if (typeof value === 'number')]. *)
Definition sanitizeNumber (value : Num) : Num :=
    if Num.gt value (Fin 1)
    then Num.min (Num.div100 value) (Fin 1)
    else Num.max (Fin 0) (Num.min value (Fin 1)).

Definition sanitizeConfidence (value : JSValue) : Num :=
    match value with
    | JNull | JUndefined => Fin 0
    | JString s =>
        if endsWith_percent s
        then
          let percentage := Num.div100 (parseFloat s) in
          Num.or0 (Num.min (Num.max percentage (Fin 0)) (Fin 1))
        else sanitizeNumber (parseFloat s)
    | JNumber n => sanitizeNumber n
    | JBool _ | JObject => Fin 0
    end.

End SanitizeConfidence.

(** A [parseFloat] for unsigned decimal integers followed by anything: the
    digits at the head of the string, [NaN] when there is none. *)
Definition digit_of (c : ascii) : option Z :=
  let n := Z.of_nat (nat_of_ascii c) in
  if (48 <=? n) && (n <=? 57) then Some (n - 48) else None.

Fixpoint digits_prefix (s : string) (acc : option Z) : option Z :=
  match s with
  | EmptyString => acc
  | String c rest =>
      match digit_of c with
      | Some d => digits_prefix rest (Some (10 * default 0 acc + d))
      | None => acc
      end
  end.

Definition parseFloat_digits (s : string) : Num :=
  match digits_prefix s None with
  | Some n => Fin (inject_Z n)
  | None => NaN
  end.

(** The confidence values the specification lists. *)
Inductive SuppliedConfidence (parseFloat : string -> Num) : JSValue -> Prop :=
| supplied_fraction q : (0 <= q)%Q -> (q <= 1)%Q ->
    SuppliedConfidence parseFloat (JNumber (Fin q))
| supplied_percentage n : Num.gt n (Fin 1) = true ->
    SuppliedConfidence parseFloat (JNumber n)
| supplied_numeric_string s : endsWith_percent s = false -> parseFloat s <> NaN ->
    SuppliedConfidence parseFloat (JString s)
| supplied_percent_string s : endsWith_percent s = true ->
    SuppliedConfidence parseFloat (JString s)
| supplied_null : SuppliedConfidence parseFloat JNull
| supplied_undefined : SuppliedConfidence parseFloat JUndefined.

(** ** Records of the [Job] model

    Field names are the source's.  Identifiers and timestamps that the
    source draws from the clock or from a random generator ([id],
    [timestamp], [duration]) are left out. *)

(** A template literal: its text and interpolated values, in order. *)
Inductive Fragment :=
| lit (s : string)
| numZ (z : Z)
| numQ (q : Q)
| numN (n : nat)
| num (n : option Num).            (* [None]: the text "undefined" *)

Definition Message := list Fragment.

Definition Status_name (s : Status) : string :=
  match s with
  | pending => "pending" | cloning => "cloning" | building => "building"
  | analyzing => "analyzing" | completed => "completed" | failed => "failed"
  end.

Definition RiskTier_name (t : RiskTier) : string :=
  match t with
  | tier_safe => "safe" | tier_low => "low" | tier_medium => "medium"
  | tier_high => "high" | tier_critical => "critical"
  | tier_other name => name
  end.

Definition RiskLevel_name (l : RiskLevel) : string :=
  match l with
  | low => "low" | medium => "medium" | high => "high" | critical => "critical"
  end.

(** [typosquatting] of a dependency *)
Module Typosquatting.
Record t := mk {
    isTyposquat : bool;
    similarPackages : list string;
    confidence : JSValue
  }.
End Typosquatting.

(** The object the oracle adapter hands to the engine: what [JSON.parse]
    made of the oracle's answer, or one of the adapter's own objects.  A
    field the object lacks is [None] ([JUndefined] for [confidence]). *)
Module Analysis.
Record t := mk {
    riskScore : option Q;
    riskLevel : option RiskTier;
    threats : option (list string);
    suspiciousPatterns : option (list string);
    typosquatting : option Typosquatting.t;
    confidence : JSValue;
    summary : option string;
    overallThreat : option string;
    error : option string;
    rawResponse : option string
  }.
End Analysis.

(** [aiAnalysis] of a commit or a dependency: the verdict *)
Module Verdict.
Record t := mk {
    summary : option string;
    threats : list string;
    confidence : Num
  }.
End Verdict.

Module Commit.
Record t := mk {
    hash : string;
    author : string;
    message : string;
    filesChanged : list string;
    suspiciousPatterns : list string;
    riskScore : Q;
    aiAnalysis : option Verdict.t
  }.
End Commit.

Module Dependency.
Record t := mk {
    name : string;
    version : string;
    riskLevel : RiskTier;
    vulnerabilities : list string;
    typosquatting : Typosquatting.t;
    aiAnalysis : option Verdict.t
  }.
End Dependency.

(** A declared dependency as [githubService.analyzeDependencies] lists it. *)
Module Package.
Record t := mk {
    name : string;
    version : string;
    registry : string
  }.
End Package.

(** [details] of an alert *)
Inductive AlertDetails :=
| no_details
| commit_details (commitHash author message : string) (threats : option (list string))
| dependency_details (packageName version : string) (riskLevel : RiskTier)
    (threats : option (list string)) (typosquatting : Typosquatting.t)
| typosquat_details (packageName : string) (similarPackages : list string)
    (confidence : JSValue).

Module Alert.
Record t := mk {
    severity : Severity;
    type : AlertType;
    title : Message;
    description : Message;
    details : AlertDetails;
    aiConfidence : JSValue
  }.
End Alert.

Inductive LogLevel := info | warn | error | debug.
Inductive LogSource := src_build | src_analysis | src_system | src_ai.

Module LogEntry.
Record t := mk {
    level : LogLevel;
    message : Message;
    source : LogSource
  }.
End LogEntry.

Module BuildInfo.
Record t := mk {
    success : bool;
    errors : list string;
    warnings : list string
  }.
End BuildInfo.

(** What [calculateComprehensiveMetrics] returns. *)
Module Metrics.
Record t := mk {
    totalCommits : nat;
    highRiskCommits : nat;
    suspiciousCommits : nat;
    totalDependencies : nat;
    criticalDependencies : nat;
    highRiskDependencies : nat;
    typosquattingDependencies : nat;
    vulnerableDependencies : nat;
    totalAlerts : nat;
    criticalAlerts : nat;
    highAlerts : nat;
    mediumAlerts : nat;
    lowAlerts : nat
  }.
End Metrics.

Module RepoInfo.
Record t := mk {
    name : string;
    owner : string;
    branch : string;
    localPath : string;
    totalCommits : nat;
    lastCommit : option string;
    metrics : option Metrics.t
  }.
End RepoInfo.

Module Job.
Record t := mk {
    jobId : string;
    repoUrl : string;
    status : Status;
    progress : Z;
    ended : bool;                       (* [endTime] is set *)
    repoInfo : option RepoInfo.t;
    riskScore : option Num;
    riskLevel : option RiskLevel;
    commits : list Commit.t;
    dependencies : list Dependency.t;
    alerts : list Alert.t;
    logs : list LogEntry.t;
    aiSummary : option Analysis.t;
    buildInfo : option BuildInfo.t
  }.

  (** [new Job({ jobId, repoUrl, projectType, status: 'pending' })] with the
      schema's defaults *)
Definition new (jobId repoUrl : string) : t :=
    mk jobId repoUrl pending 0 false None None None [] [] [] [] None None.

  (** assignments to one field *)
Definition set_status (v : Status) (j : t) : t :=
    mk (jobId j) (repoUrl j) v (progress j) (ended j) (repoInfo j) (riskScore j) (riskLevel j) (commits j) (dependencies j) (alerts j) (logs j) (aiSummary j) (buildInfo j).
Definition set_progress (v : Z) (j : t) : t :=
    mk (jobId j) (repoUrl j) (status j) v (ended j) (repoInfo j) (riskScore j) (riskLevel j) (commits j) (dependencies j) (alerts j) (logs j) (aiSummary j) (buildInfo j).
Definition set_ended (v : bool) (j : t) : t :=
    mk (jobId j) (repoUrl j) (status j) (progress j) v (repoInfo j) (riskScore j) (riskLevel j) (commits j) (dependencies j) (alerts j) (logs j) (aiSummary j) (buildInfo j).
Definition set_repoInfo (v : option RepoInfo.t) (j : t) : t :=
    mk (jobId j) (repoUrl j) (status j) (progress j) (ended j) v (riskScore j) (riskLevel j) (commits j) (dependencies j) (alerts j) (logs j) (aiSummary j) (buildInfo j).
Definition set_riskScore (v : option Num) (j : t) : t :=
    mk (jobId j) (repoUrl j) (status j) (progress j) (ended j) (repoInfo j) v (riskLevel j) (commits j) (dependencies j) (alerts j) (logs j) (aiSummary j) (buildInfo j).
Definition set_riskLevel (v : option RiskLevel) (j : t) : t :=
    mk (jobId j) (repoUrl j) (status j) (progress j) (ended j) (repoInfo j) (riskScore j) v (commits j) (dependencies j) (alerts j) (logs j) (aiSummary j) (buildInfo j).
Definition set_commits (v : list Commit.t) (j : t) : t :=
    mk (jobId j) (repoUrl j) (status j) (progress j) (ended j) (repoInfo j) (riskScore j) (riskLevel j) v (dependencies j) (alerts j) (logs j) (aiSummary j) (buildInfo j).
Definition set_dependencies (v : list Dependency.t) (j : t) : t :=
    mk (jobId j) (repoUrl j) (status j) (progress j) (ended j) (repoInfo j) (riskScore j) (riskLevel j) (commits j) v (alerts j) (logs j) (aiSummary j) (buildInfo j).
Definition set_alerts (v : list Alert.t) (j : t) : t :=
    mk (jobId j) (repoUrl j) (status j) (progress j) (ended j) (repoInfo j) (riskScore j) (riskLevel j) (commits j) (dependencies j) v (logs j) (aiSummary j) (buildInfo j).
Definition set_logs (v : list LogEntry.t) (j : t) : t :=
    mk (jobId j) (repoUrl j) (status j) (progress j) (ended j) (repoInfo j) (riskScore j) (riskLevel j) (commits j) (dependencies j) (alerts j) v (aiSummary j) (buildInfo j).
Definition set_aiSummary (v : option Analysis.t) (j : t) : t :=
    mk (jobId j) (repoUrl j) (status j) (progress j) (ended j) (repoInfo j) (riskScore j) (riskLevel j) (commits j) (dependencies j) (alerts j) (logs j) v (buildInfo j).
Definition set_buildInfo (v : option BuildInfo.t) (j : t) : t :=
    mk (jobId j) (repoUrl j) (status j) (progress j) (ended j) (repoInfo j) (riskScore j) (riskLevel j) (commits j) (dependencies j) (alerts j) (logs j) (aiSummary j) v.

  (** the virtuals [totalAlerts] and [criticalAlerts] *)
Definition totalAlerts (j : t) : nat := length (alerts j).
Definition criticalAlerts (j : t) : nat :=
    length (List.filter (fun a => Severity_eqb (Alert.severity a) sev_critical) (alerts j)).
End Job.

(** ** The risk score ([AnalysisEngine.calculateRiskScore], its arithmetic) *)

Local Open Scope Q_scope.

(** [Math.round] of a finite number *)
Definition Math_round (x : Q) : Z := Qfloor (x + 0.5).

(** [Math.round] *)
Definition Math_round_number (x : Num) : Num :=
  match x with
  | Fin q => Fin (inject_Z (Math_round q))
  | other => other
  end.

(** [xs.reduce((sum, x) => sum + f(x), 0)] *)
Definition reduce_sum {A} (f : A -> Num) (xs : list A) : Num :=
  fold_left (fun sum x => Binary64.add sum (f x)) xs (Fin 0).

(** [xs.length] as a number *)
Definition length_num {A} (xs : list A) : Num := Fin (inject_Z (Z.of_nat (length xs))).

(** [riskLevelScores[d.riskLevel]]: the table has the five tiers; for any
    other key the lookup gives [undefined], which [+] reads as [NaN]. *)
Definition riskLevelScores (t : RiskTier) : Num :=
  match t with
  | tier_safe => Fin 0 | tier_low => Fin 25 | tier_medium => Fin 50
  | tier_high => Fin 75 | tier_critical => Fin 100
  | tier_other _ => NaN
  end.

(** [severityScores[a.severity]] *)
Definition severityScores (s : Severity) : Num :=
  match s with
  | sev_low => Fin 25 | sev_medium => Fin 50 | sev_high => Fin 75 | sev_critical => Fin 100
  end.

Definition nonempty {A} (xs : list A) : bool :=
  match xs with [] => false | _ => true end.

(** The running pair [(totalScore, factors)] after the three [if] blocks. *)
Definition scoreFactors (commits : list Commit.t) (dependencies : list Dependency.t)
    (alerts : list Alert.t) : Num * Num :=
  let totalScore := Fin 0 in
  let factors := Fin 0 in
  let '(totalScore, factors) :=
    if nonempty commits then
      let avgCommitRisk :=
        Binary64.div (reduce_sum (fun c => Fin (Commit.riskScore c)) commits)
          (length_num commits) in
      (Binary64.add totalScore (Binary64.mul avgCommitRisk (Binary64.number 0.4)),
       Binary64.add factors (Binary64.number 0.4))
    else (totalScore, factors) in
  let '(totalScore, factors) :=
    if nonempty dependencies then
      let avgDependencyRisk :=
        Binary64.div
          (reduce_sum (fun d => riskLevelScores (Dependency.riskLevel d)) dependencies)
          (length_num dependencies) in
      (Binary64.add totalScore (Binary64.mul avgDependencyRisk (Binary64.number 0.35)),
       Binary64.add factors (Binary64.number 0.35))
    else (totalScore, factors) in
  let '(totalScore, factors) :=
    if nonempty alerts then
      let avgAlertSeverity :=
        Binary64.div (reduce_sum (fun a => severityScores (Alert.severity a)) alerts)
          (length_num alerts) in
      (Binary64.add totalScore (Binary64.mul avgAlertSeverity (Binary64.number 0.25)),
       Binary64.add factors (Binary64.number 0.25))
    else (totalScore, factors) in
  (totalScore, factors).

(** [riskScore], the value of [factors > 0 ? Math.round(totalScore / factors) : 0] *)
Definition riskScoreOf (commits : list Commit.t) (dependencies : list Dependency.t)
    (alerts : list Alert.t) : Num :=
  let '(totalScore, factors) := scoreFactors commits dependencies alerts in
  if Num.gt factors (Fin 0)
  then Math_round_number (Binary64.div totalScore factors)
  else Fin 0.

(** [riskLevel], from the chain of [if (riskScore >= ...)] *)
Definition riskLevelOf (riskScore : Num) : RiskLevel :=
  if Num.ge riskScore (Fin 75) then critical
  else if Num.ge riskScore (Fin 50) then high
  else if Num.ge riskScore (Fin 25) then medium
  else low.

Local Close Scope Q_scope.

(** ** Outcomes of fallible calls *)

(** A call either returns a value or throws an [Error] with a message. *)
Inductive Outcome (A : Type) :=
| Return (a : A)
| Throw (message : string).
Arguments Return {A} a.
Arguments Throw {A} message.

(** ** The oracle adapter ([AIService]) *)

(** What [axios.post] to the oracle gives: a rejected request, or a body
    whose [response] field is a text or is missing. *)
Inductive HttpResult :=
| http_failed
| http_ok (response : option string).

Module AIResponse.
Record t := mk {
    response : option string;
    done : bool;
    model : string
  }.
End AIResponse.

Module OverallInput.
Record t := mk {
    repoUrl : string;
    commits : list Commit.t;
    dependencies : list Dependency.t;
    alerts : list Alert.t
  }.
End OverallInput.

(** The oracle as the adapter sees it. *)
Module Oracle.
Record t := mk {
    isAvailable : bool;
    model : string;
    (** the answer to the prompt built from a commit, a dependency, a job *)
    post_commit : Commit.t -> HttpResult;
    post_dependency : Package.t -> HttpResult;
    post_overall : OverallInput.t -> HttpResult;
    (** [JSON.parse]: [None] when it throws *)
    JSON_parse : string -> option Analysis.t
  }.
End Oracle.

(** The least prefix of [s] that ends with its last ["}"]. *)
Fixpoint upToLastBrace (s : string) : option string :=
  match s with
  | EmptyString => None
  | String c rest =>
      match upToLastBrace rest with
      | Some t => Some (String c t)
      | None => if Ascii.eqb c "}"%char then Some (String c EmptyString) else None
      end
  end.

(** [response.match(/\{[\s\S]*\}/)]: from the first ["{"] to the last
    ["}"] after it. *)
Fixpoint jsonMatch (s : string) : option string :=
  match s with
  | EmptyString => None
  | String c rest =>
      if Ascii.eqb c "{"%char
      then option_map (String c) (upToLastBrace rest)
      else jsonMatch rest
  end.

Module AIService.

Definition empty_analysis : Analysis.t :=
    Analysis.mk None None None None None JUndefined None None None None.

Definition getFallbackResponse : AIResponse.t :=
    AIResponse.mk (Some "AI service unavailable - using fallback analysis") true "fallback".

Definition getFallbackCommitAnalysis : Analysis.t :=
    Analysis.mk (Some 25%Q) None (Some ["AI analysis unavailable"]) (Some [])
      None (JNumber (Fin 0.1%Q)) (Some "Fallback analysis - AI service unavailable")
      None None None.

Definition getFallbackDependencyAnalysis : Analysis.t :=
    Analysis.mk None (Some tier_medium) (Some ["AI analysis unavailable"]) None
      (Some (Typosquatting.mk false [] (JNumber (Fin 0.1%Q))))
      (JNumber (Fin 0.1%Q)) (Some "Fallback analysis - AI service unavailable")
      None None None.

  (** [getFallbackOverallAssessment]; its [keyFindings], [recommendations]
      and [riskPriority] are not fields of [Analysis.t] *)
Definition getFallbackOverallAssessment : Analysis.t :=
    Analysis.mk None None None None None (JNumber (Fin 0.1%Q)) None (Some "medium")
      None None.

  Section WithOracle.
    Variable o : Oracle.t.

Definition generateResponse (posted : HttpResult) : Outcome AIResponse.t :=
      if negb (Oracle.isAvailable o) then Return getFallbackResponse
      else
        match posted with
        | http_ok response => Return (AIResponse.mk response true (Oracle.model o))
        | http_failed => Return getFallbackResponse
        end.

Definition parseAIResponse (response : option string) : Analysis.t :=
      match response with
      | None =>
          (* [response.match] throws a TypeError, caught *)
          Analysis.mk None None None None None JUndefined None None
            (Some "JSON parse error") response
      | Some text =>
          match jsonMatch text with
          | Some matched =>
              match Oracle.JSON_parse o matched with
              | Some analysis => analysis
              | None =>
                  Analysis.mk None None None None None JUndefined None None
                    (Some "JSON parse error") response
              end
          | None =>
              Analysis.mk None None None None None JUndefined None None
                (Some "Could not parse AI response") response
          end
      end.

    (** The body of the three [try] blocks, and their [catch]. *)
Definition analyzeWith (posted : HttpResult) (fallback : Analysis.t) : Analysis.t :=
      match generateResponse posted with
      | Return aiResponse => parseAIResponse (AIResponse.response aiResponse)
      | Throw _ => fallback
      end.

Definition analyzeCommit (commitData : Commit.t) : Analysis.t :=
      analyzeWith (Oracle.post_commit o commitData) getFallbackCommitAnalysis.

Definition analyzeDependency (dependencyData : Package.t) : Analysis.t :=
      analyzeWith (Oracle.post_dependency o dependencyData) getFallbackDependencyAnalysis.

Definition generateOverallAssessment (jobData : OverallInput.t) : Analysis.t :=
      analyzeWith (Oracle.post_overall o jobData) getFallbackOverallAssessment.

  End WithOracle.

End AIService.

(** ** The sandbox registry ([DockerService.stopContainer], [cleanup]) *)

Module DockerService.

  (** What [container.stop] answers: it resolves, or rejects with an HTTP
      status (304: the container is already stopped). *)
Inductive StopResult :=
  | stop_resolved
  | stop_rejected (statusCode : Z).

  Module ContainerInfo.
Record t := mk {
      container : string;        (* the container's id *)
      projectType : string;
      workspacePath : string
    }.
  End ContainerInfo.

  (** The service: its [activeContainers] map, the stop requests it has
      sent to the daemon and the lines it has written to the console. *)
Record t := mk {
    activeContainers : gmap string ContainerInfo.t;
    stopRequests : list string;
    console : list (LogLevel * string)
  }.

Definition log (level : LogLevel) (line : string) (s : t) : t :=
    mk (activeContainers s) (stopRequests s) (console s ++ [(level, line)]).

  Section WithDaemon.
    (** The daemon's answer to a stop request, given the requests before it. *)
    Variable daemon : list string -> string -> StopResult.

Definition stopContainer (jobId : string) (s : t) : Outcome unit * t :=
      match activeContainers s !! jobId with
      | None => (Return tt, log warn "Container not found for cleanup" s)
      | Some containerInfo =>
          let container := ContainerInfo.container containerInfo in
          let s := log info "Stopping container..." s in
          let answer := daemon (stopRequests s) container in
          let s := mk (activeContainers s) (stopRequests s ++ [container]) (console s) in
          match answer with
          | stop_resolved =>
              let s := log info "Container stopped" s in
              (Return tt, mk (delete jobId (activeContainers s)) (stopRequests s) (console s))
          | stop_rejected statusCode =>
              if (statusCode =? 304)%Z then
                let s := log info "Container was already stopped" s in
                (Return tt, mk (delete jobId (activeContainers s)) (stopRequests s) (console s))
              else
                (* rethrown by the inner [catch], caught by the outer one *)
                (Return tt, log error "Failed to stop container" s)
          end
      end.

Definition cleanup (jobId : string) (s : t) : Outcome unit * t :=
      match stopContainer jobId s with
      | (Return _, s) => (Return tt, log info "Container cleanup completed" s)
      | (Throw _, s) => (Return tt, log error "Cleanup failed" s)
      end.

  End WithDaemon.

  (** the lines written with [log.error] *)
Definition errorsLogged (s : t) : list string :=
    map snd (List.filter (fun l => match fst l with error => true | _ => false end) (console s)).

End DockerService.

(** ** The world of one job *)

(** [riskLevel] of a [done] event: the job's, or the text ['unknown']. *)
Inductive DoneLevel :=
| level_of_job (riskLevel : option RiskLevel)
| level_unknown.

Module Done.
Record t := mk {
    riskScore : option Num;
    riskLevel : DoneLevel;
    totalAlerts : nat;
    criticalAlerts : nat;
    dependencyIssues : nat;
    commitIssues : nat;
    alerts : list Alert.t;
    aiSummary : option Analysis.t;
    error : option string
  }.
End Done.

(** What the engine emits to the room [job-<jobId>]. *)
Inductive Event :=
| log_event (entry : LogEntry.t)
| alert_event (alert : Alert.t)
| progress_event (percentage : Z) (stage : Status)
| done_event (payload : Done.t).

(** What the collaborators answer. *)
Module Env.
Record t := mk {
    (** the [n]-th [save()] of the run: [None] when it resolves, the
        message it rejects with otherwise *)
    save_result : nat -> option string;
    (** [githubService.cloneRepository(repoUrl, jobId)] *)
    cloneRepository : string -> string -> Outcome RepoInfo.t;
    (** [githubService.analyzeCommits(localPath)] *)
    analyzeCommits : string -> Outcome (list Commit.t);
    (** [githubService.analyzeDependencies(localPath, projectType)] *)
    analyzeDependencies : string -> list Package.t;
    oracle : Oracle.t;
    parseFloat : string -> Num
  }.
End Env.

Module World.
Record t := mk {
    (** the job document the engine holds, the one [activeJobs] maps to *)
    job : Job.t;
    (** the document as the store last accepted it *)
    stored : option Job.t;
    (** the keys of [activeJobs] *)
    activeJobs : gset string;
    (** the events emitted so far, oldest first *)
    emitted : list Event;
    (** how many times [save()] was called *)
    saves : nat;
    (** the job ids [githubService.cleanup] was called with *)
    cleaned : list string;
    (** every value assigned to [job.status] and to [job.progress], oldest
        first, the initial one included *)
    statusHistory : list Status;
    progressHistory : list Z;
    (** the status of every document the store accepted, oldest first *)
    storedHistory : list Status;
    (** the process's [dockerService] singleton *)
    docker : DockerService.t
  }.

(** right after [new Job({ jobId, repoUrl, projectType, status: 'pending' })] *)
Definition init (docker : DockerService.t) (jobId repoUrl : string) : t :=
  mk (Job.new jobId repoUrl) None ∅ [] 0%nat [] [pending] [0] [] docker.

Definition with_job (f : Job.t -> Job.t) (w : t) : t :=
  mk (f (job w)) (stored w) (activeJobs w) (emitted w) (saves w) (cleaned w)
    (statusHistory w) (progressHistory w) (storedHistory w) (docker w).
End World.

(** ** The monad of the engine's [async] methods *)

Definition Async (A : Type) : Type := World.t -> Outcome A * World.t.

Definition ret {A} (a : A) : Async A := fun w => (Return a, w).

Definition throw {A} (message : string) : Async A := fun w => (Throw message, w).

Definition bind {A B} (m : Async A) (k : A -> Async B) : Async B :=
  fun w =>
    match m w with
    | (Return a, w') => k a w'
    | (Throw message, w') => (Throw message, w')
    end.

(** [try { m } catch (error) { handler(error.message) }] *)
Definition try_catch {A} (m : Async A) (handler : string -> Async A) : Async A :=
  fun w =>
    match m w with
    | (Return a, w') => (Return a, w')
    | (Throw message, w') => handler message w'
    end.

Declare Scope async_scope.
Delimit Scope async_scope with async.
Bind Scope async_scope with Async.
Notation "'let*' x := m 'in' k" := (bind m (fun x => k))
  (at level 10, x name, m at level 100, k at level 200) : async_scope.
Notation "m ;; k" := (bind m (fun _ => k))
  (at level 100, k at level 200, right associativity) : async_scope.
Local Open Scope async_scope.

(** [for (const x of xs) { body(x) }] *)
Fixpoint forEach {A} (xs : list A) (body : A -> Async unit) : Async unit :=
  match xs with
  | [] => ret tt
  | x :: rest => body x ;; forEach rest body
  end.

Definition get_job : Async Job.t := fun w => (Return (World.job w), w).

Definition modify_job (f : Job.t -> Job.t) : Async unit :=
  fun w => (Return tt, World.with_job f w).

(** [job.status = status] *)
Definition assign_status (status : Status) : Async unit :=
  fun w =>
    (Return tt,
     World.mk (Job.set_status status (World.job w)) (World.stored w) (World.activeJobs w)
       (World.emitted w) (World.saves w) (World.cleaned w)
       (World.statusHistory w ++ [status]) (World.progressHistory w) (World.storedHistory w)
       (World.docker w)).

(** [job.progress = progress] *)
Definition assign_progress (progress : Z) : Async unit :=
  fun w =>
    (Return tt,
     World.mk (Job.set_progress progress (World.job w)) (World.stored w) (World.activeJobs w)
       (World.emitted w) (World.saves w) (World.cleaned w)
       (World.statusHistory w) (World.progressHistory w ++ [progress]) (World.storedHistory w)
       (World.docker w)).

(** [this.io.to(`job-${jobId}`).emit(...)] *)
Definition emit (event : Event) : Async unit :=
  fun w =>
    (Return tt,
     World.mk (World.job w) (World.stored w) (World.activeJobs w)
       (World.emitted w ++ [event]) (World.saves w) (World.cleaned w)
       (World.statusHistory w) (World.progressHistory w) (World.storedHistory w)
       (World.docker w)).

(** [this.activeJobs.set(jobId, job)] and [this.activeJobs.delete(jobId)] *)
Definition activeJobs_set (jobId : string) : Async unit :=
  fun w =>
    (Return tt,
     World.mk (World.job w) (World.stored w) ({[jobId]} ∪ World.activeJobs w)
       (World.emitted w) (World.saves w) (World.cleaned w)
       (World.statusHistory w) (World.progressHistory w) (World.storedHistory w)
       (World.docker w)).

Definition activeJobs_delete (jobId : string) : Async unit :=
  fun w =>
    (Return tt,
     World.mk (World.job w) (World.stored w) (World.activeJobs w ∖ {[jobId]})
       (World.emitted w) (World.saves w) (World.cleaned w)
       (World.statusHistory w) (World.progressHistory w) (World.storedHistory w)
       (World.docker w)).

(** [githubService.cleanup(jobId)]: removes the workspace directory, and
    swallows its own errors *)
Definition githubService_cleanup (jobId : string) : Async unit :=
  fun w =>
    (Return tt,
     World.mk (World.job w) (World.stored w) (World.activeJobs w)
       (World.emitted w) (World.saves w) (World.cleaned w ++ [jobId])
       (World.statusHistory w) (World.progressHistory w) (World.storedHistory w)
       (World.docker w)).

(** ** The [Job] model's methods and the engine ([AnalysisEngine]) *)

(** [commit.riskScore > 70] and the like *)
Definition Qgtb (x y : Q) : bool := negb (Qle_bool x y).

(** [text || fallback] for a text that may be missing or empty *)
Definition text_or (text : option string) (fallback : string) : string :=
  match text with
  | Some t => if String.eqb t "" then fallback else t
  | None => fallback
  end.

Definition batchSize : nat := 5.

(** [15 + Math.round((i / commits.length) * 25)], the progress after the
    batch that starts at [i], of [n] commits.  The quotient lies between 0
    and 1 and the product between 0 and 25, where binary64 has neither an
    infinity nor [NaN]: both are the rounded rationals; 15 and the rounded
    product are small integers, which binary64 adds exactly. *)
Definition batchProgress (n i : nat) : Z :=
  15 + Math_round
         (Binary64.round
            (Binary64.round (inject_Z (Z.of_nat i) / inject_Z (Z.of_nat n)) * 25)).

(** The values [i] takes in [for (let i = 0; i < n; i += batchSize)]. *)
Definition batchStarts (n : nat) : list nat :=
  map (fun k => (k * batchSize)%nat) (seq 0 (Nat.div (n + batchSize - 1) batchSize)).

(** [calculateComprehensiveMetrics(job)], its counts *)
Definition calculateComprehensiveMetrics (j : Job.t) : Metrics.t :=
  let commits := Job.commits j in
  let dependencies := Job.dependencies j in
  let alerts := Job.alerts j in
  let count {A} (p : A -> bool) (xs : list A) := length (List.filter p xs) in
  Metrics.mk
    (length commits)
    (count (fun c => Qgtb (Commit.riskScore c) 70) commits)
    (count (fun c => nonempty (Commit.suspiciousPatterns c)) commits)
    (length dependencies)
    (count (fun d => RiskTier_eqb (Dependency.riskLevel d) tier_critical) dependencies)
    (count (fun d => RiskTier_eqb (Dependency.riskLevel d) tier_high) dependencies)
    (count (fun d => Typosquatting.isTyposquat (Dependency.typosquatting d)) dependencies)
    (count (fun d => nonempty (Dependency.vulnerabilities d)) dependencies)
    (length alerts)
    (count (fun a => Severity_eqb (Alert.severity a) sev_critical) alerts)
    (count (fun a => Severity_eqb (Alert.severity a) sev_high) alerts)
    (count (fun a => Severity_eqb (Alert.severity a) sev_medium) alerts)
    (count (fun a => Severity_eqb (Alert.severity a) sev_low) alerts).

(** The payload of the [done] event of a run that succeeded. *)
Definition successDone (j : Job.t) : Done.t :=
  Done.mk (Job.riskScore j) (level_of_job (Job.riskLevel j))
    (Job.totalAlerts j) (Job.criticalAlerts j)
    (length (List.filter
       (fun d => RiskTier_eqb (Dependency.riskLevel d) tier_high
                 || RiskTier_eqb (Dependency.riskLevel d) tier_critical)
       (Job.dependencies j)))
    (length (List.filter (fun c => Qgtb (Commit.riskScore c) 70) (Job.commits j)))
    (Job.alerts j) (Job.aiSummary j) None.

(** The payload of the [done] event of a run that failed. *)
Definition failureDone (message : string) : Done.t :=
  Done.mk (Some (Fin 0)) level_unknown 0 0 0 0 [] None (Some message).

Module AnalysisEngine.
Section WithEnv.
Variable env : Env.t.

(** [doc.save()] for a document [doc] *)
Definition save_document (doc : Job.t) : Async unit :=
  fun w =>
    let saved stored storedHistory :=
      World.mk (World.job w) stored (World.activeJobs w) (World.emitted w)
        (S (World.saves w)) (World.cleaned w)
        (World.statusHistory w) (World.progressHistory w) storedHistory (World.docker w) in
    match Env.save_result env (World.saves w) with
    | None => (Return tt, saved (Some doc) (World.storedHistory w ++ [Job.status doc])%list)
    | Some message => (Throw message, saved (World.stored w) (World.storedHistory w))
    end.

(** [job.save()] *)
Definition save : Async unit :=
  let* j := get_job in save_document j.

(** [job.addLog(level, message, source)] *)
Definition addLog (level : LogLevel) (message : Message) (source : LogSource) : Async unit :=
  modify_job (fun j => Job.set_logs (Job.logs j ++ [LogEntry.mk level message source]) j) ;;
  save.

(** [job.addAlert(alertData)] *)
Definition addAlert (alertData : Alert.t) : Async unit :=
  modify_job (fun j => Job.set_alerts (Job.alerts j ++ [alertData]) j) ;;
  save.

(** [await Job.findOne({ jobId })] *)
Definition findOne (jobId : string) : Async (option Job.t) :=
  fun w =>
    (Return match World.stored w with
            | Some doc => if String.eqb (Job.jobId doc) jobId then Some doc else None
            | None => None
            end, w).

(** [this.activeJobs.get(jobId)]: the engine's job when the key is there *)
Definition activeJobs_has (jobId : string) : Async bool :=
  fun w => (Return (bool_decide (jobId ∈ World.activeJobs w)), w).

(** [addLog] and [addAlert] on the document [Job.findOne] returns, when
    the job is not in [activeJobs]; nothing when there is none *)
Definition found_addLog (jobId : string) (entry : LogEntry.t) : Async unit :=
  let* found := findOne jobId in
  match found with
  | Some doc => save_document (Job.set_logs (Job.logs doc ++ [entry]) doc)
  | None => ret tt
  end.

Definition found_addAlert (jobId : string) (alert : Alert.t) : Async unit :=
  let* found := findOne jobId in
  match found with
  | Some doc => save_document (Job.set_alerts (Job.alerts doc ++ [alert]) doc)
  | None => ret tt
  end.

Definition emitLog (jobId : string) (level : LogLevel) (message : Message)
    (source : LogSource) : Async unit :=
  let entry := LogEntry.mk level message source in
  try_catch
    (let* active := activeJobs_has jobId in
     (if active then addLog level message source else found_addLog jobId entry) ;;
     emit (log_event entry))
    (fun _ => emit (log_event entry)).

Definition emitAlert (jobId : string) (alert : Alert.t) : Async unit :=
  try_catch
    (let* active := activeJobs_has jobId in
     (if active then addAlert alert else found_addAlert jobId alert) ;;
     emit (alert_event alert))
    (fun _ => emit (alert_event alert)).

Definition updateJobStatus (status : Status) (progress : Z) : Async unit :=
  assign_status status ;;
  assign_progress progress ;;
  addLog info [lit "Status updated: "; lit (Status_name status); lit " (";
               numZ progress; lit "%)"] src_system ;;
  save ;;
  emit (progress_event progress status).

Definition cloneRepository : Async RepoInfo.t :=
  let* j := get_job in
  try_catch
    (emitLog (Job.jobId j) info [lit "Cloning repository: "; lit (Job.repoUrl j)] src_system ;;
     let* repoInfo :=
       match Env.cloneRepository env (Job.repoUrl j) (Job.jobId j) with
       | Return repoInfo => ret repoInfo
       | Throw message => throw message
       end in
     modify_job (Job.set_repoInfo (Some repoInfo)) ;;
     save ;;
     emitLog (Job.jobId j) info
       [lit "Repository cloned successfully: "; lit (RepoInfo.owner repoInfo); lit "/";
        lit (RepoInfo.name repoInfo)] src_system ;;
     ret repoInfo)
    (fun message =>
       emitLog (Job.jobId j) error [lit "Failed to clone repository: "; lit message]
         src_system ;;
       throw message).

(** The body of [for (const commit of batch)]. *)
Definition processCommit (jobId : string) (commit : Commit.t) : Async unit :=
  try_catch
    (let aiAnalysis := AIService.analyzeCommit (Env.oracle env) commit in
     let commit :=
       Commit.mk (Commit.hash commit) (Commit.author commit) (Commit.message commit)
         (Commit.filesChanged commit) (Commit.suspiciousPatterns commit)
         (default 0%Q (Analysis.riskScore aiAnalysis))
         (Some (Verdict.mk (Analysis.summary aiAnalysis)
                  (default [] (Analysis.threats aiAnalysis))
                  (sanitizeConfidence (Env.parseFloat env) (Analysis.confidence aiAnalysis)))) in
     modify_job (fun j => Job.set_commits (Job.commits j ++ [commit]) j) ;;
     (if Qgtb (Commit.riskScore commit) 70 then
        addAlert
          (Alert.mk (if Qgtb (Commit.riskScore commit) 90 then sev_critical else sev_high)
             type_commit
             [lit "High-risk commit detected: "; lit (substring 0 8 (Commit.hash commit))]
             [lit "Commit by "; lit (Commit.author commit); lit " has risk score of ";
              numQ (Commit.riskScore commit)]
             (commit_details (Commit.hash commit) (Commit.author commit)
                (Commit.message commit) (Analysis.threats aiAnalysis))
             (Analysis.confidence aiAnalysis)) ;;
        emitAlert jobId
          (Alert.mk (if Qgtb (Commit.riskScore commit) 90 then sev_critical else sev_high)
             type_commit
             [lit "High-risk commit: "; lit (substring 0 8 (Commit.hash commit))]
             [lit (text_or (Analysis.summary aiAnalysis) "Suspicious patterns detected")]
             no_details JUndefined)
      else ret tt) ;;
     emitLog jobId info
       [lit "Analyzed commit "; lit (substring 0 8 (Commit.hash commit)); lit " - Risk: ";
        numQ (Commit.riskScore commit)] src_analysis)
    (fun _ => ret tt).

Definition analyzeCommits (repoInfo : RepoInfo.t) : Async (list Commit.t) :=
  let* j := get_job in
  let jobId := Job.jobId j in
  try_catch
    (let* commits :=
       match Env.analyzeCommits env (RepoInfo.localPath repoInfo) with
       | Return commits => ret commits
       | Throw message => throw message
       end in
     emitLog jobId info [lit "Found "; numN (length commits); lit " commits to analyze"]
       src_analysis ;;
     forEach (batchStarts (length commits))
       (fun i =>
          let batch := take batchSize (drop i commits) in
          forEach batch (processCommit jobId) ;;
          updateJobStatus analyzing (batchProgress (length commits) i)) ;;
     save ;;
     ret commits)
    (fun message =>
       emitLog jobId error [lit "Commit analysis failed: "; lit message] src_analysis ;;
       throw message).

(** The body of [for (const dependency of dependencies)]. *)
Definition processDependency (jobId : string) (dependency : Package.t) : Async unit :=
  try_catch
    (let aiAnalysis := AIService.analyzeDependency (Env.oracle env) dependency in
     let analyzedDependency :=
       Dependency.mk (Package.name dependency) (Package.version dependency)
         (default tier_safe (Analysis.riskLevel aiAnalysis))
         (default [] (Analysis.threats aiAnalysis))
         (default (Typosquatting.mk false [] (JNumber (Fin 0)))
            (Analysis.typosquatting aiAnalysis))
         (Some (Verdict.mk (Analysis.summary aiAnalysis)
                  (default [] (Analysis.threats aiAnalysis))
                  (sanitizeConfidence (Env.parseFloat env) (Analysis.confidence aiAnalysis)))) in
     let riskLevel := Dependency.riskLevel analyzedDependency in
     let typosquatting := Dependency.typosquatting analyzedDependency in
     modify_job (fun j => Job.set_dependencies (Job.dependencies j ++ [analyzedDependency]) j) ;;
     (if RiskTier_eqb riskLevel tier_high || RiskTier_eqb riskLevel tier_critical then
        addAlert
          (Alert.mk (if RiskTier_eqb riskLevel tier_critical then sev_critical else sev_high)
             type_dependency
             [lit "Risky dependency detected: "; lit (Package.name dependency)]
             (match Analysis.summary aiAnalysis with
              | Some text =>
                  if String.eqb text "" then
                    [lit (Package.name dependency); lit " has been flagged as ";
                     lit (RiskTier_name riskLevel); lit " risk"]
                  else [lit text]
              | None =>
                  [lit (Package.name dependency); lit " has been flagged as ";
                   lit (RiskTier_name riskLevel); lit " risk"]
              end)
             (dependency_details (Package.name dependency) (Package.version dependency)
                riskLevel (Analysis.threats aiAnalysis) typosquatting)
             (Analysis.confidence aiAnalysis)) ;;
        emitAlert jobId
          (Alert.mk (if RiskTier_eqb riskLevel tier_critical then sev_critical else sev_high)
             type_dependency
             [lit "Risky dependency: "; lit (Package.name dependency)]
             (match Analysis.summary aiAnalysis with
              | Some text =>
                  if String.eqb text "" then
                    [lit "Flagged as "; lit (RiskTier_name riskLevel); lit " risk"]
                  else [lit text]
              | None => [lit "Flagged as "; lit (RiskTier_name riskLevel); lit " risk"]
              end)
             no_details JUndefined)
      else ret tt) ;;
     (if Typosquatting.isTyposquat typosquatting then
        addAlert
          (Alert.mk sev_high type_dependency
             [lit "Potential typosquatting: "; lit (Package.name dependency)]
             [lit "Package may be impersonating popular packages"]
             (typosquat_details (Package.name dependency)
                (Typosquatting.similarPackages typosquatting)
                (Typosquatting.confidence typosquatting))
             (Typosquatting.confidence typosquatting)) ;;
        emitAlert jobId
          (Alert.mk sev_high type_dependency
             [lit "Typosquatting detected: "; lit (Package.name dependency)]
             [lit "Similar to: ";
              lit (String.concat ", " (Typosquatting.similarPackages typosquatting))]
             no_details JUndefined)
      else ret tt) ;;
     emitLog jobId info
       [lit "Analyzed dependency "; lit (Package.name dependency); lit " - Risk: ";
        lit (RiskTier_name riskLevel)] src_analysis)
    (fun _ => ret tt).

Definition analyzeDependencies (repoInfo : RepoInfo.t) : Async (list Package.t) :=
  let* j := get_job in
  let jobId := Job.jobId j in
  try_catch
    (let dependencies := Env.analyzeDependencies env (RepoInfo.localPath repoInfo) in
     emitLog jobId info
       [lit "Found "; numN (length dependencies); lit " dependencies to analyze"]
       src_analysis ;;
     forEach dependencies (processDependency jobId) ;;
     save ;;
     ret dependencies)
    (fun message =>
       emitLog jobId error [lit "Dependency analysis failed: "; lit message] src_analysis ;;
       throw message).

Definition runAIAnalysis : Async unit :=
  let* j := get_job in
  let jobId := Job.jobId j in
  try_catch
    (emitLog jobId info [lit "Running comprehensive AI analysis..."] src_ai ;;
     let* j := get_job in
     let assessment :=
       AIService.generateOverallAssessment (Env.oracle env)
         (OverallInput.mk (Job.repoUrl j) (Job.commits j) (Job.dependencies j)
            (Job.alerts j)) in
     modify_job (Job.set_aiSummary (Some assessment)) ;;
     save ;;
     emitLog jobId info
       [lit "AI assessment completed - Threat level: ";
        lit (default "undefined" (Analysis.overallThreat assessment))] src_ai)
    (fun message =>
       emitLog jobId warn [lit "AI analysis failed: "; lit message] src_ai).

Definition calculateRiskScore : Async unit :=
  let* j := get_job in
  let jobId := Job.jobId j in
  try_catch
    (let* j := get_job in
     let riskScore := riskScoreOf (Job.commits j) (Job.dependencies j) (Job.alerts j) in
     let riskLevel := riskLevelOf riskScore in
     modify_job (fun j => Job.set_riskLevel (Some riskLevel)
                            (Job.set_riskScore (Some riskScore) j)) ;;
     save ;;
     emitLog jobId info
       [lit "Risk score calculated: "; num (Some riskScore); lit "/100 (";
        lit (RiskLevel_name riskLevel); lit ")"] src_analysis)
    (fun message =>
       emitLog jobId error [lit "Risk calculation failed: "; lit message] src_analysis ;;
       modify_job (fun j => Job.set_riskLevel (Some medium)
                              (Job.set_riskScore (Some (Fin 50)) j)) ;;
       save).

(** The summary report is a value computed from the job and stored on it;
    of [generateFinalAssessment] the model keeps the metrics, the repository
    statistics, the save and the two log lines. *)
Definition generateFinalAssessment : Async unit :=
  let* j := get_job in
  let jobId := Job.jobId j in
  try_catch
    (let* j := get_job in
     let metrics := calculateComprehensiveMetrics j in
     match Job.repoInfo j with
     | None => throw "Cannot set properties of undefined (setting 'totalCommits')"
     | Some r =>
         modify_job
           (Job.set_repoInfo
              (Some (RepoInfo.mk (RepoInfo.name r) (RepoInfo.owner r) (RepoInfo.branch r)
                       (RepoInfo.localPath r) (length (Job.commits j))
                       (option_map Commit.hash (head (Job.commits j)))
                       (Some metrics))))
     end ;;
     save ;;
     emitLog jobId info
       [lit "Final assessment completed - Risk Score: ";
        num (Job.riskScore j); lit "/100"] src_system ;;
     emitLog jobId info
       [lit "Analysis Summary: "; numN (Metrics.totalAlerts metrics);
        lit " issues found, "; numN (Metrics.criticalAlerts metrics); lit " critical"]
       src_system)
    (fun message =>
       emitLog jobId warn [lit "Final assessment generation failed: "; lit message]
         src_system).

Definition handleAnalysisError (message : string) : Async unit :=
  try_catch
    (assign_status failed ;;
     modify_job (Job.set_ended true) ;;
     modify_job (Job.set_buildInfo (Some (BuildInfo.mk false [message] []))) ;;
     save ;;
     let* j := get_job in
     emitLog (Job.jobId j) error [lit "Analysis failed: "; lit message] src_system ;;
     emit (done_event (failureDone message)) ;;
     githubService_cleanup (Job.jobId j) ;;
     activeJobs_delete (Job.jobId j))
    (fun _ => ret tt).

(** The [try] block of [runAnalysis], for a job whose [jobId] is [jobId]. *)
Definition runAnalysis_try (jobId : string) : Async unit :=
  updateJobStatus cloning 5 ;;
  emitLog jobId info [lit "Starting repository analysis..."] src_system ;;
  let* repoInfo := cloneRepository in
  updateJobStatus cloning 15 ;;
  emitLog jobId info [lit "Analyzing commit history..."] src_analysis ;;
  analyzeCommits repoInfo ;;
  updateJobStatus analyzing 40 ;;
  emitLog jobId info [lit "Analyzing dependencies..."] src_analysis ;;
  analyzeDependencies repoInfo ;;
  updateJobStatus analyzing 60 ;;
  emitLog jobId info [lit "Running AI-powered threat analysis..."] src_ai ;;
  runAIAnalysis ;;
  updateJobStatus analyzing 80 ;;
  emitLog jobId info [lit "Calculating risk score..."] src_analysis ;;
  calculateRiskScore ;;
  updateJobStatus analyzing 90 ;;
  emitLog jobId info [lit "Generating final assessment..."] src_ai ;;
  generateFinalAssessment ;;
  assign_status completed ;;
  modify_job (Job.set_ended true) ;;
  assign_progress 100 ;;
  modify_job (Job.set_buildInfo (Some (BuildInfo.mk true [] []))) ;;
  save ;;
  (* the elapsed seconds, read off the clock, are left out of the text *)
  emitLog jobId info [lit "Analysis completed in "; lit "s"] src_system ;;
  let* j := get_job in
  emit (done_event (successDone j)) ;;
  githubService_cleanup jobId ;;
  activeJobs_delete jobId.

Definition runAnalysis : Async unit :=
  let* j := get_job in
  try_catch (runAnalysis_try (Job.jobId j)) handleAnalysisError.

(** [startAnalysis], up to the point where the run is scheduled: the job of
    the world is the one [new Job] made. *)
Definition startAnalysis : Async unit :=
  let* j := get_job in
  save ;;
  activeJobs_set (Job.jobId j).

(** The scheduled run: [this.runAnalysis(job).catch(error => ...)]. *)
Definition backgroundRun : Async unit :=
  try_catch runAnalysis handleAnalysisError.

(** A job from its submission to the end of its run; the run starts only
    when [startAnalysis] returned. *)
Definition submit : Async unit :=
  startAnalysis ;; backgroundRun.

End WithEnv.
End AnalysisEngine.

(** The world a submission with [jobId] and [repoUrl] leaves behind. *)
Definition lifetime (env : Env.t) (docker : DockerService.t) (jobId repoUrl : string)
    : Outcome unit * World.t :=
  AnalysisEngine.submit env (World.init docker jobId repoUrl).

(** ** The score and the progress on machine floats

    The statements of [scoreFactors], [riskScoreOf] and [batchProgress] on
    the primitive binary64 floats of Rocq; the arguments are the numbers the
    three [reduce] calls add up. *)

Set Warnings "-inexact-float".

Module Machine.

(** The rational a finite float stands for. *)
Definition value (x : float) : option Q :=
  match Prim2SF x with
  | S754_zero _ => Some 0%Q
  | S754_finite negative m e =>
      let magnitude :=
        match e with
        | Zneg p => Qmake (Zpos m) (Pos.pow 2 p)
        | _ => inject_Z (Zpos m * 2 ^ e)
        end in
      Some (if negative then Qopp magnitude else magnitude)
  | _ => None
  end.

Definition of_nat (n : nat) : float := PrimFloat.of_uint63 (Uint63.of_Z (Z.of_nat n)).

Definition reduce_sum (xs : list float) : float := fold_left PrimFloat.add xs 0%float.

(** One [if (xs.length > 0) { ... }] block on the pair (totalScore, factors). *)
Definition addFactor (acc : float * float) (xs : list float) (weight : float)
    : float * float :=
  match xs with
  | [] => acc
  | _ =>
      (PrimFloat.add (fst acc)
         (PrimFloat.mul (PrimFloat.div (reduce_sum xs) (of_nat (length xs))) weight),
       PrimFloat.add (snd acc) weight)
  end.

(** [factors > 0 ? Math.round(totalScore / factors) : 0]; [None] when the
    quotient is not finite *)
Definition riskScoreOf (commitScores tierScores severityScores : list float) : option Z :=
  let acc :=
    addFactor (addFactor (addFactor (0%float, 0%float) commitScores 0.4%float)
                 tierScores 0.35%float) severityScores 0.25%float in
  if PrimFloat.ltb 0%float (snd acc)
  then option_map Math_round (value (PrimFloat.div (fst acc) (snd acc)))
  else Some 0.

(** [15 + Math.round((i / n) * 25)] *)
Definition batchProgress (n i : nat) : option Z :=
  option_map (fun x => 15 + Math_round x)
    (value (PrimFloat.mul (PrimFloat.div (of_nat i) (of_nat n)) 25%float)).

End Machine.

(** ** The score as the specification words it *)

Local Open Scope Q_scope.

(** The sum and the mean of a list of numbers. *)
Definition total (xs : list Q) : Q := fold_right Qplus 0 xs.

Definition mean (xs : list Q) : Q := total xs / inject_Z (Z.of_nat (length xs)).

(** The specification's mapping of the dependency risk tiers,
    {safe:0, low:25, medium:50, high:75, critical:100}, and the tiers it
    maps. *)
Definition tierScore (t : RiskTier) : Q :=
  match t with
  | tier_safe => 0 | tier_low => 25 | tier_medium => 50
  | tier_high => 75 | tier_critical => 100
  | tier_other _ => 0
  end.

Definition inTable (t : RiskTier) : Prop :=
  match t with tier_other _ => False | _ => True end.

(** The specification's mapping of the alert severities,
    {low:25, medium:50, high:75, critical:100}. *)
Definition severityScore (s : Severity) : Q :=
  match s with
  | sev_low => 25 | sev_medium => 50 | sev_high => 75 | sev_critical => 100
  end.

(** A factor with its nominal weight; it is there only when its source
    list is not empty. *)
Definition factor {A} (weight : Q) (value : A -> Q) (source : list A) : list (Q * Q) :=
  match source with
  | [] => []
  | _ => [(mean (map value source), weight)]
  end.

Definition includedFactors (commits : list Commit.t) (dependencies : list Dependency.t)
    (alerts : list Alert.t) : list (Q * Q) :=
  factor 0.40 Commit.riskScore commits
  ++ factor 0.35 (fun d => tierScore (Dependency.riskLevel d)) dependencies
  ++ factor 0.25 (fun a => severityScore (Alert.severity a)) alerts.

(** (sum of factor x weight) / (sum of weights), over the included factors *)
Definition weightedMean (factors : list (Q * Q)) : Q :=
  total (map (fun fw => fst fw * snd fw) factors) / total (map snd factors).

(** [z] is an integer nearest to [x], up to [tolerance]. *)
Definition nearestInteger (tolerance x : Q) (z : Z) : Prop :=
  inject_Z z - 0.5 - tolerance <= x /\ x <= inject_Z z + 0.5 + tolerance.

(** The level thresholds: under 25, 25 to 49, 50 to 74, 75 and more. *)
Definition levelByThreshold (score : Z) (level : RiskLevel) : Prop :=
  match level with
  | low => (score < 25)%Z
  | medium => (25 <= score <= 49)%Z
  | high => (50 <= score <= 74)%Z
  | critical => (75 <= score)%Z
  end.

(** The inputs the scoring step meets: risk scores between 0 and 100,
    tiers of the table, and arrays, which hold fewer than 2^32 elements. *)
Definition scorable (commits : list Commit.t) (dependencies : list Dependency.t)
    (alerts : list Alert.t) : Prop :=
  Forall (fun c => 0 <= Commit.riskScore c <= 100) commits
  /\ Forall (fun d => inTable (Dependency.riskLevel d)) dependencies
  /\ (Z.of_nat (length commits) < 2 ^ 32)%Z
  /\ (Z.of_nat (length dependencies) < 2 ^ 32)%Z
  /\ (Z.of_nat (length alerts) < 2 ^ 32)%Z.

Local Close Scope Q_scope.

(** The pair the scoring step assigns to the job. *)
Definition score (commits : list Commit.t) (dependencies : list Dependency.t)
    (alerts : list Alert.t) : Num * RiskLevel :=
  let riskScore := riskScoreOf commits dependencies alerts in
  (riskScore, riskLevelOf riskScore).

(** The inputs of the specification's examples. *)
Definition commit_with_riskScore (riskScore : Q) : Commit.t :=
  Commit.mk "" "" "" [] [] riskScore None.

Definition alert_with_severity (severity : Severity) : Alert.t :=
  Alert.mk severity type_commit [] [] no_details JUndefined.

Definition dependency_with_tier (tier : RiskTier) : Dependency.t :=
  Dependency.mk "left-pad" "1.3.0" tier [] (Typosquatting.mk false [] (JNumber (Fin 0))) None.

(** The release of [jobId]'s container succeeds: the daemon stops it, or
    answers that it is already stopped (or the job has no container). *)
Definition released (daemon : list string -> string -> DockerService.StopResult)
    (jobId : string) (s : DockerService.t) : Prop :=
  match DockerService.activeContainers s !! jobId with
  | None => True
  | Some containerInfo =>
      let answer :=
        daemon (DockerService.stopRequests s)
          (DockerService.ContainerInfo.container containerInfo) in
      answer = DockerService.stop_resolved \/ answer = DockerService.stop_rejected 304
  end.

(** A registry with one running container, and a daemon that finds every
    container already stopped. *)
Definition one_container : DockerService.t :=
  DockerService.mk
    {[ "job-1" := DockerService.ContainerInfo.mk "c0ffee" "nodejs" "/workspace/job-1" ]}
    [] [].

Definition already_stopped : list string -> string -> DockerService.StopResult :=
  fun _ _ => DockerService.stop_rejected 304.

(** ** What the properties observe *)

(** The payloads of the [done] events among [events], oldest first. *)
Fixpoint dones (events : list Event) : list Done.t :=
  match events with
  | [] => []
  | done_event payload :: rest => payload :: dones rest
  | _ :: rest => dones rest
  end.

(** The status of the stored document. *)
Definition storedStatus (w : World.t) : option Status :=
  option_map Job.status (World.stored w).

(** The part of a world the lifecycle properties read. *)
Module View.
Record t := mk {
    status : Status;
    progress : Z;
    statusHistory : list Status;
    progressHistory : list Z;
    dones : list Done.t;
    cleaned : list string
  }.
End View.

Definition view (w : World.t) : View.t :=
  View.mk (Job.status (World.job w)) (Job.progress (World.job w))
    (World.statusHistory w) (World.progressHistory w)
    (dones (World.emitted w)) (World.cleaned w).

(** Every element of the list is related to the next one. *)
Fixpoint chain {A} (R : A -> A -> Prop) (l : list A) : Prop :=
  match l with
  | a :: (b :: _) as rest => R a b /\ chain R rest
  | _ => True
  end.

(** [a] stands right before [b] in [l]. *)
Definition adjacent {A} (a b : A) (l : list A) : Prop :=
  exists before after : list A, l = (before ++ a :: b :: after)%list.

Definition terminal (s : Status) : Prop := s = completed \/ s = failed.

(** The directed edges of the specification's state machine. *)
Inductive edge : Status -> Status -> Prop :=
| edge_start : edge pending cloning
| edge_cloned : edge cloning analyzing
| edge_completed : edge analyzing completed
| edge_failed s : ~ terminal s -> edge s failed.

(** The edges, and the one from [completed] to [failed]. *)
Inductive edge_or_late_failure : Status -> Status -> Prop :=
| on_edge a b : edge a b -> edge_or_late_failure a b
| late_failure : edge_or_late_failure completed failed.

(** An assignment to [status] moves it along [R] or leaves it as it is. *)
Definition moves (R : Status -> Status -> Prop) (a b : Status) : Prop :=
  a = b \/ R a b.

(** The histories of a view are in order and end with the current values. *)
Definition Hist (R : Status -> Status -> Prop) (v : View.t) : Prop :=
  chain (moves R) (View.statusHistory v)
  /\ last (View.statusHistory v) = Some (View.status v)
  /\ chain Z.le (View.progressHistory v)
  /\ last (View.progressHistory v) = Some (View.progress v)
  /\ head (View.progressHistory v) = Some 0.

(** The statuses the store has held are in order, and the last of them is
    the status of the document it holds. *)
Definition StoredOrder (w : World.t) : Prop :=
  chain (moves edge) (World.storedHistory w)
  /\ last (World.storedHistory w) = storedStatus w.

(** The store holds the job with status [s]. *)
Definition Stored (s : Status) (w : World.t) : Prop :=
  StoredOrder w /\ storedStatus w = Some s.

(** The store holds the job with the status the engine's job has. *)
Definition in_sync (w : World.t) : Prop := Stored (Job.status (World.job w)) w.

(** A run under way: the status is one of [statuses], the progress at most
    [bound], no [done] event yet and no cleanup. *)
Definition Stage (statuses : list Status) (bound : Z) (v : View.t) : Prop :=
  Hist edge v
  /\ In (View.status v) statuses
  /\ View.progress v <= bound
  /\ View.dones v = []
  /\ View.cleaned v = [].

(** A run under way, with the store holding the status the job has. *)
Definition Synced (statuses : list Status) (bound : Z) (w : World.t) : Prop :=
  Stage statuses bound (view w) /\ in_sync w.

(** A run under way, with the store holding a status that is not terminal:
    the one the job has or the one it had before its last move. *)
Definition Behind (statuses : list Status) (bound : Z) (w : World.t) : Prop :=
  Stage statuses bound (view w)
  /\ exists s, ~ terminal s /\ moves edge s (Job.status (World.job w)) /\ Stored s w.

(** ** Assertions about the engine's methods *)

(** A function on job documents that leaves status, progress and id alone. *)
Definition keeps (f : Job.t -> Job.t) : Prop :=
  forall j,
    Job.status (f j) = Job.status j
    /\ Job.progress (f j) = Job.progress j
    /\ Job.jobId (f j) = Job.jobId j.

(** The job keeps its id. *)
Definition same_jobId (w w' : World.t) : Prop :=
  Job.jobId (World.job w') = Job.jobId (World.job w).

(** Whatever the outcome of [m], the world it leaves is related by [R] to
    the one it started from. *)
Definition preserved (R : World.t -> World.t -> Prop) {A} (m : Async A) : Prop :=
  forall w, R w (snd (m w)).

(** [m], started where [P] holds, returns where [Q] holds or throws where
    [E] holds. *)
Definition triple {A} (P : World.t -> Prop) (m : Async A)
    (Q : A -> World.t -> Prop) (E : string -> World.t -> Prop) : Prop :=
  forall w, P w ->
    match m w with
    | (Return a, w') => Q a w'
    | (Throw message, w') => E message w'
    end.

(** The view is left as it was. *)
Definition same_view (w w' : World.t) : Prop := view w' = view w.

(** The [dockerService] singleton is left as it was. *)
Definition same_docker (w w' : World.t) : Prop := World.docker w' = World.docker w.

(** [m] leaves the store as it was. *)
Definition untouched {A} (m : Async A) : Prop :=
  forall w,
    World.stored (snd (m w)) = World.stored w
    /\ World.storedHistory (snd (m w)) = World.storedHistory w.

(** The view is left as it was, and the store holds the status it held or
    the status of the job. *)
Definition quietly (w w' : World.t) : Prop :=
  same_view w w'
  /\ forall s, Stored s w -> moves edge s (Job.status (World.job w)) ->
       Stored s w' \/ in_sync w'.

(** The run succeeded: the job is completed, one [done] event was emitted,
    with the payload of the job as it is, the workspace was cleaned, and the
    store holds the job as completed. *)
Definition Succeeded (jobId : string) (w : World.t) : Prop :=
  Hist edge (view w)
  /\ Job.status (World.job w) = completed
  /\ Job.progress (World.job w) = 100
  /\ dones (World.emitted w) = [successDone (World.job w)]
  /\ World.cleaned w = [jobId]
  /\ Stored completed w.

(** The run failed with [message]: the job is failed and records the
    message; when the store accepted the failed job, one [done] event was
    emitted, with the failure payload, and the workspace was cleaned; when
    it rejected it, neither happened.  The statuses the store has held are
    in order. *)
Definition FailedWith (jobId message : string) (w : World.t) : Prop :=
  Hist edge_or_late_failure (view w)
  /\ Job.status (World.job w) = failed
  /\ Job.buildInfo (World.job w) = Some (BuildInfo.mk false [message] [])
  /\ ((storedStatus w = Some failed
       /\ dones (World.emitted w) = [failureDone message]
       /\ World.cleaned w = [jobId])
      \/ (storedStatus w <> Some failed
          /\ dones (World.emitted w) = []
          /\ World.cleaned w = []))
  /\ StoredOrder w.

(** The submission was rejected: [startAnalysis] threw, no run started. *)
Definition Unscheduled (w : World.t) : Prop :=
  Job.status (World.job w) = pending
  /\ view w = View.mk pending 0 [pending] [0] [] []
  /\ StoredOrder w.

(** Where an exception can leave the job. *)
Definition Interrupted (w : World.t) : Prop :=
  Behind [cloning; analyzing; completed] 100 w.

(** ** Sample collaborators *)

(** An oracle that is not available, and one that answers every commit with
    a verdict of risk 80, as a JSON text after a word of introduction. *)
Definition unavailable_oracle : Oracle.t :=
  Oracle.mk false "deepseek-r1:1.5b" (fun _ => http_failed) (fun _ => http_failed)
    (fun _ => http_failed) (fun _ => None).

Definition verdict_80 : Analysis.t :=
  Analysis.mk (Some 80%Q) None (Some ["Obfuscated code"]) (Some []) None
    (JNumber (Fin 0.9%Q)) (Some "Suspicious network call") None None None.

(** [text] between double quotes *)
Definition quoted (text : string) : string :=
  String "034"%char (String.append text (String "034"%char EmptyString)).

(** The JSON text of [verdict_80]. *)
Definition verdict_80_json : string :=
  fold_right String.append EmptyString
    ["{"; quoted "riskScore"; ": 80, ";
     quoted "threats"; ": ["; quoted "Obfuscated code"; "], ";
     quoted "suspiciousPatterns"; ": [], ";
     quoted "confidence"; ": 0.9, ";
     quoted "summary"; ": "; quoted "Suspicious network call"; "}"].

(** [JSON.parse] is given on the one text this oracle answers with. *)
Definition alarmed_oracle : Oracle.t :=
  Oracle.mk true "deepseek-r1:1.5b"
    (fun _ => http_ok (Some (String.append "Assessment: " verdict_80_json)))
    (fun _ => http_failed) (fun _ => http_failed)
    (fun text => if String.eqb text verdict_80_json then Some verdict_80 else None).

Definition sample_repo : RepoInfo.t :=
  RepoInfo.mk "repo" "owner" "main" "./workspace/job-1" 0 None None.

Definition sample_commit : Commit.t :=
  Commit.mk "9fceb02d0ae598e95dc970b74767f19372d61af8" "mallory" "update build script"
    ["build.sh"] [] 0%Q None.

Definition sample_package : Package.t := Package.mk "left-pad" "1.3.0" "npmjs.org".

(** A repository without commits and dependencies, behind a store that
    answers the saves as [save_result] says. *)
Definition empty_repository (save_result : nat -> option string) : Env.t :=
  Env.mk save_result (fun _ _ => Return sample_repo) (fun _ => Return [])
    (fun _ => []) unavailable_oracle parseFloat_digits.

(** A repository with one commit and one dependency. *)
Definition small_repository (oracle : Oracle.t) : Env.t :=
  Env.mk (fun _ => None) (fun _ _ => Return sample_repo) (fun _ => Return [sample_commit])
    (fun _ => [sample_package]) oracle parseFloat_digits.

(** A repository with twelve commits, which are analysed in three batches. *)
Definition busy_repository : Env.t :=
  Env.mk (fun _ => None) (fun _ _ => Return sample_repo)
    (fun _ => Return (repeat sample_commit 12)) (fun _ => []) unavailable_oracle
    parseFloat_digits.

(** A repository that cannot be reached. *)
Definition unreachable_repository : Env.t :=
  Env.mk (fun _ => None) (fun _ _ => Throw "Repository not found") (fun _ => Return [])
    (fun _ => []) unavailable_oracle parseFloat_digits.

(** Stores: one that accepts every save, one that accepts the first save and
    rejects the later ones, one that rejects the saves numbered [from] to
    [to] only. *)
Definition accepting : nat -> option string := fun _ => None.

Definition down_after_submission : nat -> option string :=
  fun n => if (n =? 0)%nat then None else Some "store unavailable".

Definition outage (from to : nat) : nat -> option string :=
  fun n => if (from <=? n)%nat && (n <=? to)%nat then Some "store unavailable" else None.

Definition no_containers : DockerService.t := DockerService.mk ∅ [] [].


(** ** Assertions about the job's lists *)

(** From [w] to [w'] the job's commits and dependencies are left alone and
    alerts are pushed on its alerts, each of them satisfying [P]. *)
Definition alerts_grow (P : Alert.t -> Prop) (w w' : World.t) : Prop :=
  Job.commits (World.job w') = Job.commits (World.job w)
  /\ Job.dependencies (World.job w') = Job.dependencies (World.job w)
  /\ exists appended,
       Job.alerts (World.job w') = (Job.alerts (World.job w) ++ appended)%list
       /\ Forall P appended.

(** The same, with [first] the first alert pushed. *)
Definition alerts_grow_from (first : Alert.t) (P : Alert.t -> Prop) (w w' : World.t) : Prop :=
  Job.commits (World.job w') = Job.commits (World.job w)
  /\ Job.dependencies (World.job w') = Job.dependencies (World.job w)
  /\ exists appended,
       Job.alerts (World.job w') = (Job.alerts (World.job w) ++ first :: appended)%list
       /\ Forall P appended.

(** The commit as [analyzeCommits] pushes it on the job's commits: the
    commit of the fetcher with the oracle's risk score (0 when it gives
    none) and verdict. *)
Definition analyzedCommit (env : Env.t) (commit : Commit.t) : Commit.t :=
  let aiAnalysis := AIService.analyzeCommit (Env.oracle env) commit in
  Commit.mk (Commit.hash commit) (Commit.author commit) (Commit.message commit)
    (Commit.filesChanged commit) (Commit.suspiciousPatterns commit)
    (default 0%Q (Analysis.riskScore aiAnalysis))
    (Some (Verdict.mk (Analysis.summary aiAnalysis)
             (default [] (Analysis.threats aiAnalysis))
             (sanitizeConfidence (Env.parseFloat env) (Analysis.confidence aiAnalysis)))).

(** The alerts about commits among [alerts]. *)
Definition commitAlerts (alerts : list Alert.t) : list Alert.t :=
  List.filter
    (fun alert => match Alert.type alert with type_commit => true | _ => false end)
    alerts.

(** [alerts] are the alerts of a commit of the fetcher: none when the oracle
    scores it 70 or less, at least one when it scores it higher; each is a
    commit alert, critical above 90 and high otherwise. *)
Definition alerts_of_commit (env : Env.t) (commit : Commit.t) (alerts : list Alert.t)
    : Prop :=
  let riskScore :=
    default 0%Q (Analysis.riskScore (AIService.analyzeCommit (Env.oracle env) commit)) in
  (alerts <> [] <-> (70 < riskScore)%Q)
  /\ (forall alert, In alert alerts ->
        Alert.type alert = type_commit
        /\ ((90 < riskScore)%Q -> Alert.severity alert = sev_critical)
        /\ (~ (90 < riskScore)%Q -> Alert.severity alert = sev_high)).

(** From [w] to [w'] the job's id, address and commits are left alone and
    alerts are pushed on its alerts, each of them satisfying [P]. *)
Definition alerts_pushed (P : Alert.t -> Prop) (w w' : World.t) : Prop :=
  Job.jobId (World.job w') = Job.jobId (World.job w)
  /\ Job.repoUrl (World.job w') = Job.repoUrl (World.job w)
  /\ Job.commits (World.job w') = Job.commits (World.job w)
  /\ exists appended,
       Job.alerts (World.job w') = (Job.alerts (World.job w) ++ appended)%list
       /\ Forall P appended.

(** The same, with no alert about a commit among the alerts pushed. *)
Definition commits_kept : World.t -> World.t -> Prop :=
  alerts_pushed (fun alert => Alert.type alert <> type_commit).

(** From [w] to [w'] the commits [commits] of the fetcher were analysed:
    they were pushed on the job's commits as [analyzedCommit] makes them, in
    order, and the alerts about commits pushed meanwhile are the alerts of
    these commits, in order. *)
Definition commits_processed (env : Env.t) (commits : list Commit.t) (w w' : World.t)
    : Prop :=
  Job.jobId (World.job w') = Job.jobId (World.job w)
  /\ Job.repoUrl (World.job w') = Job.repoUrl (World.job w)
  /\ Job.commits (World.job w')
     = (Job.commits (World.job w) ++ map (analyzedCommit env) commits)%list
  /\ exists appended,
       Forall2 (alerts_of_commit env) commits appended
       /\ commitAlerts (Job.alerts (World.job w'))
          = (commitAlerts (Job.alerts (World.job w)) ++ List.concat appended)%list.

(** What [analyzeDependencies] makes of a declared dependency, as far as the
    oracle's answer determines it. *)
Definition analyzed_as (env : Env.t) (dependency : Package.t) (analyzed : Dependency.t)
    : Prop :=
  let aiAnalysis := AIService.analyzeDependency (Env.oracle env) dependency in
  Dependency.name analyzed = Package.name dependency
  /\ Dependency.version analyzed = Package.version dependency
  /\ Dependency.riskLevel analyzed = default tier_safe (Analysis.riskLevel aiAnalysis)
  /\ Dependency.vulnerabilities analyzed = default [] (Analysis.threats aiAnalysis)
  /\ Dependency.aiAnalysis analyzed
     = Some (Verdict.mk (Analysis.summary aiAnalysis)
               (default [] (Analysis.threats aiAnalysis))
               (sanitizeConfidence (Env.parseFloat env) (Analysis.confidence aiAnalysis))).

(** An alert about a dependency whose tier is [tier]: it is high or
    critical, and critical only for a critical tier. *)
Definition dependency_alert (tier : RiskTier) (alert : Alert.t) : Prop :=
  Alert.type alert = type_dependency
  /\ (Alert.severity alert = sev_high \/ Alert.severity alert = sev_critical)
  /\ (Alert.severity alert = sev_critical -> tier = tier_critical).

(** A confidence [sanitizeConfidence] cannot read as a number: the number
    [NaN], or a string that does not end in '%' and that [parseFloat] reads
    as [NaN]. *)
Definition unreadable (parseFloat : string -> Num) (value : JSValue) : Prop :=
  match value with
  | JNumber NaN => True
  | JString s => endsWith_percent s = false /\ parseFloat s = NaN
  | _ => False
  end.

(** ** The summary report ([generateSummaryReport] and the methods it calls) *)

(** What [calculateComprehensiveMetrics] returns, with every field. *)
Module ComprehensiveMetrics.
Record t := mk {
    totalCommits : nat;
    highRiskCommits : nat;
    suspiciousCommits : nat;
    avgCommitRisk : Num;
    totalDependencies : nat;
    criticalDependencies : nat;
    highRiskDependencies : nat;
    typosquattingDependencies : nat;
    vulnerableDependencies : nat;
    totalAlerts : nat;
    criticalAlerts : nat;
    highAlerts : nat;
    mediumAlerts : nat;
    lowAlerts : nat;
    totalIssues : nat;
    criticalIssues : nat;
    securityScore : Num;
    riskScore : Num;
    riskLevel : string
  }.
End ComprehensiveMetrics.

(** [priority] of a recommendation *)
Inductive Priority := priority_critical | priority_high | priority_medium | priority_low.

Module Recommendation.
Record t := mk {
    priority : Priority;
    action : string;
    description : string
  }.
End Recommendation.

(** [riskBreakdown] and its four parts *)
Module RiskBreakdown.
Record Overall := mkOverall { score : Num; level : string; securityScore : Num }.
Record Commits := mkCommits {
    commits_total : nat; highRisk : nat; suspicious : nat; averageRisk : Num }.
Record Dependencies := mkDependencies {
    dependencies_total : nat; dependencies_critical : nat; dependencies_high : nat;
    vulnerable : nat; typosquatting : nat }.
Record Alerts := mkAlerts {
    alerts_total : nat; alerts_critical : nat; alerts_high : nat;
    alerts_medium : nat; alerts_low : nat }.
Record t := mk {
    overall : Overall;
    commits : Commits;
    dependencies : Dependencies;
    alerts : Alerts
  }.
End RiskBreakdown.

(** [technicalDetails]; [analysisDate] and [analysisDuration] are read off
    the clock and left out *)
Module TechnicalDetails.
Record t := mk {
    toolsUsed : list string;
    coverage_commits : nat;
    coverage_dependencies : nat;
    filesAnalyzed : nat
  }.
End TechnicalDetails.

Module SummaryReport.
Record t := mk {
    executiveSummary : Message;
    keyFindings : list Message;
    riskBreakdown : RiskBreakdown.t;
    recommendations : list Recommendation.t;
    technicalDetails : TechnicalDetails.t
  }.
End SummaryReport.

Module Report.

(** [job.riskLevel || 'unknown'] *)
Definition riskLevel_or_unknown (j : Job.t) : string :=
  match Job.riskLevel j with
  | Some level => RiskLevel_name level
  | None => "unknown"
  end.

(** [job.riskScore || 0] *)
Definition riskScore_or0 (j : Job.t) : Num :=
  match Job.riskScore j with
  | Some riskScore => Num.or0 riskScore
  | None => Fin 0
  end.

(** [calculateComprehensiveMetrics(job)] *)
Definition calculateComprehensiveMetrics (j : Job.t) : ComprehensiveMetrics.t :=
  let commits := Job.commits j in
  let dependencies := Job.dependencies j in
  let alerts := Job.alerts j in
  let highRiskCommits := List.filter (fun c => Qgtb (Commit.riskScore c) 70) commits in
  let suspiciousCommits :=
    List.filter (fun c => nonempty (Commit.suspiciousPatterns c)) commits in
  let avgCommitRisk :=
    if nonempty commits
    then Binary64.div (reduce_sum (fun c => Num.or0 (Fin (Commit.riskScore c))) commits)
           (length_num commits)
    else Fin 0 in
  let criticalDeps :=
    List.filter (fun d => RiskTier_eqb (Dependency.riskLevel d) tier_critical) dependencies in
  let highRiskDeps :=
    List.filter (fun d => RiskTier_eqb (Dependency.riskLevel d) tier_high) dependencies in
  let typosquatDeps :=
    List.filter (fun d => Typosquatting.isTyposquat (Dependency.typosquatting d))
      dependencies in
  let vulnerableDeps :=
    List.filter (fun d => nonempty (Dependency.vulnerabilities d)) dependencies in
  let criticalAlerts :=
    List.filter (fun a => Severity_eqb (Alert.severity a) sev_critical) alerts in
  let highAlerts := List.filter (fun a => Severity_eqb (Alert.severity a) sev_high) alerts in
  let mediumAlerts :=
    List.filter (fun a => Severity_eqb (Alert.severity a) sev_medium) alerts in
  let lowAlerts := List.filter (fun a => Severity_eqb (Alert.severity a) sev_low) alerts in
  let totalIssues := length alerts in
  let criticalIssues := length criticalAlerts in
  let securityScore := Num.max (Fin 0) (Binary64.sub (Fin 100) (riskScore_or0 j)) in
  ComprehensiveMetrics.mk
    (length commits) (length highRiskCommits) (length suspiciousCommits)
    (Math_round_number avgCommitRisk)
    (length dependencies) (length criticalDeps) (length highRiskDeps)
    (length typosquatDeps) (length vulnerableDeps)
    (length alerts) (length criticalAlerts) (length highAlerts) (length mediumAlerts)
    (length lowAlerts)
    totalIssues criticalIssues securityScore
    (riskScore_or0 j) (riskLevel_or_unknown j).

Definition generateExecutiveSummary (j : Job.t) (metrics : ComprehensiveMetrics.t)
    : Message :=
  let riskLevel := riskLevel_or_unknown j in
  let riskScore := riskScore_or0 j in
  let summary :=
    [lit "Security analysis of "; lit (Job.repoUrl j);
     lit " completed with a risk score of "; num (Some riskScore); lit "/100 (";
     lit riskLevel; lit " risk). "] in
  let summary :=
    if (0 <? ComprehensiveMetrics.criticalIssues metrics)%nat
    then (summary ++ [numN (ComprehensiveMetrics.criticalIssues metrics);
                      lit " critical security issues were identified requiring immediate attention. "])%list
    else summary in
  if (ComprehensiveMetrics.totalIssues metrics =? 0)%nat
  then (summary ++ [lit "No significant security issues were detected in this analysis."])%list
  else (summary ++ [lit "A total of "; numN (ComprehensiveMetrics.totalIssues metrics);
                    lit " security concerns were found across commits and dependencies."])%list.

(** [if (count > 0) findings.push(...)] *)
Definition push_if {A} (condition : bool) (x : A) (xs : list A) : list A :=
  if condition then (xs ++ [x])%list else xs.

Definition generateKeyFindings (j : Job.t) (metrics : ComprehensiveMetrics.t)
    : list Message :=
  let findings := [] in
  let findings :=
    push_if (0 <? ComprehensiveMetrics.criticalAlerts metrics)%nat
      [numN (ComprehensiveMetrics.criticalAlerts metrics);
       lit " critical security alerts requiring immediate action"] findings in
  let findings :=
    push_if (0 <? ComprehensiveMetrics.highRiskCommits metrics)%nat
      [numN (ComprehensiveMetrics.highRiskCommits metrics);
       lit " high-risk commits with suspicious patterns"] findings in
  let findings :=
    push_if (0 <? ComprehensiveMetrics.criticalDependencies metrics)%nat
      [numN (ComprehensiveMetrics.criticalDependencies metrics);
       lit " critical dependency vulnerabilities"] findings in
  let findings :=
    push_if (0 <? ComprehensiveMetrics.typosquattingDependencies metrics)%nat
      [numN (ComprehensiveMetrics.typosquattingDependencies metrics);
       lit " potential typosquatting attacks detected"] findings in
  let findings :=
    push_if (0 <? ComprehensiveMetrics.vulnerableDependencies metrics)%nat
      [numN (ComprehensiveMetrics.vulnerableDependencies metrics);
       lit " dependencies with known vulnerabilities"] findings in
  if (length findings =? 0)%nat
  then (findings ++ [[lit "No critical security issues identified"];
                     [lit "Repository follows security best practices"]])%list
  else findings.

Definition generateRiskBreakdown (j : Job.t) (metrics : ComprehensiveMetrics.t)
    : RiskBreakdown.t :=
  RiskBreakdown.mk
    (RiskBreakdown.mkOverall (ComprehensiveMetrics.riskScore metrics)
       (ComprehensiveMetrics.riskLevel metrics) (ComprehensiveMetrics.securityScore metrics))
    (RiskBreakdown.mkCommits (ComprehensiveMetrics.totalCommits metrics)
       (ComprehensiveMetrics.highRiskCommits metrics)
       (ComprehensiveMetrics.suspiciousCommits metrics)
       (ComprehensiveMetrics.avgCommitRisk metrics))
    (RiskBreakdown.mkDependencies (ComprehensiveMetrics.totalDependencies metrics)
       (ComprehensiveMetrics.criticalDependencies metrics)
       (ComprehensiveMetrics.highRiskDependencies metrics)
       (ComprehensiveMetrics.vulnerableDependencies metrics)
       (ComprehensiveMetrics.typosquattingDependencies metrics))
    (RiskBreakdown.mkAlerts (ComprehensiveMetrics.totalAlerts metrics)
       (ComprehensiveMetrics.criticalAlerts metrics)
       (ComprehensiveMetrics.highAlerts metrics)
       (ComprehensiveMetrics.mediumAlerts metrics)
       (ComprehensiveMetrics.lowAlerts metrics)).

Definition generateRecommendations (j : Job.t) (metrics : ComprehensiveMetrics.t)
    : list Recommendation.t :=
  let recommendations := [] in
  let recommendations :=
    push_if (0 <? ComprehensiveMetrics.criticalIssues metrics)%nat
      (Recommendation.mk priority_critical
         "Address critical security issues immediately"
         "Review and remediate all critical alerts before deployment")
      recommendations in
  let recommendations :=
    push_if (0 <? ComprehensiveMetrics.vulnerableDependencies metrics)%nat
      (Recommendation.mk priority_high
         "Update vulnerable dependencies"
         "Upgrade dependencies to secure versions and implement dependency scanning")
      recommendations in
  let recommendations :=
    push_if (0 <? ComprehensiveMetrics.typosquattingDependencies metrics)%nat
      (Recommendation.mk priority_high
         "Review suspicious dependencies"
         "Verify legitimacy of flagged packages and consider alternatives")
      recommendations in
  let recommendations :=
    push_if (0 <? ComprehensiveMetrics.highRiskCommits metrics)%nat
      (Recommendation.mk priority_medium
         "Review high-risk commits"
         "Conduct manual review of flagged commits for security issues")
      recommendations in
  let recommendations :=
    (recommendations ++
     [Recommendation.mk priority_low
        "Implement continuous security monitoring"
        "Set up automated security scanning in CI/CD pipeline"])%list in
  (recommendations ++
   [Recommendation.mk priority_low
      "Security training"
      "Provide security awareness training for development team"])%list.

Definition generateSummaryReport (j : Job.t) (metrics : ComprehensiveMetrics.t)
    : SummaryReport.t :=
  SummaryReport.mk
    (generateExecutiveSummary j metrics)
    (generateKeyFindings j metrics)
    (generateRiskBreakdown j metrics)
    (generateRecommendations j metrics)
    (TechnicalDetails.mk
       ["Static Analysis"; "AI-Powered Threat Detection"; "Dependency Scanning";
        "Commit Analysis"]
       (ComprehensiveMetrics.totalCommits metrics)
       (ComprehensiveMetrics.totalDependencies metrics)
       (fold_left (fun sum c => (sum + length (Commit.filesChanged c))%nat)
          (Job.commits j) 0%nat)).

End Report.

(** The rank of a priority, the most urgent first. *)
Definition Priority_rank (p : Priority) : nat :=
  match p with
  | priority_critical => 0 | priority_high => 1 | priority_medium => 2 | priority_low => 3
  end.

(** The counts among the metrics. *)
Definition counts_of (m : ComprehensiveMetrics.t) : Metrics.t :=
  Metrics.mk
    (ComprehensiveMetrics.totalCommits m) (ComprehensiveMetrics.highRiskCommits m)
    (ComprehensiveMetrics.suspiciousCommits m)
    (ComprehensiveMetrics.totalDependencies m) (ComprehensiveMetrics.criticalDependencies m)
    (ComprehensiveMetrics.highRiskDependencies m)
    (ComprehensiveMetrics.typosquattingDependencies m)
    (ComprehensiveMetrics.vulnerableDependencies m)
    (ComprehensiveMetrics.totalAlerts m) (ComprehensiveMetrics.criticalAlerts m)
    (ComprehensiveMetrics.highAlerts m) (ComprehensiveMetrics.mediumAlerts m)
    (ComprehensiveMetrics.lowAlerts m).

(** The two findings of a report that found nothing. *)
Definition all_clear : list Message :=
  [[lit "No critical security issues identified"];
   [lit "Repository follows security best practices"]].

(** The two recommendations every report ends with. *)
Definition standing_recommendations : list Recommendation.t :=
  [Recommendation.mk priority_low
     "Implement continuous security monitoring"
     "Set up automated security scanning in CI/CD pipeline";
   Recommendation.mk priority_low
     "Security training"
     "Provide security awareness training for development team"].

(** ** The sandbox: the other methods of [DockerService] *)

Module Containers.

(** What a command run in a container leaves: its exit code and output. *)
Module ExecResult.
Record t := mk {
    exitCode : Z;
    stdout : string;
    stderr : string
  }.
End ExecResult.

(** How the daemon answers an [exec]: [container.exec] or [exec.start]
    rejects; or the command is started and its stream fails, or does not end
    in time, or its [inspect] rejects; or the stream ends and [inspect]
    gives the exit code. *)
Inductive ExecAnswer :=
| exec_refused (message : string)
| exec_broken (message : string)
| exec_ended (result : ExecResult.t).

(** The Docker daemon as the service sees it.  Every answer may depend on
    the state of the service. *)
Module Daemon.
Record t := mk {
    (** [image.inspect()] resolves *)
    image_inspect : DockerService.t -> string -> bool;
    (** the build of [buildImage]: the [stream] texts of the events it
        reports, and how it ends *)
    build : DockerService.t -> string -> list string * Outcome unit;
    (** [docker.createContainer(config)], by image and name: the id of the
        new container *)
    createContainer : DockerService.t -> string -> string -> Outcome string;
    (** [container.stop()], by the requests before it *)
    stop : list string -> string -> DockerService.StopResult;
    (** [container.exec], [exec.start], the stream and [exec.inspect], by
        container and [Cmd] *)
    exec : DockerService.t -> string -> list string -> ExecAnswer
  }.
End Daemon.

(** [`${this.imagePrefix}-${projectType}:latest`] *)
Definition imageName (projectType : string) : string :=
  "codedog-" ++ projectType ++ ":latest".

(** What [runAnalysis] returns. *)
Module AnalysisOutput.
Record t := mk {
    exitCode : Z;
    stdout : string;
    stderr : string;
    (** [analysisResults], its keys in the order they were set *)
    analysisResults : list (string * string)
  }.
End AnalysisOutput.

Section WithDaemon.
Variable d : Daemon.t.

Definition buildImage (projectType : string) (s : DockerService.t)
    : Outcome string * DockerService.t :=
  let s := DockerService.log info ("Building Docker image: " ++ imageName projectType) s in
  let '(events, ending) := Daemon.build d s projectType in
  let s := fold_left (fun s event => DockerService.log info ("Build: " ++ event) s) events s in
  match ending with
  | Return _ =>
      (Return (imageName projectType),
       DockerService.log info ("Image built successfully: " ++ imageName projectType) s)
  | Throw message =>
      (Throw message,
       DockerService.log error ("Failed to build image for " ++ projectType) s)
  end.

Definition createAnalysisContainer (projectType workspacePath jobId : string)
    (s : DockerService.t) : Outcome string * DockerService.t :=
  let s := DockerService.log info "Creating analysis container..." s in
  let image :=
    if Daemon.image_inspect d s (imageName projectType) then (Return tt, s)
    else
      let s :=
        DockerService.log info ("Image not found, building: " ++ imageName projectType) s in
      match buildImage projectType s with
      | (Return _, s) => (Return tt, s)
      | (Throw message, s) => (Throw message, s)
      end in
  match image with
  | (Throw message, s) =>
      (Throw message, DockerService.log error "Failed to create analysis container" s)
  | (Return _, s) =>
      match Daemon.createContainer d s (imageName projectType)
              ("codedog-analysis-" ++ jobId) with
      | Throw message =>
          (Throw message, DockerService.log error "Failed to create analysis container" s)
      | Return container =>
          let s :=
            DockerService.mk
              (<[jobId := DockerService.ContainerInfo.mk container projectType workspacePath]>
                 (DockerService.activeContainers s))
              (DockerService.stopRequests s) (DockerService.console s) in
          (Return container, DockerService.log info "Analysis container created" s)
      end
  end.

(** A command: a text, run through [/bin/bash -c], or the array itself. *)
Inductive Command :=
| command_text (text : string)
| command_array (words : list string).

(** [executeCommand(container, command)].  The promise that waits for the
    stream is returned, not awaited, inside the [try] block: when it
    rejects, the [catch] of [executeCommand] is not run. *)
Definition executeCommand (container : string) (command : Command) (s : DockerService.t)
    : Outcome ExecResult.t * DockerService.t :=
  let s := DockerService.log info "Executing command in container..." s in
  let Cmd :=
    match command with
    | command_array words => words
    | command_text text => ["/bin/bash"; "-c"; text]
    end in
  match Daemon.exec d s container Cmd with
  | exec_refused message =>
      (Throw message, DockerService.log error "Command execution failed" s)
  | exec_broken message => (Throw message, s)
  | exec_ended result => (Return result, DockerService.log info "Command executed" s)
  end.

Definition outputFiles : list string :=
  ["analysis-output/summary.txt"; "analysis-output/dependencies.txt";
   "analysis-output/suspicious-patterns.txt"; "analysis-output/vulnerability-scan.txt"].

(** The body of [for (const file of outputFiles)]. *)
Definition readOutput (container : string) (file : string)
    (acc : list (string * string) * DockerService.t)
    : list (string * string) * DockerService.t :=
  let '(analysisResults, s) := acc in
  match executeCommand container (command_text ("cat " ++ file)) s with
  | (Return fileResult, s) =>
      if (ExecResult.exitCode fileResult =? 0)%Z
      then ((analysisResults ++ [(file, ExecResult.stdout fileResult)])%list, s)
      else (analysisResults, s)
  | (Throw _, s) =>
      (analysisResults, DockerService.log warn ("Could not read analysis file: " ++ file) s)
  end.

Definition runAnalysis (container : string) (projectType : string) (s : DockerService.t)
    : Outcome AnalysisOutput.t * DockerService.t :=
  let s := DockerService.log info "Running security analysis..." s in
  match executeCommand container (command_text "/usr/local/bin/analyze") s with
  | (Throw message, s) =>
      (Throw message, DockerService.log error "Analysis execution failed" s)
  | (Return result, s) =>
      let s :=
        if negb (ExecResult.exitCode result =? 0)%Z
        then DockerService.log warn "Analysis script returned non-zero exit code" s
        else s in
      let '(analysisResults, s) :=
        fold_left (fun acc file => readOutput container file acc) outputFiles ([], s) in
      (Return (AnalysisOutput.mk (ExecResult.exitCode result) (ExecResult.stdout result)
                 (ExecResult.stderr result) analysisResults),
       DockerService.log info "Analysis completed" s)
  end.

End WithDaemon.

End Containers.

(** A daemon with the analysis images, which creates the container
    [c0ffee], stops containers when asked, and in whose containers the
    analysis script ends with code 2 and only the summary can be read. *)
Definition sample_daemon : Containers.Daemon.t :=
  Containers.Daemon.mk
    (fun _ _ => true)
    (fun _ _ => ([], Return tt))
    (fun _ _ _ => Return "c0ffee")
    (fun _ _ => DockerService.stop_resolved)
    (fun _ _ Cmd =>
       if bool_decide (Cmd = ["/bin/bash"; "-c"; "/usr/local/bin/analyze"])
       then Containers.exec_ended (Containers.ExecResult.mk 2 EmptyString "npm audit failed")
       else if bool_decide (Cmd = ["/bin/bash"; "-c"; "cat analysis-output/summary.txt"])
       then Containers.exec_ended (Containers.ExecResult.mk 0 "2 issues" EmptyString)
       else Containers.exec_ended (Containers.ExecResult.mk 1 EmptyString "No such file")).

(** A daemon that cannot stop containers. *)
Definition stuck : list string -> string -> DockerService.StopResult :=
  fun _ _ => DockerService.stop_rejected 500.

(** The character [c] occurs in [s]. *)
Definition occurs (c : ascii) (s : string) : Prop := In c (list_ascii_of_string s).


(** * Properties *)

(** ** Binary64 rounding *)

Local Open Scope Q_scope.

Lemma pow2_pos (e : Z) : 0 < 2 ^ e.
Proof. apply Qpower_0_lt. reflexivity. Qed.

Lemma pow2_succ (e : Z) : 2 ^ (e + 1) == 2 * 2 ^ e.
Proof. rewrite Qpower_plus by discriminate. change (2 ^ 1) with 2. ring. Qed.

Lemma pow2_le (a b : Z) : (a <= b)%Z -> 2 ^ a <= 2 ^ b.
Proof. intros H. apply Qpower_le_compat_l; [exact H | discriminate]. Qed.

Lemma pow2_lt (a b : Z) : (a < b)%Z -> 2 ^ a < 2 ^ b.
Proof. intros H. apply Qpower_lt_compat_l; [exact H | reflexivity]. Qed.

Lemma pow2_Z (n : Z) : (0 <= n)%Z -> 2 ^ n == inject_Z (2 ^ n).
Proof. intros H. rewrite Zpower_Qpower by exact H. reflexivity. Qed.

(** [Binary64.ilog2 x] is the integer part of the binary logarithm of [x]. *)
Lemma ilog2_spec (x : Q) : 0 < x -> 2 ^ Binary64.ilog2 x <= x /\ x < 2 ^ (Binary64.ilog2 x + 1).
Proof.
  intros Hx. destruct x as [n d]. unfold Binary64.ilog2. cbn [Qnum Qden].
  assert (Hn : (0 < n)%Z).
  { unfold Qlt in Hx. cbn in Hx. lia. }
  set (a := Z.log2 n). set (b := Z.log2 (Z.pos d)).
  assert (Ha : (2 ^ a <= n < 2 ^ (a + 1))%Z).
  { pose proof (Z.log2_spec n Hn). unfold a. rewrite <- Z.add_1_r in H. lia. }
  assert (Hb : (2 ^ b <= Z.pos d < 2 ^ (b + 1))%Z).
  { pose proof (Z.log2_spec (Z.pos d) ltac:(lia)). unfold b. rewrite <- Z.add_1_r in H. lia. }
  assert (Ha0 : (0 <= a)%Z) by apply Z.log2_nonneg.
  assert (Hb0 : (0 <= b)%Z) by apply Z.log2_nonneg.
  assert (Hq : n # d == inject_Z n / inject_Z (Z.pos d)) by apply Qmake_Qdiv.
  assert (Hd : 0 < inject_Z (Z.pos d)) by (unfold Qlt; cbn; lia).
  assert (HA : 2 ^ a <= inject_Z n /\ inject_Z n < 2 * 2 ^ a).
  { rewrite <- pow2_succ, !pow2_Z by lia. rewrite <- Zle_Qle, <- Zlt_Qlt. exact Ha. }
  assert (HB : 2 ^ b <= inject_Z (Z.pos d) /\ inject_Z (Z.pos d) < 2 * 2 ^ b).
  { rewrite <- pow2_succ, !pow2_Z by lia. rewrite <- Zle_Qle, <- Zlt_Qlt. exact Hb. }
  pose proof (pow2_pos a) as Hpa. pose proof (pow2_pos b) as Hpb.
  assert (Hk : 2 ^ (a - b) == 2 ^ a / 2 ^ b) by (apply Qpower_minus; discriminate).
  assert (Hlow : 2 ^ (a - b - 1) < n # d).
  { rewrite Hq. apply Qlt_shift_div_l; [exact Hd|].
    assert (E : 2 ^ (a - b - 1) == 2 ^ a / (2 * 2 ^ b)).
    { replace (a - b - 1)%Z with (a - (b + 1))%Z by lia.
      rewrite Qpower_minus by discriminate. rewrite pow2_succ. reflexivity. }
    rewrite E.
    apply Qlt_le_trans with (2 ^ a); [|tauto].
    assert (0 < 2 * 2 ^ b) by lra.
    unfold Qdiv. 
    assert (E2 : 2 ^ a == 2 ^ a * / (2 * 2 ^ b) * (2 * 2 ^ b)) by (field; lra).
    rewrite E2 at 2.
    apply Qmult_lt_l.
    - apply Qmult_lt_0_compat; [exact Hpa | apply Qinv_lt_0_compat; exact H].
    - tauto. }
  assert (Hhigh : n # d < 2 ^ (a - b + 1)).
  { rewrite Hq. apply Qlt_shift_div_r; [exact Hd|].
    rewrite pow2_succ, Hk.
    apply Qlt_le_trans with (2 * 2 ^ a); [tauto|].
    assert (E2 : 2 * 2 ^ a == 2 * (2 ^ a / 2 ^ b) * 2 ^ b) by (field; lra).
    rewrite E2.
    apply Qmult_le_l; [|tauto].
    apply Qmult_lt_0_compat; [reflexivity|]. apply Qlt_shift_div_l; lra. }
  destruct (Qle_bool (2 ^ (a - b)) (n # d)) eqn:E.
  - apply Qle_bool_iff in E. split; [exact E | exact Hhigh].
  - split; [apply Qlt_le_weak; exact Hlow|].
    replace (a - b - 1 + 1)%Z with (a - b)%Z by lia.
    apply Qnot_le_lt. intros H. apply Qle_bool_iff in H. congruence.
Qed.

Lemma ilog2_mono (x y : Q) : 0 < x -> x <= y -> (Binary64.ilog2 x <= Binary64.ilog2 y)%Z.
Proof.
  intros Hx Hxy.
  destruct (ilog2_spec x Hx) as [Hlx _].
  destruct (ilog2_spec y ltac:(lra)) as [_ Huy].
  destruct (Z_le_gt_dec (Binary64.ilog2 x) (Binary64.ilog2 y)) as [H|H]; [exact H|exfalso].
  pose proof (pow2_le (Binary64.ilog2 y + 1) (Binary64.ilog2 x) ltac:(lia)). lra.
Qed.

Lemma lastPlace_mono (x y : Q) : 0 < x -> x <= y -> (Binary64.lastPlace x <= Binary64.lastPlace y)%Z.
Proof. intros Hx Hxy. pose proof (ilog2_mono x y Hx Hxy). unfold Binary64.lastPlace. lia. Qed.

(** the fractional part *)
Lemma Qfloor_frac (x : Q) : 0 <= x - inject_Z (Qfloor x) /\ x - inject_Z (Qfloor x) < 1.
Proof.
  pose proof (Qfloor_le x). pose proof (Qlt_floor x).
  rewrite inject_Z_plus in H0. change (inject_Z 1) with 1 in H0. lra.
Qed.

Lemma nearestEven_error (x : Q) :
  - (1 # 2) <= inject_Z (Binary64.nearestEven x) - x <= 1 # 2.
Proof.
  unfold Binary64.nearestEven. pose proof (Qfloor_frac x) as [H0 H1].
  destruct (Qcompare_spec (x - inject_Z (Qfloor x)) (1 # 2)) as [E|E|E].
  - destruct (Z.even (Qfloor x)); rewrite ?inject_Z_plus; change (inject_Z 1) with 1; lra.
  - lra.
  - rewrite inject_Z_plus. change (inject_Z 1) with 1. lra.
Qed.

Lemma nearestEven_comp (x y : Q) : x == y -> Binary64.nearestEven x = Binary64.nearestEven y.
Proof.
  intros E. unfold Binary64.nearestEven. rewrite (Qfloor_comp x y E).
  assert (E' : x - inject_Z (Qfloor y) == y - inject_Z (Qfloor y)) by (rewrite E; reflexivity).
  rewrite (Qcompare_comp _ _ E' (1 # 2) (1 # 2) (Qeq_refl _)). reflexivity.
Qed.

Lemma nearestEven_mono (x y : Q) : x <= y -> (Binary64.nearestEven x <= Binary64.nearestEven y)%Z.
Proof.
  intros H. pose proof (nearestEven_error x) as Hx. pose proof (nearestEven_error y) as Hy.
  destruct (Z_le_gt_dec (Binary64.nearestEven x) (Binary64.nearestEven y)) as [L|G]; [exact L|exfalso].
  assert (Hz : inject_Z (Binary64.nearestEven y) + 1 <= inject_Z (Binary64.nearestEven x)).
  { change 1 with (inject_Z 1). rewrite <- inject_Z_plus, <- Zle_Qle. lia. }
  assert (E : x == y) by lra.
  apply nearestEven_comp in E. lia.
Qed.

Lemma nearestEven_inject_Z (z : Z) : Binary64.nearestEven (inject_Z z) = z.
Proof.
  unfold Binary64.nearestEven. rewrite Qfloor_Z.
  assert (E : inject_Z z - inject_Z z == 0) by ring.
  rewrite (Qcompare_comp _ _ E (1 # 2) (1 # 2) (Qeq_refl _)). reflexivity.
Qed.

Lemma nearestEven_le (x : Q) (z : Z) : x <= inject_Z z -> (Binary64.nearestEven x <= z)%Z.
Proof. intros H. rewrite <- (nearestEven_inject_Z z). apply nearestEven_mono, H. Qed.

Lemma nearestEven_ge (x : Q) (z : Z) : inject_Z z <= x -> (z <= Binary64.nearestEven x)%Z.
Proof. intros H. rewrite <- (nearestEven_inject_Z z) at 1. apply nearestEven_mono, H. Qed.

(** ** Rounding a positive number *)

Lemma scaled_bounds (x : Q) :
  0 < x -> x / 2 ^ Binary64.lastPlace x < 2 ^ 53
           /\ ((-1074 < Binary64.lastPlace x)%Z -> 2 ^ 52 <= x / 2 ^ Binary64.lastPlace x).
Proof.
  intros Hx. destruct (ilog2_spec x Hx) as [Hl Hu].
  pose proof (pow2_pos (Binary64.lastPlace x)) as Hp.
  split.
  - apply Qlt_shift_div_r; [exact Hp|].
    rewrite <- Qpower_plus by discriminate.
    apply Qlt_le_trans with (2 ^ (Binary64.ilog2 x + 1)); [exact Hu|].
    apply pow2_le. unfold Binary64.lastPlace. lia.
  - intros Hnormal. apply Qle_shift_div_l; [exact Hp|].
    rewrite <- Qpower_plus by discriminate.
    apply Qle_trans with (2 ^ Binary64.ilog2 x); [|exact Hl].
    apply pow2_le. unfold Binary64.lastPlace in *. lia.
Qed.

Lemma round_positive_nonneg (x : Q) : 0 < x -> 0 <= Binary64.round_positive x.
Proof.
  intros Hx. unfold Binary64.round_positive.
  pose proof (pow2_pos (Binary64.lastPlace x)) as Hp.
  apply Qmult_le_0_compat; [|lra].
  change 0 with (inject_Z 0). rewrite <- Zle_Qle. apply nearestEven_ge.
  change (inject_Z 0) with 0. apply Qle_shift_div_l; [exact Hp|]. lra.
Qed.

Lemma round_positive_mono (x y : Q) :
  0 < x -> x <= y -> Binary64.round_positive x <= Binary64.round_positive y.
Proof.
  intros Hx Hxy. assert (Hy : 0 < y) by lra.
  pose proof (lastPlace_mono x y Hx Hxy) as He.
  pose proof (pow2_pos (Binary64.lastPlace x)) as Hpx. pose proof (pow2_pos (Binary64.lastPlace y)) as Hpy.
  unfold Binary64.round_positive.
  destruct (Z.eq_dec (Binary64.lastPlace x) (Binary64.lastPlace y)) as [E|N].
  - rewrite E. apply Qmult_le_compat_r; [|lra].
    rewrite <- Zle_Qle. apply nearestEven_mono.
    apply Qmult_le_compat_r; [exact Hxy|]. apply Qlt_le_weak, Qinv_lt_0_compat, Hpy.
  - destruct (scaled_bounds x Hx) as [Hux _].
    destruct (scaled_bounds y Hy) as [_ Hly]. specialize (Hly ltac:(unfold Binary64.lastPlace in *; lia)).
    apply Qle_trans with (2 ^ 53 * 2 ^ Binary64.lastPlace x).
    + apply Qmult_le_compat_r; [|lra].
      rewrite (pow2_Z 53) by lia. rewrite <- Zle_Qle. apply nearestEven_le.
      rewrite <- (pow2_Z 53) by lia. lra.
    + apply Qle_trans with (2 ^ 52 * 2 ^ Binary64.lastPlace y).
      * rewrite <- !Qpower_plus by discriminate. apply pow2_le. lia.
      * apply Qmult_le_compat_r; [|lra].
        rewrite (pow2_Z 52) by lia. rewrite <- Zle_Qle. apply nearestEven_ge.
        rewrite <- (pow2_Z 52) by lia. exact Hly.
Qed.

Lemma round_positive_error (x : Q) :
  0 < x -> Qabs (Binary64.round_positive x - x) <= 2 ^ Binary64.lastPlace x / 2.
Proof.
  intros Hx. unfold Binary64.round_positive.
  pose proof (pow2_pos (Binary64.lastPlace x)) as Hp.
  pose proof (nearestEven_error (x / 2 ^ Binary64.lastPlace x)) as He.
  set (m := inject_Z (Binary64.nearestEven (x / 2 ^ Binary64.lastPlace x))) in *.
  assert (E : m * 2 ^ Binary64.lastPlace x - x == (m - x / 2 ^ Binary64.lastPlace x) * 2 ^ Binary64.lastPlace x)
    by (field; lra).
  rewrite E. apply Qabs_Qle_condition. split.
  - assert (- (2 ^ Binary64.lastPlace x / 2) == - (1 # 2) * 2 ^ Binary64.lastPlace x) by (field).
    rewrite H. apply Qmult_le_compat_r; lra.
  - assert (2 ^ Binary64.lastPlace x / 2 == (1 # 2) * 2 ^ Binary64.lastPlace x) by (field).
    rewrite H. apply Qmult_le_compat_r; lra.
Qed.

Lemma lastPlace_bound (x B : Q) :
  0 < x -> x <= B -> 2 ^ Binary64.lastPlace x <= B * 2 ^ (-52) + 2 ^ (-1074).
Proof.
  intros Hx HB. destruct (ilog2_spec x Hx) as [Hl _].
  pose proof (pow2_pos (-52)). pose proof (pow2_pos (-1074)).
  unfold Binary64.lastPlace. destruct (Z.max_spec (-1074) (Binary64.ilog2 x - 52)) as [[_ ->]|[_ ->]].
  - replace (Binary64.ilog2 x - 52)%Z with (Binary64.ilog2 x + -52)%Z by lia.
    rewrite Qpower_plus by discriminate.
    assert (2 ^ Binary64.ilog2 x * 2 ^ (-52) <= B * 2 ^ (-52)) by (apply Qmult_le_compat_r; lra).
    lra.
  - assert (0 <= B * 2 ^ (-52)) by (apply Qmult_le_0_compat; lra). lra.
Qed.

(** exact on the integers below 2^53 *)
Lemma round_positive_Z (z : Z) :
  (0 < z < 2 ^ 53)%Z -> Binary64.round_positive (inject_Z z) == inject_Z z.
Proof.
  intros Hz. unfold Binary64.round_positive.
  assert (Hx : 0 < inject_Z z) by (change 0 with (inject_Z 0); rewrite <- Zlt_Qlt; lia).
  set (e := Binary64.lastPlace (inject_Z z)).
  assert (He : (e <= 0)%Z).
  { destruct (ilog2_spec _ Hx) as [Hl _].
    assert (Binary64.ilog2 (inject_Z z) < 53)%Z.
    { apply Qpower_lt_compat_l_inv with 2; [|reflexivity].
      apply Qle_lt_trans with (inject_Z z); [exact Hl|].
      rewrite (pow2_Z 53) by lia. rewrite <- Zlt_Qlt. lia. }
    unfold e, Binary64.lastPlace. lia. }
  pose proof (pow2_pos e) as Hp.
  assert (E : inject_Z z / 2 ^ e == inject_Z (z * 2 ^ (- e))).
  { rewrite inject_Z_mult, <- pow2_Z by lia. rewrite Qpower_opp. field. lra. }
  rewrite (nearestEven_comp _ _ E), nearestEven_inject_Z.
  rewrite inject_Z_mult, <- pow2_Z by lia. rewrite Qpower_opp. field. lra.
Qed.

(** ** Rounding *)

Lemma round_0 : Binary64.round 0 = 0.
Proof. reflexivity. Qed.

Lemma round_pos (x : Q) : 0 < x -> Binary64.round x = Binary64.round_positive x.
Proof.
  intros H. unfold Binary64.round. destruct (Qcompare_spec x 0) as [E|E|E]; [lra|lra|reflexivity].
Qed.

Lemma round_nonneg (x : Q) : 0 <= x -> 0 <= Binary64.round x.
Proof.
  intros H. unfold Binary64.round. destruct (Qcompare_spec x 0) as [E|E|E]; try lra.
  apply round_positive_nonneg, E.
Qed.

Lemma round_mono (x y : Q) : 0 <= x -> x <= y -> Binary64.round x <= Binary64.round y.
Proof.
  intros Hx Hxy. unfold Binary64.round at 1. destruct (Qcompare_spec x 0) as [E|E|E]; try lra.
  - apply round_nonneg. lra.
  - rewrite (round_pos y) by lra. apply round_positive_mono; assumption.
Qed.

Lemma round_Z (z : Z) : (0 <= z < 2 ^ 53)%Z -> Binary64.round (inject_Z z) == inject_Z z.
Proof.
  intros Hz. destruct (Z.eq_dec z 0%Z) as [->|N]; [reflexivity|].
  rewrite round_pos by (change 0 with (inject_Z 0); rewrite <- Zlt_Qlt; lia).
  apply round_positive_Z. lia.
Qed.

(** the rounding error of a number that is at most [B] *)
Lemma round_error (x B : Q) :
  0 <= x -> x <= B ->
  - (B * 2 ^ (-53) + 2 ^ (-1075)) <= Binary64.round x - x <= B * 2 ^ (-53) + 2 ^ (-1075).
Proof.
  intros Hx HB. pose proof (pow2_pos (-53)) as Hu. pose proof (pow2_pos (-1075)) as Hn.
  assert (HBu : 0 <= B * 2 ^ (-53)) by (apply Qmult_le_0_compat; lra).
  unfold Binary64.round. destruct (Qcompare_spec x 0) as [E|E|E]; try lra.
  pose proof (round_positive_error x E) as He.
  pose proof (lastPlace_bound x B E HB) as Hb.
  assert (E52 : 2 ^ (-52) == 2 * 2 ^ (-53)) by reflexivity.
  assert (E74 : 2 ^ (-1074) == 2 * 2 ^ (-1075)) by reflexivity.
  rewrite E52, E74 in Hb.
  apply Qabs_Qle_condition.
  eapply Qle_trans; [exact He|].
  apply Qle_shift_div_r; [reflexivity|]. lra.
Qed.

(** Rounding does not tell equal rationals apart. *)
Lemma ilog2_comp (x y : Q) : 0 < x -> x == y -> Binary64.ilog2 x = Binary64.ilog2 y.
Proof.
  intros Hx E. apply Z.le_antisymm; apply ilog2_mono; lra.
Qed.

Lemma round_positive_comp (x y : Q) :
  0 < x -> x == y -> Binary64.round_positive x == Binary64.round_positive y.
Proof.
  intros Hx E. unfold Binary64.round_positive, Binary64.lastPlace.
  rewrite (ilog2_comp x y Hx E).
  set (e := Z.max (-1074) (Binary64.ilog2 y - 52)).
  assert (E' : x / 2 ^ e == y / 2 ^ e) by (rewrite E; reflexivity).
  rewrite (nearestEven_comp _ _ E'). reflexivity.
Qed.

Lemma round_comp (x y : Q) : x == y -> Binary64.round x == Binary64.round y.
Proof.
  intros E. unfold Binary64.round.
  destruct (Qcompare_spec x 0) as [Hx|Hx|Hx], (Qcompare_spec y 0) as [Hy|Hy|Hy];
    try (exfalso; lra); try reflexivity.
  - assert (E' : - x == - y) by (rewrite E; reflexivity).
    rewrite (round_positive_comp (- x) (- y)) by (lra || exact E'). reflexivity.
  - apply round_positive_comp; assumption.
Qed.

Lemma number_comp (x y : Q) : x == y -> Binary64.number x = Binary64.number y.
Proof.
  intros E. unfold Binary64.number. pose proof (round_comp x y E) as Er.
  assert (Eabs : Qle_bool (Qabs (Binary64.round x)) Binary64.maxValue
                 = Qle_bool (Qabs (Binary64.round y)) Binary64.maxValue).
  { destruct (Qle_bool (Qabs (Binary64.round y)) Binary64.maxValue) eqn:Ey.
    - apply Qle_bool_iff. apply Qle_bool_iff in Ey. rewrite Er. exact Ey.
    - destruct (Qle_bool (Qabs (Binary64.round x)) Binary64.maxValue) eqn:Ex; [|reflexivity].
      apply Qle_bool_iff in Ex. rewrite Er in Ex. apply Qle_bool_iff in Ex. congruence. }
  assert (Esign : Qle_bool 0 x = Qle_bool 0 y).
  { destruct (Qle_bool 0 y) eqn:Ey.
    - apply Qle_bool_iff. apply Qle_bool_iff in Ey. rewrite E. exact Ey.
    - destruct (Qle_bool 0 x) eqn:Ex; [|reflexivity].
      apply Qle_bool_iff in Ex. rewrite E in Ex. apply Qle_bool_iff in Ex. congruence. }
  rewrite Eabs, Esign, (Qred_complete _ _ Er). reflexivity.
Qed.

(** ** Binary64 values between 0 and 2^53 *)

Lemma round_2_53 : Binary64.round (2 ^ 53) == 2 ^ 53.
Proof. apply Qeq_bool_eq. vm_compute. reflexivity. Qed.

(** No overflow up to 2^53: the value is the rounded number, which is not
    negative, differs from [x] by at most half a last place, and does not
    pass an integer that [x] does not pass. *)
Lemma number_bounded (x B : Q) :
  0 <= x -> x <= B -> B <= 2 ^ 53 ->
  exists r,
    Binary64.number x = Fin r
    /\ 0 <= r
    /\ - (B * 2 ^ (-53) + 2 ^ (-1075)) <= r - x <= B * 2 ^ (-53) + 2 ^ (-1075)
    /\ forall z, (0 <= z < 2 ^ 53)%Z -> x <= inject_Z z -> r <= inject_Z z.
Proof.
  intros Hx HB HB53. exists (Qred (Binary64.round x)).
  pose proof (round_nonneg x Hx) as Hr.
  assert (Hmax : Qle_bool (Qabs (Binary64.round x)) Binary64.maxValue = true).
  { apply Qle_bool_iff. rewrite Qabs_pos by exact Hr.
    apply Qle_trans with (Binary64.round (2 ^ 53)); [apply round_mono; lra|].
    rewrite round_2_53. apply Qle_bool_iff. vm_compute. reflexivity. }
  unfold Binary64.number. rewrite Hmax.
  split; [reflexivity|]. rewrite Qred_correct.
  split; [exact Hr|]. split; [apply round_error; assumption|].
  intros z Hz Hxz. rewrite Qred_correct, <- (round_Z z Hz). apply round_mono; assumption.
Qed.

Lemma Qred_inject_Z (z : Z) : Qred (inject_Z z) = inject_Z z.
Proof.
  unfold Qred, inject_Z.
  pose proof (Z.ggcd_gcd z 1) as Hg. pose proof (Z.ggcd_correct_divisors z 1) as Hd.
  destruct (Z.ggcd z 1) as (g & a & b). cbn in Hg, Hd.
  rewrite Z.gcd_1_r in Hg. subst g. destruct Hd as [Ha Hb].
  rewrite Z.mul_1_l in Ha, Hb. subst a b. reflexivity.
Qed.

(** The integers below 2^53 are binary64 values. *)
Lemma number_Z (z : Z) :
  (0 <= z < 2 ^ 53)%Z -> Binary64.number (inject_Z z) = Fin (inject_Z z).
Proof.
  intros Hz.
  destruct (number_bounded (inject_Z z) (2 ^ 53)) as (r & Hn & _).
  { change 0 with (inject_Z 0). rewrite <- Zle_Qle. lia. }
  { rewrite (pow2_Z 53) by lia. rewrite <- Zle_Qle. lia. }
  { apply Qle_refl. }
  revert Hn. unfold Binary64.number.
  destruct (Qle_bool (Qabs (Binary64.round (inject_Z z))) Binary64.maxValue);
    [intros _ | destruct (Qle_bool 0 (inject_Z z)); discriminate].
  rewrite (Qred_complete _ _ (round_Z z Hz)).
  rewrite Qred_inject_Z. reflexivity.
Qed.

Lemma tiny : 200 * 2 ^ (-53) + 2 ^ (-1075) <= 1 # 1000000000000.
Proof. apply Qle_bool_iff. vm_compute. reflexivity. Qed.

(** The value of a number between 0 and 200. *)
Lemma number_small (x : Q) :
  0 <= x <= 200 ->
  exists r,
    Binary64.number x = Fin r
    /\ 0 <= r
    /\ - (1 # 1000000000000) <= r - x <= 1 # 1000000000000
    /\ forall z, (0 <= z < 2 ^ 53)%Z -> x <= inject_Z z -> r <= inject_Z z.
Proof.
  intros [H0 H200].
  destruct (number_bounded x 200 H0 H200) as (r & Hn & Hr & He & Hz).
  { apply Qle_bool_iff. vm_compute. reflexivity. }
  exists r. pose proof tiny. repeat split; try assumption; lra.
Qed.

Lemma div_positive (x y : Q) :
  0 < y -> Binary64.div (Fin x) (Fin y) = Binary64.number (x / y).
Proof.
  intros Hy. unfold Binary64.div. destruct (Qcompare_spec y 0) as [E|E|E]; try reflexivity.
  exfalso. lra.
Qed.

(** ** The sum and the mean of numbers between 0 and 100 *)

Lemma sum_step : 100 * 2 ^ 32 * 2 ^ (-53) + 2 ^ (-1075) <= 1 # 20971.
Proof. apply Qle_bool_iff. vm_compute. reflexivity. Qed.

Lemma inject_nat_S (k : nat) : inject_Z (Z.of_nat (S k)) == inject_Z (Z.of_nat k) + 1.
Proof. rewrite Nat2Z.inj_succ, <- Z.add_1_r, inject_Z_plus. reflexivity. Qed.

Lemma inject_nat_nonneg (k : nat) : 0 <= inject_Z (Z.of_nat k).
Proof. change 0 with (inject_Z 0). rewrite <- Zle_Qle. lia. Qed.

(** The sum as the code adds it up, from the left and rounding every
    partial sum: it stays below 100 times the number of terms, and each
    addition adds at most 1/20971 to its distance from the exact sum. *)
Lemma fold_sum_close {A} (f : A -> Num) (g : A -> Q) (xs : list A) :
  forall (k : nat) (s t : Q),
    Forall (fun x => f x = Fin (g x) /\ 0 <= g x <= 100) xs ->
    (Z.of_nat (k + length xs) < 2 ^ 32)%Z ->
    0 <= s <= 100 * inject_Z (Z.of_nat k) ->
    - (inject_Z (Z.of_nat k) * (1 # 20971)) <= s - t <= inject_Z (Z.of_nat k) * (1 # 20971) ->
    exists s',
      fold_left (fun sum x => Binary64.add sum (f x)) xs (Fin s) = Fin s'
      /\ 0 <= s' <= 100 * inject_Z (Z.of_nat (k + length xs))
      /\ - (inject_Z (Z.of_nat (k + length xs)) * (1 # 20971))
         <= s' - (t + total (map g xs))
         <= inject_Z (Z.of_nat (k + length xs)) * (1 # 20971).
Proof.
  induction xs as [|x xs IH]; intros k s t Hxs Hlen Hs Hst.
  - exists s. cbn [fold_left map total fold_right length]. rewrite Nat.add_0_r.
    split; [reflexivity|]. split; [exact Hs | lra].
  - inversion Hxs as [|? ? [Hf Hg] Hrest]; subst.
    cbn [length] in *. cbn [fold_left]. rewrite Hf. cbn [Binary64.add].
    assert (Ek : (k + S (length xs) = S k + length xs)%nat) by lia.
    rewrite Ek in *.
    pose proof (inject_nat_S k) as HS. pose proof (inject_nat_nonneg k) as Hk.
    assert (Hbound : inject_Z (Z.of_nat (S k)) <= 2 ^ 32).
    { rewrite (pow2_Z 32) by lia. rewrite <- Zle_Qle. lia. }
    assert (E32 : 2 ^ 32 == 4294967296) by reflexivity.
    destruct (number_bounded (s + g x) (100 * 2 ^ 32)) as (r & Hn & Hr & He & Hz).
    { lra. }
    { lra. }
    { apply Qle_bool_iff. vm_compute. reflexivity. }
    rewrite Hn. pose proof sum_step as Hstep.
    specialize (Hz (100 * Z.of_nat (S k))%Z).
    assert (Hr100 : r <= 100 * inject_Z (Z.of_nat (S k))).
    { change 100 with (inject_Z 100). rewrite <- inject_Z_mult. apply Hz.
      - lia.
      - rewrite inject_Z_mult. change (inject_Z 100) with 100. lra. }
    destruct (IH (S k) r (t + g x) Hrest) as (s' & Hfold & Hs' & Hclose).
    { exact Hlen. }
    { split; [exact Hr | exact Hr100]. }
    { lra. }
    exists s'.
    split; [exact Hfold|]. split; [exact Hs'|].
    cbn [map total fold_right]. fold (total (map g xs)). lra.
Qed.

Lemma total_bounds {A} (g : A -> Q) (xs : list A) :
  Forall (fun x => 0 <= g x <= 100) xs ->
  0 <= total (map g xs) <= 100 * inject_Z (Z.of_nat (length xs)).
Proof.
  induction 1 as [|x xs Hx _ IH].
  - change (inject_Z (Z.of_nat (length (@nil A)))) with 0. cbn [map total fold_right]. lra.
  - cbn [map total fold_right length]. fold (total (map g xs)).
    pose proof (inject_nat_S (length xs)). lra.
Qed.

(** The mean as the code computes it. *)
Lemma mean_close {A} (f : A -> Num) (g : A -> Q) (xs : list A) :
  xs <> [] ->
  Forall (fun x => f x = Fin (g x) /\ 0 <= g x <= 100) xs ->
  (Z.of_nat (length xs) < 2 ^ 32)%Z ->
  exists a,
    Binary64.div (reduce_sum f xs) (length_num xs) = Fin a
    /\ 0 <= a <= 100
    /\ - (1 # 20000) <= a - mean (map g xs) <= 1 # 20000
    /\ 0 <= mean (map g xs) <= 100.
Proof.
  intros Hne Hxs Hlen.
  destruct (fold_sum_close f g xs 0 0 0 Hxs) as (s & Hfold & Hs & Hclose).
  { exact Hlen. }
  { change (inject_Z (Z.of_nat 0)) with 0. lra. }
  { change (inject_Z (Z.of_nat 0)) with 0. lra. }
  cbn [Nat.add] in Hs, Hclose.
  unfold reduce_sum, length_num. rewrite Hfold.
  set (n := inject_Z (Z.of_nat (length xs))) in *.
  assert (Hn : 1 <= n).
  { unfold n. change 1 with (inject_Z 1). rewrite <- Zle_Qle.
    destruct xs; [contradiction | cbn [length]; lia]. }
  rewrite div_positive by lra.
  assert (Hq : 0 <= s / n <= 100).
  { split; [apply Qle_shift_div_l; lra | apply Qle_shift_div_r; lra]. }
  destruct (number_small (s / n)) as (a & Ha & Ha0 & Hae & Haz); [lra|].
  exists a. split; [exact Ha|].
  assert (Ha100 : a <= 100).
  { change 100 with (inject_Z 100). apply Haz; [lia|]. change (inject_Z 100) with 100. lra. }
  split; [lra|].
  unfold mean. rewrite length_map. fold n.
  assert (Hmean : - (1 # 20971) <= s / n - total (map g xs) / n <= 1 # 20971).
  { assert (E : s / n - total (map g xs) / n == (s - (0 + total (map g xs))) / n)
      by (field; lra).
    rewrite E. split.
    - apply Qle_shift_div_l; [lra|]. lra.
    - apply Qle_shift_div_r; [lra|]. lra. }
  assert (Htotal : 0 <= total (map g xs) <= 100 * n).
  { apply total_bounds. eapply Forall_impl; [exact Hxs|]. intros x [_ H]. exact H. }
  assert (Hm : 0 <= total (map g xs) / n <= 100).
  { split; [apply Qle_shift_div_l; lra | apply Qle_shift_div_r; lra]. }
  set (q := s / n) in *. set (m := total (map g xs) / n) in *.
  split; [lra | exact Hm].
Qed.

(** ** The score next to the weighted mean *)

Lemma tierScore_known (t : RiskTier) :
  inTable t -> riskLevelScores t = Fin (tierScore t) /\ 0 <= tierScore t <= 100.
Proof. destruct t; cbn; intros H; try contradiction; split; try reflexivity; lra. Qed.

Lemma severityScore_known (s : Severity) :
  severityScores s = Fin (severityScore s) /\ 0 <= severityScore s <= 100.
Proof. destruct s; cbn; split; try reflexivity; lra. Qed.

(** The means of the three lists of a scorable input. *)
Lemma means_close commits dependencies alerts :
  scorable commits dependencies alerts ->
  (commits <> [] ->
   exists a,
     Binary64.div (reduce_sum (fun c => Fin (Commit.riskScore c)) commits)
       (length_num commits) = Fin a
     /\ 0 <= a <= 100
     /\ - (1 # 20000) <= a - mean (map Commit.riskScore commits) <= 1 # 20000
     /\ 0 <= mean (map Commit.riskScore commits) <= 100)
  /\ (dependencies <> [] ->
      exists a,
        Binary64.div
          (reduce_sum (fun d => riskLevelScores (Dependency.riskLevel d)) dependencies)
          (length_num dependencies) = Fin a
        /\ 0 <= a <= 100
        /\ - (1 # 20000)
           <= a - mean (map (fun d => tierScore (Dependency.riskLevel d)) dependencies)
           <= 1 # 20000
        /\ 0 <= mean (map (fun d => tierScore (Dependency.riskLevel d)) dependencies) <= 100)
  /\ (alerts <> [] ->
      exists a,
        Binary64.div (reduce_sum (fun a => severityScores (Alert.severity a)) alerts)
          (length_num alerts) = Fin a
        /\ 0 <= a <= 100
        /\ - (1 # 20000)
           <= a - mean (map (fun a => severityScore (Alert.severity a)) alerts)
           <= 1 # 20000
        /\ 0 <= mean (map (fun a => severityScore (Alert.severity a)) alerts) <= 100).
Proof.
  intros (Hc & Hd & Hlc & Hld & Hla). split; [|split]; intros Hne.
  - apply mean_close; [exact Hne | | exact Hlc].
    eapply Forall_impl; [exact Hc|]. intros c H. split; [reflexivity | exact H].
  - apply mean_close; [exact Hne | | exact Hld].
    eapply Forall_impl; [exact Hd|]. intros d H. apply tierScore_known, H.
  - apply mean_close; [exact Hne | | exact Hla].
    apply Forall_forall. intros a _. apply severityScore_known.
Qed.

(** Replaces a closed number by its value. *)
Ltac evaluate term :=
  let v := eval vm_compute in term in
  replace term with v by (vm_compute; reflexivity).

(** Replaces the value of the innermost operation by a name, with the
    bounds of [number_small]. *)
Ltac number_step :=
  match goal with
  | |- context [Binary64.number ?e] =>
      let r := fresh "r" in
      let Hn := fresh "Hn" in
      destruct (number_small e) as (r & Hn & ? & ? & _);
      [lra | rewrite Hn; clear Hn; cbn [Binary64.add Binary64.mul]]
  end.

Ltac score_case :=
  unfold riskScoreOf, scoreFactors; cbn [nonempty];
  repeat match goal with
         | H : exists a, _ = Fin a /\ _ |- _ =>
             let a := fresh "a" in
             let E := fresh "E" in
             destruct H as (a & E & ? & ? & ?); rewrite E; clear E
         end;
  match goal with
  | |- context [Num.gt ?F (Fin 0)] => evaluate F
  end;
  match goal with
  | |- context [Num.gt ?F (Fin 0)] => replace (Num.gt F (Fin 0)) with true by reflexivity
  end;
  repeat match goal with
         | |- context [Binary64.number ?w] =>
             lazymatch w with
             | (_ * _)%Q => fail
             | (_ + _)%Q => fail
             | _ => evaluate (Binary64.number w)
             end
         end;
  cbn [Binary64.add Binary64.mul];
  repeat number_step.

(** The quotient, its rounding, and the weighted mean of the case. *)
Ltac score_quotient :=
  match goal with
  | |- context [Binary64.div (Fin ?t) (Fin ?F)] =>
      rewrite (div_positive t F) by lra;
      let Eq := fresh "Eq" in
      assert (Eq : t / F * F == t) by (field; lra);
      let q := fresh "q" in
      set (q := t / F) in *;
      let r := fresh "r" in
      let Hn := fresh "Hn" in
      destruct (number_small q) as (r & Hn & ? & ? & _); [lra|];
      rewrite Hn; clear Hn; exists r
  end;
  cbn [Math_round_number]; split; [reflexivity|];
  unfold includedFactors, factor; cbn [app];
  repeat match goal with
         | |- context [mean ?l] =>
             let m := fresh "m" in set (m := mean l) in *; clearbody m
         end;
  unfold weightedMean; cbn [map total fold_right fst snd];
  match goal with
  | |- context [?T / ?W] =>
      let EM := fresh "EM" in
      assert (EM : T / W * W == T) by (field; lra);
      let M := fresh "M" in
      set (M := T / W) in *;
      lra
  end.

Lemma score_close commits dependencies alerts :
  scorable commits dependencies alerts ->
  includedFactors commits dependencies alerts <> [] ->
  exists r,
    riskScoreOf commits dependencies alerts = Fin (inject_Z (Math_round r))
    /\ - (1 # 10000)
       <= r - weightedMean (includedFactors commits dependencies alerts)
       <= 1 # 10000
    /\ 0 <= weightedMean (includedFactors commits dependencies alerts) <= 100.
Proof.
  intros Hs Hne. destruct (means_close _ _ _ Hs) as (Hc & Hd & Ha). clear Hs.
  destruct commits as [|c cs], dependencies as [|d ds], alerts as [|a al];
    [contradiction|..];
    try specialize (Hc ltac:(discriminate));
    try specialize (Hd ltac:(discriminate));
    try specialize (Ha ltac:(discriminate)); clear Hne;
    repeat match goal with H : [] <> [] -> _ |- _ => clear H end.
  - score_case. score_quotient.
  - score_case. score_quotient.
  - score_case. score_quotient.
  - score_case. score_quotient.
  - score_case. score_quotient.
  - score_case. score_quotient.
  - score_case. score_quotient.
Qed.

Lemma Math_round_comp (x y : Q) : x == y -> Math_round x = Math_round y.
Proof. intros E. unfold Math_round. apply Qfloor_comp. rewrite E. reflexivity. Qed.

Lemma Math_round_mono (x y : Q) : x <= y -> (Math_round x <= Math_round y)%Z.
Proof. intros H. unfold Math_round. apply Qfloor_resp_le. lra. Qed.

Lemma Math_round_nearest (x : Q) :
  inject_Z (Math_round x) - 0.5 <= x /\ x < inject_Z (Math_round x) + 0.5.
Proof.
  unfold Math_round.
  pose proof (Qfloor_le (x + 0.5)) as Hle.
  pose proof (Qlt_floor (x + 0.5)) as Hlt.
  rewrite inject_Z_plus in Hlt. change (inject_Z 1) with 1 in Hlt.
  split; lra.
Qed.

Lemma riskLevelOf_threshold (z : Z) :
  levelByThreshold z (riskLevelOf (Fin (inject_Z z))).
Proof.
  unfold riskLevelOf, Num.ge.
  assert (H : forall k : Z, Qle_bool (inject_Z k) (inject_Z z) = (k <=? z)%Z).
  { intros k. destruct (Z.leb_spec k z) as [L|G].
    - apply Qle_bool_iff. rewrite <- Zle_Qle. exact L.
    - destruct (Qle_bool (inject_Z k) (inject_Z z)) eqn:E; [|reflexivity].
      apply Qle_bool_iff in E. rewrite <- Zle_Qle in E. lia. }
  change 75 with (inject_Z 75). change 50 with (inject_Z 50). change 25 with (inject_Z 25).
  rewrite !H.
  destruct (Z.leb_spec 75 z); [simpl; lia|].
  destruct (Z.leb_spec 50 z); [simpl; lia|].
  destruct (Z.leb_spec 25 z); simpl; lia.
Qed.

(** [NaN] takes over a sum. *)
Lemma add_NaN_r (a : Num) : Binary64.add a NaN = NaN.
Proof. destruct a; reflexivity. Qed.

Lemma reduce_sum_NaN {A} (f : A -> Num) (xs : list A) :
  Exists (fun x => f x = NaN) xs -> reduce_sum f xs = NaN.
Proof.
  unfold reduce_sum. generalize (Fin 0) as start.
  induction xs as [|x xs IH]; intros start Hex; [inversion Hex|].
  cbn [fold_left]. inversion Hex as [? ? Hx|? ? Hrest]; subst.
  - rewrite Hx, add_NaN_r. clear. induction xs as [|y ys IH]; [reflexivity|].
    cbn [fold_left]. exact IH.
  - apply IH, Hrest.
Qed.

(** A dependency whose tier is not in the table makes the score [NaN]. *)
Lemma score_NaN commits dependencies alerts :
  Exists (fun d => ~ inTable (Dependency.riskLevel d)) dependencies ->
  riskScoreOf commits dependencies alerts = NaN.
Proof.
  intros Hex.
  assert (Hsum : reduce_sum (fun d => riskLevelScores (Dependency.riskLevel d)) dependencies
                 = NaN).
  { apply reduce_sum_NaN. eapply Exists_impl; [exact Hex|].
    intros d Hd. cbn beta in Hd. destruct (Dependency.riskLevel d);
      first [reflexivity | exfalso; apply Hd; exact I]. }
  unfold riskScoreOf, scoreFactors. rewrite Hsum.
  destruct dependencies as [|d ds]; [inversion Hex|].
  destruct commits as [|c cs], alerts as [|a al]; cbn [nonempty Binary64.div Binary64.mul];
    rewrite ?add_NaN_r; cbn [Binary64.add Binary64.div];
    match goal with
    | |- context [Num.gt ?F (Fin 0)] => replace (Num.gt F (Fin 0)) with true by reflexivity
    end; reflexivity.
Qed.

(** C1, as the code has it.  The score is [Math.round] of the weighted
    mean of the included factors as binary64 arithmetic computes it: the
    mean commit riskScore with weight 0.40, the mean of
    {safe:0, low:25, medium:50, high:75, critical:100} over the dependency
    tiers with weight 0.35, the mean of {low:25, medium:50, high:75,
    critical:100} over the alert severities with weight 0.25, a factor being
    included only when its list is not empty and the weights renormalised
    over the included ones.  For risk scores between 0 and 100 and tiers of
    the table, it is an integer nearest to the exact weighted mean up to
    1/10000, and the level follows the thresholds 25, 50 and 75; a tier that
    is not in the table makes the score [NaN] and the level low; without a
    factor the pair is (0, low).  One commit with riskScore 80 and one
    critical alert, without dependencies, give (88, critical); the commits
    21 and 22, whose mean is the tie 21.5, give 21. *)
Theorem score_is_rounded_weighted_mean commits dependencies alerts :
  let factors := includedFactors commits dependencies alerts in
  let riskScore := fst (score commits dependencies alerts) in
  let riskLevel := snd (score commits dependencies alerts) in
  match factors with
  | [] => riskScore = Fin 0 /\ riskLevel = low
  | _ =>
      (scorable commits dependencies alerts ->
       exists z,
         riskScore = Fin (inject_Z z)
         /\ nearestInteger (1 # 10000) (weightedMean factors) z
         /\ levelByThreshold z riskLevel)
      /\ (Exists (fun d => ~ inTable (Dependency.riskLevel d)) dependencies ->
          riskScore = NaN /\ riskLevel = low)
  end
  /\ score [commit_with_riskScore 80] [] [alert_with_severity sev_critical]
     = (Fin 88, critical)
  /\ score [commit_with_riskScore 21; commit_with_riskScore 22] [] [] = (Fin 21, low)
  /\ score [] [] [] = (Fin 0, low).
Proof.
  cbn zeta. unfold score. cbn [fst snd].
  split; [|split; [vm_compute; reflexivity | split; vm_compute; reflexivity]].
  destruct (includedFactors commits dependencies alerts) as [|fw rest] eqn:Hf.
  - destruct commits, dependencies, alerts; try discriminate. split; reflexivity.
  - rewrite <- Hf. split.
    + intros Hs.
      destruct (score_close commits dependencies alerts Hs) as (r & Hr & Hclose & _).
      { rewrite Hf. discriminate. }
      exists (Math_round r). rewrite Hr.
      split; [reflexivity|]. split; [|apply riskLevelOf_threshold].
      pose proof (Math_round_nearest r). unfold nearestInteger. split; lra.
    + intros Hex. rewrite (score_NaN commits dependencies alerts Hex).
      split; reflexivity.
Qed.

(** C1 on the inputs of the specification's example: they are scorable, and
    the score is an integer nearest to the weighted mean 57/0.65. *)
Lemma score_is_rounded_weighted_mean_witness :
  let commits := [commit_with_riskScore 80] in
  let alerts := [alert_with_severity sev_critical] in
  scorable commits [] alerts
  /\ exists z,
       fst (score commits [] alerts) = Fin (inject_Z z)
       /\ nearestInteger (1 # 10000) (weightedMean (includedFactors commits [] alerts)) z
       /\ levelByThreshold z (snd (score commits [] alerts)).
Proof.
  cbv zeta.
  assert (H : scorable [commit_with_riskScore 80] [] [alert_with_severity sev_critical]).
  { unfold scorable. split; [repeat constructor; cbn; lra|].
    split; [constructor|]. cbn. repeat split; lia. }
  split; [exact H|].
  exact (proj1 (proj1 (score_is_rounded_weighted_mean [commit_with_riskScore 80] []
                         [alert_with_severity sev_critical])) H).
Defined.

(** C1's example, evaluated: the pair is (88, critical), not (82, critical). *)
Lemma score_example_is_not_82 :
  score [commit_with_riskScore 80] [] [alert_with_severity sev_critical] = (Fin 88, critical)
  /\ score [commit_with_riskScore 80] [] [alert_with_severity sev_critical]
     <> (Fin 82, critical).
Proof. split; [vm_compute; reflexivity | vm_compute; discriminate]. Qed.

(** The model and the machine floats on examples: the commit at 80 with a
    critical alert gives 88; the commits 21 and 22 give 21; the commit 57
    with a low and a medium alert gives 49, a medium risk; a critical
    dependency alone gives 100; empty inputs give 0; the progress after the
    batch that starts at commit 145 of 250 is 29. *)
Example score_examples_binary64 :
  (Machine.riskScoreOf [80%float] [] [100%float] = Some 88%Z
   /\ Machine.riskScoreOf [21%float; 22%float] [] [] = Some 21%Z
   /\ Machine.riskScoreOf [57%float] [] [25%float; 50%float] = Some 49%Z
   /\ Machine.riskScoreOf [] [100%float] [] = Some 100%Z
   /\ Machine.riskScoreOf [] [] [] = Some 0%Z
   /\ Machine.batchProgress 250 145 = Some 29%Z)
  /\ (score [commit_with_riskScore 57] []
        [alert_with_severity sev_low; alert_with_severity sev_medium] = (Fin 49, medium)
      /\ score [] [dependency_with_tier tier_critical] [] = (Fin 100, critical)
      /\ score [] [dependency_with_tier (tier_other "severe")] [] = (NaN, low)
      /\ batchProgress 250 145 = 29%Z).
Proof. vm_compute. repeat split. Qed.

Local Close Scope Q_scope.

(** ** Confidence sanitization *)

Lemma Qle_bool_false (x y : Q) : Qle_bool x y = false -> (y < x)%Q.
Proof.
  intros E. apply Qnot_le_lt. intros H. apply Qle_bool_iff in H. congruence.
Qed.

(** The value of a number is finite, and not negative when the number is
    not, or the infinity of its sign. *)
Lemma number_cases (x : Q) :
  (exists r, Binary64.number x = Fin r /\ ((0 <= x)%Q -> (0 <= r)%Q))
  \/ (Binary64.number x = PInf /\ (0 <= x)%Q)
  \/ (Binary64.number x = NInf /\ (x < 0)%Q).
Proof.
  unfold Binary64.number.
  destruct (Qle_bool (Qabs (Binary64.round x)) Binary64.maxValue).
  - left. eexists. split; [reflexivity|]. intros H. rewrite Qred_correct.
    apply round_nonneg, H.
  - destruct (Qle_bool 0 x) eqn:E.
    + right. left. split; [reflexivity | apply Qle_bool_iff, E].
    + right. right. split; [reflexivity | apply Qle_bool_false, E].
Qed.

Lemma div100_cases (x : Q) :
  (exists r, Num.div100 (Fin x) = Fin r /\ ((0 <= x)%Q -> (0 <= r)%Q))
  \/ (Num.div100 (Fin x) = PInf /\ (0 <= x)%Q)
  \/ (Num.div100 (Fin x) = NInf /\ (x < 0)%Q).
Proof.
  unfold Num.div100. rewrite div_positive by reflexivity.
  destruct (number_cases (x / 100)) as [(r & E & Hr) | [[E Hx] | [E Hx]]].
  - left. exists r. split; [exact E|]. intros H. apply Hr.
    apply Qle_shift_div_l; [reflexivity | lra].
  - right. left. split; [exact E|].
    assert (H : (x == x / 100 * 100)%Q) by field. rewrite H.
    apply Qmult_le_0_compat; [exact Hx | discriminate].
  - right. right. split; [exact E|].
    apply Qnot_le_lt. intros H. apply (Qlt_not_le _ _ Hx).
    apply Qle_shift_div_l; [reflexivity | lra].
Qed.

(** Facts about the comparisons met while a branch is evaluated. *)
Ltac compare_all :=
  repeat match goal with
         | |- context [Qle_bool ?a ?b] =>
             let E := fresh "E" in
             destruct (Qle_bool a b) eqn:E;
             [apply Qle_bool_iff in E | apply Qle_bool_false in E]
         | |- context [Qeq_bool ?a ?b] => destruct (Qeq_bool a b)
         end.

Lemma sanitizeNumber_in_unit (value : Num) :
  value <> NaN -> Num.in_unit (sanitizeNumber value).
Proof.
  intros Hnan. destruct value as [|x| |]; [congruence| | |].
  - unfold sanitizeNumber, Num.gt.
    destruct (Qle_bool x 1) eqn:E1; cbn [negb].
    + apply Qle_bool_iff in E1. unfold Num.min, Num.max.
      compare_all; cbn [Num.in_unit]; split; lra.
    + apply Qle_bool_false in E1.
      destruct (div100_cases x) as [(r & -> & Hr) | [[-> _] | [-> Hx]]].
      * specialize (Hr ltac:(lra)). unfold Num.min.
        compare_all; cbn [Num.in_unit]; split; lra.
      * cbn. split; lra.
      * exfalso. lra.
  - cbn. split; lra.
  - cbn. split; lra.
Qed.

Lemma sanitizePercentage_in_unit (parsed : Num) :
  Num.in_unit (Num.or0 (Num.min (Num.max (Num.div100 parsed) (Fin 0)) (Fin 1))).
Proof.
  destruct parsed as [|x| |].
  - cbn. split; lra.
  - destruct (div100_cases x) as [(r & -> & _) | [[-> _] | [-> _]]].
    + unfold Num.max, Num.min.
      compare_all; unfold Num.or0; compare_all; cbn [Num.in_unit]; split; lra.
    + cbn. split; lra.
    + cbn. split; lra.
  - cbn. split; lra.
  - cbn. split; lra.
Qed.

(** ** Sandbox release *)

Lemma errorsLogged_log_info (s : DockerService.t) (line : string) :
  DockerService.errorsLogged (DockerService.log info line s) = DockerService.errorsLogged s.
Proof.
  unfold DockerService.errorsLogged, DockerService.log. cbn.
  rewrite List.filter_app, List.map_app. cbn. apply app_nil_r.
Qed.

Lemma errorsLogged_log_warn (s : DockerService.t) (line : string) :
  DockerService.errorsLogged (DockerService.log warn line s) = DockerService.errorsLogged s.
Proof.
  unfold DockerService.errorsLogged, DockerService.log. cbn.
  rewrite List.filter_app, List.map_app. cbn. apply app_nil_r.
Qed.

(** [stopContainer] never throws. *)
Lemma stopContainer_returns daemon jobId s :
  fst (DockerService.stopContainer daemon jobId s) = Return tt.
Proof.
  unfold DockerService.stopContainer.
  destruct (DockerService.activeContainers s !! jobId); [|reflexivity].
  cbn. destruct (daemon _ _) as [|code]; [reflexivity|].
  destruct (code =? 304)%Z; reflexivity.
Qed.

(** Without an entry for the job, [stopContainer] only writes a warning. *)
Lemma stopContainer_absent daemon jobId s :
  DockerService.activeContainers s !! jobId = None ->
  DockerService.stopContainer daemon jobId s
  = (Return tt, DockerService.log warn "Container not found for cleanup" s).
Proof. intros H. unfold DockerService.stopContainer. rewrite H. reflexivity. Qed.

(** A successful release removes the entry and logs no error. *)
Lemma stopContainer_released daemon jobId s :
  released daemon jobId s ->
  let s' := snd (DockerService.stopContainer daemon jobId s) in
  DockerService.activeContainers s' !! jobId = None
  /\ DockerService.errorsLogged s' = DockerService.errorsLogged s.
Proof.
  unfold released, DockerService.stopContainer.
  destruct (DockerService.activeContainers s !! jobId) as [containerInfo|] eqn:Hget.
  - cbn. intros [E | E]; rewrite E; cbn.
    all: split; [apply lookup_delete_eq|].
    all: unfold DockerService.errorsLogged; cbn.
    all: rewrite !List.filter_app, !List.map_app; cbn.
    all: rewrite !app_nil_r; reflexivity.
  - intros _. cbn. split; [exact Hget | apply errorsLogged_log_warn].
Qed.

(** C7.  After a successful release of a job's container - the daemon
    stopped it, or reported it already stopped (304), which counts as
    success - the first call has returned without an error and the job has
    no entry left; a second [stopContainer] for the same job returns without
    an error, sends no stop request and leaves the registry as it is. *)
Theorem stopContainer_idempotent daemon jobId s :
  released daemon jobId s ->
  let first := DockerService.stopContainer daemon jobId s in
  let second := DockerService.stopContainer daemon jobId (snd first) in
  fst first = Return tt
  /\ DockerService.errorsLogged (snd first) = DockerService.errorsLogged s
  /\ DockerService.activeContainers (snd first) !! jobId = None
  /\ fst second = Return tt
  /\ DockerService.activeContainers (snd second) = DockerService.activeContainers (snd first)
  /\ DockerService.stopRequests (snd second) = DockerService.stopRequests (snd first)
  /\ DockerService.errorsLogged (snd second) = DockerService.errorsLogged (snd first).
Proof.
  intros Hrel. cbn zeta.
  destruct (stopContainer_released daemon jobId s Hrel) as [Hgone Herr].
  split; [apply stopContainer_returns|].
  split; [exact Herr|]. split; [exact Hgone|].
  rewrite (stopContainer_absent daemon jobId _ Hgone). cbn [fst snd].
  repeat split; try reflexivity. apply errorsLogged_log_warn.
Qed.

(** C7 on a registry with one container that the daemon reports as already
    stopped. *)
Lemma stopContainer_idempotent_witness :
  released already_stopped "job-1" one_container
  /\ let first := DockerService.stopContainer already_stopped "job-1" one_container in
     let second := DockerService.stopContainer already_stopped "job-1" (snd first) in
     fst first = Return tt
     /\ DockerService.errorsLogged (snd first) = DockerService.errorsLogged one_container
     /\ DockerService.activeContainers (snd first) !! "job-1" = None
     /\ fst second = Return tt
     /\ DockerService.activeContainers (snd second)
        = DockerService.activeContainers (snd first)
     /\ DockerService.stopRequests (snd second) = DockerService.stopRequests (snd first)
     /\ DockerService.errorsLogged (snd second) = DockerService.errorsLogged (snd first).
Proof.
  assert (H : released already_stopped "job-1" one_container).
  { unfold released, one_container. cbn [DockerService.activeContainers].
    rewrite lookup_singleton_eq. right. reflexivity. }
  split; [exact H | exact (stopContainer_idempotent already_stopped "job-1" one_container H)].
Defined.

(** ** Relations every step of a method preserves *)

Section Preserved.

Variable env : Env.t.
Variable R : World.t -> World.t -> Prop.
Hypothesis R_refl : forall w, R w w.
Hypothesis R_trans : forall a b c, R a b -> R b c -> R a c.

Lemma preserved_ret {A} (a : A) : preserved R (ret a).
Proof. intros w. apply R_refl. Qed.

Lemma preserved_throw {A} (message : string) : preserved R (@throw A message).
Proof. intros w. apply R_refl. Qed.

Lemma preserved_bind {A B} (m : Async A) (k : A -> Async B) :
  preserved R m -> (forall a, preserved R (k a)) -> preserved R (bind m k).
Proof.
  intros Hm Hk w. unfold bind. specialize (Hm w).
  destruct (m w) as [[a|message] w']; cbn in *; [|exact Hm].
  eapply R_trans; [exact Hm | apply Hk].
Qed.

Lemma preserved_try_catch {A} (m : Async A) (handler : string -> Async A) :
  preserved R m -> (forall message, preserved R (handler message)) ->
  preserved R (try_catch m handler).
Proof.
  intros Hm Hh w. unfold try_catch. specialize (Hm w).
  destruct (m w) as [[a|message] w']; cbn in *; [exact Hm|].
  eapply R_trans; [exact Hm | apply Hh].
Qed.

Lemma preserved_forEach {A} (xs : list A) (body : A -> Async unit) :
  (forall x, preserved R (body x)) -> preserved R (forEach xs body).
Proof.
  intros Hbody. induction xs as [|x xs IH]; cbn [forEach].
  - apply preserved_ret.
  - apply preserved_bind; [apply Hbody | intros _; exact IH].
Qed.

Lemma preserved_get_job : preserved R get_job.
Proof. intros w. apply R_refl. Qed.

Lemma preserved_findOne jobId : preserved R (AnalysisEngine.findOne jobId).
Proof. intros w. apply R_refl. Qed.

Lemma preserved_activeJobs_has jobId : preserved R (AnalysisEngine.activeJobs_has jobId).
Proof. intros w. apply R_refl. Qed.

Lemma preserved_outcome {A} (o : Outcome A) :
  preserved R match o with Return a => ret a | Throw message => throw message end.
Proof. destruct o; [apply preserved_ret | apply preserved_throw]. Qed.

(** *** Methods that assign neither status nor progress *)

Hypothesis R_modify : forall f, keeps f -> preserved R (modify_job f).
Hypothesis R_save : preserved R (AnalysisEngine.save env).
Hypothesis R_found_addLog :
  forall jobId entry, preserved R (AnalysisEngine.found_addLog env jobId entry).
Hypothesis R_found_addAlert :
  forall jobId alert, preserved R (AnalysisEngine.found_addAlert env jobId alert).
Hypothesis R_emit_log : forall entry, preserved R (emit (log_event entry)).
Hypothesis R_emit_alert : forall alert, preserved R (emit (alert_event alert)).

Ltac keeps_field := intros j; repeat split; reflexivity.

Ltac preserve_step :=
  first
    [ assumption
    | apply R_save
    | apply R_found_addLog
    | apply R_found_addAlert
    | apply R_emit_log
    | apply R_emit_alert
    | apply R_modify; keeps_field
    | apply preserved_ret
    | apply preserved_throw
    | apply preserved_get_job
    | apply preserved_findOne
    | apply preserved_activeJobs_has
    | apply preserved_outcome
    | apply preserved_forEach; intros ?
    | apply preserved_try_catch; [|intros ?]
    | apply preserved_bind; [|intros ?]
    | match goal with
      | |- preserved _ (if ?b then _ else _) => destruct b
      | |- preserved _ (match ?x with _ => _ end) => destruct x
      end ].

Ltac preserve := cbv zeta; repeat preserve_step.

Lemma preserved_addLog level message source :
  preserved R (AnalysisEngine.addLog env level message source).
Proof. unfold AnalysisEngine.addLog. preserve. Qed.

Lemma preserved_addAlert alertData : preserved R (AnalysisEngine.addAlert env alertData).
Proof. unfold AnalysisEngine.addAlert. preserve. Qed.

Lemma preserved_emitLog jobId level message source :
  preserved R (AnalysisEngine.emitLog env jobId level message source).
Proof.
  unfold AnalysisEngine.emitLog.
  pose proof preserved_addLog. preserve.
Qed.

Lemma preserved_emitAlert jobId alert :
  preserved R (AnalysisEngine.emitAlert env jobId alert).
Proof.
  unfold AnalysisEngine.emitAlert.
  pose proof preserved_addAlert. preserve.
Qed.

Ltac preserve_calls :=
  cbv zeta;
  repeat first
    [ apply preserved_emitLog
    | apply preserved_emitAlert
    | apply preserved_addLog
    | apply preserved_addAlert
    | preserve_step ].

Lemma preserved_cloneRepository : preserved R (AnalysisEngine.cloneRepository env).
Proof. unfold AnalysisEngine.cloneRepository. preserve_calls. Qed.

Lemma preserved_processCommit jobId commit :
  preserved R (AnalysisEngine.processCommit env jobId commit).
Proof. unfold AnalysisEngine.processCommit. preserve_calls. Qed.

Lemma preserved_processDependency jobId dependency :
  preserved R (AnalysisEngine.processDependency env jobId dependency).
Proof. unfold AnalysisEngine.processDependency. preserve_calls. Qed.

Lemma preserved_analyzeDependencies repoInfo :
  preserved R (AnalysisEngine.analyzeDependencies env repoInfo).
Proof.
  unfold AnalysisEngine.analyzeDependencies.
  pose proof preserved_processDependency. preserve_calls.
Qed.

Lemma preserved_runAIAnalysis : preserved R (AnalysisEngine.runAIAnalysis env).
Proof. unfold AnalysisEngine.runAIAnalysis. preserve_calls. Qed.

Lemma preserved_calculateRiskScore : preserved R (AnalysisEngine.calculateRiskScore env).
Proof. unfold AnalysisEngine.calculateRiskScore. preserve_calls. Qed.

Lemma preserved_generateFinalAssessment :
  preserved R (AnalysisEngine.generateFinalAssessment env).
Proof. unfold AnalysisEngine.generateFinalAssessment. preserve_calls. Qed.

(** *** The whole run *)

Variable allowed : Status -> Prop.
Hypothesis R_assign_status : forall status, allowed status -> preserved R (assign_status status).
Hypothesis R_assign_progress : forall progress, preserved R (assign_progress progress).
Hypothesis R_emit_progress :
  forall percentage stage, preserved R (emit (progress_event percentage stage)).
Hypothesis R_emit_done : forall payload, preserved R (emit (done_event payload)).
Hypothesis R_cleanup : forall jobId, preserved R (githubService_cleanup jobId).
Hypothesis R_delete : forall jobId, preserved R (activeJobs_delete jobId).

Ltac preserve_run :=
  cbv zeta;
  repeat first
    [ apply R_assign_status; assumption
    | apply R_assign_progress
    | apply R_emit_progress
    | apply R_emit_done
    | apply R_cleanup
    | apply R_delete
    | apply preserved_emitLog
    | apply preserved_cloneRepository
    | apply preserved_processCommit
    | apply preserved_analyzeDependencies
    | apply preserved_runAIAnalysis
    | apply preserved_calculateRiskScore
    | apply preserved_generateFinalAssessment
    | apply preserved_addLog
    | preserve_step ].

Lemma preserved_updateJobStatus status progress :
  allowed status -> preserved R (AnalysisEngine.updateJobStatus env status progress).
Proof. intros Hs. unfold AnalysisEngine.updateJobStatus. preserve_run. Qed.

Lemma preserved_analyzeCommits repoInfo :
  allowed analyzing -> preserved R (AnalysisEngine.analyzeCommits env repoInfo).
Proof.
  intros Hs. unfold AnalysisEngine.analyzeCommits.
  pose proof (fun p => preserved_updateJobStatus analyzing p Hs). preserve_run.
Qed.

Lemma preserved_runAnalysis_try jobId :
  allowed cloning -> allowed analyzing -> allowed completed ->
  preserved R (AnalysisEngine.runAnalysis_try env jobId).
Proof.
  intros Hc Ha Hd. unfold AnalysisEngine.runAnalysis_try.
  pose proof (fun p => preserved_updateJobStatus cloning p Hc).
  pose proof (fun p => preserved_updateJobStatus analyzing p Ha).
  pose proof (fun r => preserved_analyzeCommits r Ha).
  preserve_run.
Qed.

Lemma preserved_handleAnalysisError message :
  allowed failed -> preserved R (AnalysisEngine.handleAnalysisError env message).
Proof. intros Hf. unfold AnalysisEngine.handleAnalysisError. preserve_run. Qed.

End Preserved.

(** ** Histories *)

Lemma chain_snoc {A} (R : A -> A -> Prop) (l : list A) (b : A) :
  chain R l -> (forall a, last l = Some a -> R a b) -> chain R (l ++ [b]).
Proof.
  induction l as [|x [|y l] IH]; intros Hc Hlast.
  - exact I.
  - cbn. split; [apply Hlast; reflexivity | exact I].
  - destruct Hc as [Hxy Hc]. split; [exact Hxy|].
    apply IH; [exact Hc|]. intros a Ha. apply Hlast. exact Ha.
Qed.

Lemma chain_mono {A} (R R' : A -> A -> Prop) (l : list A) :
  (forall a b, R a b -> R' a b) -> chain R l -> chain R' l.
Proof.
  intros HR. induction l as [|x [|y l] IH]; intros Hc; try exact I.
  destruct Hc as [Hxy Hc]. split; [apply HR, Hxy | apply IH, Hc].
Qed.

Lemma chain_adjacent {A} (R : A -> A -> Prop) (l : list A) (a b : A) :
  chain R l -> adjacent a b l -> R a b.
Proof.
  intros Hc (before & after & ->). induction before as [|x before IH].
  - exact (proj1 Hc).
  - apply IH. destruct before as [|y before]; exact (proj2 Hc).
Qed.

Lemma head_snoc {A} (l : list A) (a b : A) : head l = Some a -> head (l ++ [b]) = Some a.
Proof. destruct l; [discriminate | exact id]. Qed.

(** ** Methods that leave the view alone *)

Lemma dones_app (xs ys : list Event) : dones (xs ++ ys) = (dones xs ++ dones ys)%list.
Proof.
  induction xs as [|[entry|alert|percentage stage|payload] xs IH]; cbn; congruence.
Qed.

Lemma same_view_refl w : same_view w w.
Proof. reflexivity. Qed.

Lemma same_view_trans a b c : same_view a b -> same_view b c -> same_view a c.
Proof. unfold same_view. congruence. Qed.

Lemma same_view_modify f : keeps f -> preserved same_view (modify_job f).
Proof.
  intros Hf w. unfold same_view, view. cbn.
  destruct (Hf (World.job w)) as (-> & -> & _). reflexivity.
Qed.

Lemma same_view_save_document env doc :
  preserved same_view (AnalysisEngine.save_document env doc).
Proof.
  intros w. unfold AnalysisEngine.save_document.
  destruct (Env.save_result env (World.saves w)); reflexivity.
Qed.

Lemma same_view_save env : preserved same_view (AnalysisEngine.save env).
Proof. intros w. apply (same_view_save_document env (World.job w) w). Qed.

Lemma same_view_found_addLog env jobId entry :
  preserved same_view (AnalysisEngine.found_addLog env jobId entry).
Proof.
  intros w. unfold AnalysisEngine.found_addLog, bind, AnalysisEngine.findOne. cbn.
  destruct (World.stored w) as [doc|]; [|reflexivity].
  destruct (String.eqb (Job.jobId doc) jobId); [|reflexivity].
  apply same_view_save_document.
Qed.

Lemma same_view_found_addAlert env jobId alert :
  preserved same_view (AnalysisEngine.found_addAlert env jobId alert).
Proof.
  intros w. unfold AnalysisEngine.found_addAlert, bind, AnalysisEngine.findOne. cbn.
  destruct (World.stored w) as [doc|]; [|reflexivity].
  destruct (String.eqb (Job.jobId doc) jobId); [|reflexivity].
  apply same_view_save_document.
Qed.

Lemma same_view_emit event :
  (forall payload, event <> done_event payload) -> preserved same_view (emit event).
Proof.
  intros Hev w. unfold same_view, view. cbn. rewrite dones_app.
  destruct event; cbn; rewrite ?app_nil_r; try reflexivity.
  exfalso. eapply Hev. reflexivity.
Qed.

Lemma same_view_emit_log entry : preserved same_view (emit (log_event entry)).
Proof. apply same_view_emit. discriminate. Qed.

Lemma same_view_emit_alert alert : preserved same_view (emit (alert_event alert)).
Proof. apply same_view_emit. discriminate. Qed.

Lemma same_view_emit_progress percentage stage :
  preserved same_view (emit (progress_event percentage stage)).
Proof. apply same_view_emit. discriminate. Qed.

(** ** What the store holds *)

Lemma Stored_save_document env doc s w :
  Stored s w -> moves edge s (Job.status doc) ->
  let r := AnalysisEngine.save_document env doc w in
  World.job (snd r) = World.job w
  /\ match fst r with
     | Return _ => Stored (Job.status doc) (snd r)
     | Throw _ => Stored s (snd r)
     end.
Proof.
  intros ((Hc & Hl) & Hs) Hmove. cbv zeta. unfold AnalysisEngine.save_document.
  destruct (Env.save_result env (World.saves w)); cbn.
  - repeat split; assumption.
  - unfold Stored, StoredOrder, storedStatus. cbn. repeat split.
    + apply chain_snoc; [exact Hc|]. intros a Ha. rewrite Hl, Hs in Ha.
      injection Ha as <-. exact Hmove.
    + apply last_snoc.
Qed.

Lemma Stored_status s w doc :
  Stored s w -> World.stored w = Some doc -> Job.status doc = s.
Proof.
  intros (_ & Hs) Hdoc. unfold storedStatus in Hs. rewrite Hdoc in Hs. cbn in Hs.
  congruence.
Qed.

Lemma same_view_status w w' : same_view w w' -> Job.status (World.job w') = Job.status (World.job w).
Proof. intros H. exact (f_equal View.status H). Qed.

Lemma quietly_refl w : quietly w w.
Proof. split; [reflexivity | auto]. Qed.

Lemma quietly_trans a b c : quietly a b -> quietly b c -> quietly a c.
Proof.
  intros [Hv Hs] [Hv' Hs']. split; [eapply same_view_trans; eassumption|].
  intros s Hst Hmove. destruct (Hs s Hst Hmove) as [Hb | Hb].
  - apply Hs'; [exact Hb|]. rewrite (same_view_status _ _ Hv). exact Hmove.
  - right. destruct (Hs' _ Hb (or_introl eq_refl)) as [Hc | Hc]; [|exact Hc].
    unfold in_sync. rewrite (same_view_status _ _ Hv'). exact Hc.
Qed.

Lemma quietly_in_sync w w' : quietly w w' -> in_sync w -> in_sync w'.
Proof.
  intros [Hv Hs] H. destruct (Hs _ H (or_introl eq_refl)) as [Hc | Hc]; [|exact Hc].
  unfold in_sync. rewrite (same_view_status _ _ Hv). exact Hc.
Qed.

Lemma quietly_modify f : keeps f -> preserved quietly (modify_job f).
Proof.
  intros Hf w. split; [apply same_view_modify, Hf|].
  intros s Hs _. left. exact Hs.
Qed.

Lemma quietly_save env : preserved quietly (AnalysisEngine.save env).
Proof.
  intros w. split; [apply same_view_save|].
  intros s Hs Hmove.
  destruct (Stored_save_document env (World.job w) s w Hs Hmove) as [Hj H].
  change (AnalysisEngine.save env w) with (AnalysisEngine.save_document env (World.job w) w).
  destruct (fst (AnalysisEngine.save_document env (World.job w) w)); [right | left; exact H].
  unfold in_sync. rewrite Hj. exact H.
Qed.

Lemma quietly_found_addLog env jobId entry :
  preserved quietly (AnalysisEngine.found_addLog env jobId entry).
Proof.
  intros w. unfold AnalysisEngine.found_addLog, bind, AnalysisEngine.findOne. cbn.
  destruct (World.stored w) as [doc|] eqn:Hdoc; [|apply quietly_refl].
  destruct (String.eqb (Job.jobId doc) jobId); [|apply quietly_refl].
  split; [apply same_view_save_document|].
  intros s Hs _. left.
  pose proof (Stored_status s w doc Hs Hdoc) as Hst.
  destruct (Stored_save_document env (Job.set_logs (Job.logs doc ++ [entry]) doc) s w Hs)
    as [_ H]; [left; symmetry; exact Hst|].
  destruct (fst (AnalysisEngine.save_document env _ w)); [rewrite <- Hst|]; exact H.
Qed.

Lemma quietly_found_addAlert env jobId alert :
  preserved quietly (AnalysisEngine.found_addAlert env jobId alert).
Proof.
  intros w. unfold AnalysisEngine.found_addAlert, bind, AnalysisEngine.findOne. cbn.
  destruct (World.stored w) as [doc|] eqn:Hdoc; [|apply quietly_refl].
  destruct (String.eqb (Job.jobId doc) jobId); [|apply quietly_refl].
  split; [apply same_view_save_document|].
  intros s Hs _. left.
  pose proof (Stored_status s w doc Hs Hdoc) as Hst.
  destruct (Stored_save_document env (Job.set_alerts (Job.alerts doc ++ [alert]) doc) s w Hs)
    as [_ H]; [left; symmetry; exact Hst|].
  destruct (fst (AnalysisEngine.save_document env _ w)); [rewrite <- Hst|]; exact H.
Qed.

Lemma quietly_emit_log entry : preserved quietly (emit (log_event entry)).
Proof. intros w. split; [apply same_view_emit_log | intros s Hs _; left; exact Hs]. Qed.

Lemma quietly_emit_alert alert : preserved quietly (emit (alert_event alert)).
Proof. intros w. split; [apply same_view_emit_alert | intros s Hs _; left; exact Hs]. Qed.

Lemma quietly_emit_progress percentage stage :
  preserved quietly (emit (progress_event percentage stage)).
Proof. intros w. split; [apply same_view_emit_progress | intros s Hs _; left; exact Hs]. Qed.

Create HintDb quiet.
#[local] Hint Resolve quietly_refl quietly_trans quietly_modify quietly_save
  quietly_found_addLog quietly_found_addAlert quietly_emit_log
  quietly_emit_alert quietly_emit_progress : quiet.

Lemma quiet_addLog env level message source :
  preserved quietly (AnalysisEngine.addLog env level message source).
Proof. apply preserved_addLog; eauto with quiet. Qed.

Lemma quiet_emitLog env jobId level message source :
  preserved quietly (AnalysisEngine.emitLog env jobId level message source).
Proof. apply preserved_emitLog; eauto with quiet. Qed.

Lemma quiet_cloneRepository env : preserved quietly (AnalysisEngine.cloneRepository env).
Proof. apply preserved_cloneRepository; eauto with quiet. Qed.

Lemma quiet_processCommit env jobId commit :
  preserved quietly (AnalysisEngine.processCommit env jobId commit).
Proof. apply preserved_processCommit; eauto with quiet. Qed.

Lemma quiet_analyzeDependencies env repoInfo :
  preserved quietly (AnalysisEngine.analyzeDependencies env repoInfo).
Proof. apply preserved_analyzeDependencies; eauto with quiet. Qed.

Lemma quiet_runAIAnalysis env : preserved quietly (AnalysisEngine.runAIAnalysis env).
Proof. apply preserved_runAIAnalysis; eauto with quiet. Qed.

Lemma quiet_calculateRiskScore env :
  preserved quietly (AnalysisEngine.calculateRiskScore env).
Proof. apply preserved_calculateRiskScore; eauto with quiet. Qed.

Lemma quiet_generateFinalAssessment env :
  preserved quietly (AnalysisEngine.generateFinalAssessment env).
Proof. apply preserved_generateFinalAssessment; eauto with quiet. Qed.

#[local] Hint Resolve quiet_addLog quiet_emitLog quiet_cloneRepository quiet_processCommit
  quiet_analyzeDependencies quiet_runAIAnalysis quiet_calculateRiskScore
  quiet_generateFinalAssessment : quiet.

(** ** Rules for triples *)

Lemma triple_bind {A B} P (m : Async A) Q E (k : A -> Async B) Q' :
  triple P m Q E -> (forall a, triple (Q a) (k a) Q' E) -> triple P (bind m k) Q' E.
Proof.
  intros Hm Hk w HP. unfold bind. specialize (Hm w HP).
  destruct (m w) as [[a|message] w']; [apply Hk, Hm | exact Hm].
Qed.

Lemma triple_try_catch {A} P (m : Async A) Q E handler E' :
  triple P m Q E' -> (forall message, triple (E' message) (handler message) Q E) ->
  triple P (try_catch m handler) Q E.
Proof.
  intros Hm Hh w HP. unfold try_catch. specialize (Hm w HP).
  destruct (m w) as [[a|message] w']; [exact Hm | apply Hh, Hm].
Qed.

Lemma triple_conseq {A} (P P' : World.t -> Prop) (m : Async A)
    (Q Q' : A -> World.t -> Prop) (E E' : string -> World.t -> Prop) :
  triple P m Q E ->
  (forall w, P' w -> P w) -> (forall a w, Q a w -> Q' a w) ->
  (forall message w, E message w -> E' message w) ->
  triple P' m Q' E'.
Proof.
  intros Hm HP HQ HE w HP'. specialize (Hm w (HP w HP')).
  destruct (m w) as [[a|message] w']; auto.
Qed.

Lemma triple_ret {A} (P : World.t -> Prop) (a : A) E :
  triple P (ret a) (fun _ w => P w) E.
Proof. intros w HP. exact HP. Qed.

(** A method that leaves the view alone and the store in step keeps what
    holds of the view, with the store in step. *)
Lemma triple_quiet {A} (I : View.t -> Prop) (m : Async A) :
  preserved quietly m ->
  triple (fun w => I (view w) /\ in_sync w) m
    (fun _ w => I (view w) /\ in_sync w) (fun _ w => I (view w) /\ in_sync w).
Proof.
  intros Hm w [HI Hs]. pose proof (Hm w) as Hq.
  destruct (m w) as [[a|message] w']; cbn in Hq;
    (split; [rewrite (proj1 Hq); exact HI | exact (quietly_in_sync _ _ Hq Hs)]).
Qed.

Lemma nonterminal (s : Status) : In s [pending; cloning; analyzing] -> ~ terminal s.
Proof. intros Hs [H|H]; subst s; cbn in Hs; intuition discriminate. Qed.

(** The same with the store one move behind. *)
Lemma triple_quiet_behind {A} statuses bound (m : Async A) :
  preserved quietly m ->
  (forall s, In s statuses -> In s [pending; cloning; analyzing]) ->
  triple (fun w => Behind statuses bound w) m
    (fun _ w => Behind statuses bound w) (fun _ w => Behind statuses bound w).
Proof.
  intros Hm Hlive w [HS (s & Hnt & Hmove & Hs)]. pose proof (Hm w) as [Hv Hq].
  assert (H : Behind statuses bound (snd (m w))).
  { split; [rewrite Hv; exact HS|].
    destruct (Hq s Hs Hmove) as [H | H].
    - exists s. rewrite (same_view_status _ _ Hv). auto.
    - exists (Job.status (World.job (snd (m w)))). split; [|split; [left; reflexivity | exact H]].
      rewrite (same_view_status _ _ Hv). apply nonterminal, Hlive, HS. }
  destruct (m w) as [[a|message] w']; exact H.
Qed.

Lemma Stored_untouched s w w' :
  World.stored w' = World.stored w -> World.storedHistory w' = World.storedHistory w ->
  Stored s w -> Stored s w'.
Proof. unfold Stored, StoredOrder, storedStatus. intros -> ->. exact id. Qed.

(** A method that leaves the store alone keeps what the store holds. *)
Lemma triple_frame {A} s P (m : Async A) Q E :
  untouched m -> triple P m Q E ->
  triple (fun w => P w /\ Stored s w) m
    (fun a w => Q a w /\ Stored s w) (fun message w => E message w /\ Stored s w).
Proof.
  intros Hu Hm w [HP Hs]. specialize (Hm w HP). destruct (Hu w) as [H1 H2].
  destruct (m w) as [[a|message] w']; cbn in *;
    (split; [exact Hm | eapply Stored_untouched; eassumption]).
Qed.

Lemma Stage_weaken statuses bound statuses' bound' v :
  Stage statuses bound v ->
  (forall s, In s statuses -> In s statuses') -> bound <= bound' ->
  Stage statuses' bound' v.
Proof.
  intros (Hh & Hs & Hp & Hd & Hc) Hsub Hle.
  repeat split; auto; try apply Hh. lia.
Qed.

Lemma Synced_weaken statuses bound statuses' bound' w :
  Synced statuses bound w ->
  (forall s, In s statuses -> In s statuses') -> bound <= bound' ->
  Synced statuses' bound' w.
Proof. intros [HS Hs] Hsub Hle. split; [eapply Stage_weaken; eassumption | exact Hs]. Qed.

Lemma Behind_weaken statuses bound statuses' bound' w :
  Behind statuses bound w ->
  (forall s, In s statuses -> In s statuses') -> bound <= bound' ->
  Behind statuses' bound' w.
Proof. intros [HS Hs] Hsub Hle. split; [eapply Stage_weaken; eassumption | exact Hs]. Qed.

Lemma Synced_Behind statuses bound statuses' bound' w :
  Synced statuses bound w ->
  (forall s, In s statuses -> In s [pending; cloning; analyzing]) ->
  (forall s, In s statuses -> In s statuses') -> bound <= bound' ->
  Behind statuses' bound' w.
Proof.
  intros [HS Hs] Hlive Hsub Hle. split; [eapply Stage_weaken; eassumption|].
  exists (Job.status (World.job w)).
  split; [apply nonterminal, Hlive, HS | split; [left; reflexivity | exact Hs]].
Qed.

(** The view after [job.status = status; job.progress = progress]. *)
Lemma Stage_update statuses bound status progress v :
  Stage statuses bound v ->
  (forall a, In a statuses -> moves edge a status) -> bound <= progress ->
  Stage [status] progress
    (View.mk status progress (View.statusHistory v ++ [status])
       (View.progressHistory v ++ [progress]) (View.dones v) (View.cleaned v)).
Proof.
  intros ((Hc & Hl & Hpc & Hpl & Hph) & Hs & Hp & Hd & Hcl) Hmove Hle.
  unfold Stage, Hist. cbn.
  repeat split; auto.
  - apply chain_snoc; [exact Hc|]. intros a Ha. apply Hmove. congruence.
  - apply last_snoc.
  - apply chain_snoc; [exact Hpc|]. intros a Ha.
    assert (a = View.progress v) by congruence. lia.
  - apply last_snoc.
  - apply head_snoc, Hph.
  - lia.
Qed.

Lemma updateJobStatus_view env status progress w :
  view (snd (AnalysisEngine.updateJobStatus env status progress w)) =
  View.mk status progress (View.statusHistory (view w) ++ [status])
    (View.progressHistory (view w) ++ [progress]) (View.dones (view w))
    (View.cleaned (view w)).
Proof.
  unfold AnalysisEngine.updateJobStatus.
  unfold bind at 1 2. cbn [assign_status assign_progress].
  match goal with
  | |- view (snd (bind ?m ?k ?w')) = _ =>
      assert (Hq : preserved quietly (bind m k))
        by (repeat (apply preserved_bind; eauto with quiet; intros ?); eauto with quiet);
      rewrite (proj1 (Hq w'))
  end.
  reflexivity.
Qed.

Lemma updateJobStatus_Stage env statuses bound status progress :
  (forall a, In a statuses -> moves edge a status) -> bound <= progress ->
  triple (fun w => Stage statuses bound (view w))
    (AnalysisEngine.updateJobStatus env status progress)
    (fun _ w => Stage [status] progress (view w))
    (fun _ w => Stage [status] progress (view w)).
Proof.
  intros Hmove Hle w HS.
  pose proof (updateJobStatus_view env status progress w) as Hv.
  pose proof (Stage_update _ _ _ _ _ HS Hmove Hle) as HS'.
  destruct (AnalysisEngine.updateJobStatus env status progress w) as [[a|message] w'];
    cbn [snd] in Hv; rewrite Hv; exact HS'.
Qed.

(** The store after [updateJobStatus]: it holds the new status when the
    method returns, the new or the old one when it throws. *)
Lemma updateJobStatus_Stored env status progress s w :
  Stored s w -> moves edge s status ->
  match AnalysisEngine.updateJobStatus env status progress w with
  | (Return _, w') => Stored status w'
  | (Throw _, w') => Stored s w' \/ Stored status w'
  end.
Proof.
  intros Hs Hmove.
  cbv beta iota zeta delta [AnalysisEngine.updateJobStatus bind assign_status
    assign_progress AnalysisEngine.addLog modify_job AnalysisEngine.save get_job].
  cbn [World.with_job World.job].
  match goal with
  | |- context [AnalysisEngine.save_document env ?doc ?w1] =>
      destruct (Stored_save_document env doc s w1) as [Hj H1];
      [exact Hs | exact Hmove |];
      destruct (AnalysisEngine.save_document env doc w1) as [[[]|message] w2];
      cbn [fst snd] in Hj, H1; [|left; exact H1]
  end.
  cbn in H1.
  match goal with
  | |- context [AnalysisEngine.save_document env ?doc ?w1] =>
      destruct (Stored_save_document env doc status w1) as [Hj' H2];
      [exact H1 | left; rewrite Hj; reflexivity |];
      destruct (AnalysisEngine.save_document env doc w1) as [[[]|message] w3];
      cbn [fst snd] in Hj', H2
  end.
  - rewrite Hj in H2. exact H2.
  - right. exact H2.
Qed.

Lemma triple_updateJobStatus env statuses bound status progress :
  (forall a, In a statuses -> moves edge a status) -> bound <= progress ->
  (forall a, In a (status :: statuses) -> In a [pending; cloning; analyzing]) ->
  triple (fun w => Synced statuses bound w)
    (AnalysisEngine.updateJobStatus env status progress)
    (fun _ w => Synced [status] progress w)
    (fun _ w => Behind [status] progress w).
Proof.
  intros Hmove Hle Hlive w [HS Hs].
  assert (Hin : In (Job.status (World.job w)) statuses) by apply HS.
  pose proof (updateJobStatus_Stage env statuses bound status progress Hmove Hle w HS) as HS'.
  pose proof (updateJobStatus_Stored env status progress _ w Hs (Hmove _ Hin)) as Hs'.
  destruct (AnalysisEngine.updateJobStatus env status progress w) as [[a|message] w'].
  - assert (Hst : Job.status (World.job w') = status).
    { destruct HS' as (_ & [H|[]] & _). symmetry. exact H. }
    split; [exact HS'|]. unfold in_sync. rewrite Hst. exact Hs'.
  - assert (Hst : Job.status (World.job w') = status).
    { destruct HS' as (_ & [H|[]] & _). symmetry. exact H. }
    split; [exact HS'|]. rewrite Hst. destruct Hs' as [Hs' | Hs'].
    + exists (Job.status (World.job w)).
      split; [apply nonterminal, Hlive; right; exact Hin | split; [apply Hmove, Hin | exact Hs']].
    + exists status.
      split; [apply nonterminal, Hlive; left; reflexivity | split; [left; reflexivity | exact Hs']].
Qed.

(** ** The progress of the commit batches *)

Lemma ratio_nonneg (i n : nat) : (0 <= inject_Z (Z.of_nat i) / inject_Z (Z.of_nat n))%Q.
Proof.
  apply Qmult_le_0_compat.
  - change 0%Q with (inject_Z 0). rewrite <- Zle_Qle. lia.
  - apply Qinv_le_0_compat. change 0%Q with (inject_Z 0). rewrite <- Zle_Qle. lia.
Qed.

Lemma ratio_mono (i i' n : nat) :
  (i <= i')%nat ->
  (inject_Z (Z.of_nat i) / inject_Z (Z.of_nat n)
   <= inject_Z (Z.of_nat i') / inject_Z (Z.of_nat n))%Q.
Proof.
  intros H. apply Qmult_le_compat_r.
  - rewrite <- Zle_Qle. lia.
  - apply Qinv_le_0_compat. change 0%Q with (inject_Z 0). rewrite <- Zle_Qle. lia.
Qed.

Lemma ratio_le_1 (i n : nat) :
  (i <= n)%nat -> (inject_Z (Z.of_nat i) / inject_Z (Z.of_nat n) <= 1)%Q.
Proof.
  intros H. destruct n as [|n].
  - assert (i = 0%nat) by lia. subst i. cbn. discriminate.
  - apply Qle_shift_div_r.
    + change 0%Q with (inject_Z 0). rewrite <- Zlt_Qlt. lia.
    + rewrite Qmult_1_l. rewrite <- Zle_Qle. lia.
Qed.

(** The rounded quotient and the rounded product: both grow with [i], the
    quotient stays between 0 and 1 and the product between 0 and 25. *)
Lemma rounded_ratio (i i' n : nat) :
  (i <= i')%nat -> (i' <= n)%nat ->
  let q k := Binary64.round (inject_Z (Z.of_nat k) / inject_Z (Z.of_nat n)) in
  let p k := Binary64.round (q k * 25) in
  (0 <= q i /\ q i <= q i' /\ q i' <= 1)%Q
  /\ (0 <= p i /\ p i <= p i' /\ p i' <= 25)%Q.
Proof.
  intros Hi Hn. cbv zeta.
  pose proof (ratio_nonneg i n) as H0. pose proof (ratio_nonneg i' n) as H0'.
  pose proof (ratio_mono i i' n Hi) as Hm. pose proof (ratio_le_1 i' n Hn) as H1.
  assert (Hq0 := round_nonneg _ H0). assert (Hq0' := round_nonneg _ H0').
  assert (Hqm := round_mono _ _ H0 Hm).
  assert (Hq1 := round_mono _ _ H0' H1).
  rewrite (round_Z 1) in Hq1 by lia. change (inject_Z 1) with 1%Q in Hq1.
  set (q := Binary64.round (inject_Z (Z.of_nat i) / inject_Z (Z.of_nat n))) in *.
  set (q' := Binary64.round (inject_Z (Z.of_nat i') / inject_Z (Z.of_nat n))) in *.
  split; [auto|].
  assert (Hp0 : (0 <= q * 25)%Q) by lra.
  assert (Hp0' : (0 <= q' * 25)%Q) by lra.
  assert (Hpm : (q * 25 <= q' * 25)%Q) by lra.
  assert (Hp1 : (q' * 25 <= inject_Z 25)%Q) by (change (inject_Z 25) with 25%Q; lra).
  split; [apply round_nonneg, Hp0|]. split; [apply round_mono; assumption|].
  apply Qle_trans with (Binary64.round (inject_Z 25)); [apply round_mono; assumption|].
  rewrite round_Z by lia. apply Qle_refl.
Qed.

Lemma batchProgress_mono (n i i' : nat) :
  (i <= i')%nat -> (i' <= n)%nat -> batchProgress n i <= batchProgress n i'.
Proof.
  intros Hi Hn. unfold batchProgress.
  destruct (rounded_ratio i i' n Hi Hn) as [_ (_ & Hm & _)].
  pose proof (Math_round_mono _ _ Hm). lia.
Qed.

Lemma batchProgress_bounds (n i : nat) :
  (i <= n)%nat -> 15 <= batchProgress n i <= 40.
Proof.
  intros H. unfold batchProgress.
  destruct (rounded_ratio i i n (Nat.le_refl i) H) as [_ (H0 & _ & H25)].
  pose proof (Math_round_mono _ _ H0) as Hlow.
  pose proof (Math_round_mono _ _ H25) as Hhigh.
  change (Math_round 0) with 0 in Hlow. change (Math_round 25) with 25 in Hhigh. lia.
Qed.

Lemma chain_le_multiples (step first count : nat) :
  chain le (map (fun k => (k * step)%nat) (seq first count)).
Proof.
  revert first. induction count as [|count IH]; intros first; [exact I|].
  cbn [seq map]. destruct count as [|count]; [exact I|].
  split; [cbn; lia | apply (IH (S first))].
Qed.

Lemma batchStarts_sorted (n : nat) : chain le (batchStarts n).
Proof. apply chain_le_multiples. Qed.

Lemma batchStarts_below (n : nat) : Forall (fun i => (i <= n)%nat) (batchStarts n).
Proof.
  unfold batchStarts, batchSize. apply List.Forall_forall. intros i Hi.
  apply in_map_iff in Hi as (k & <- & Hk). apply in_seq in Hk.
  pose proof (Nat.Div0.mul_div_le (n + 5 - 1) 5). lia.
Qed.

(** ** The [try] block of [runAnalysis], stage by stage *)

(** [emitLog] returns, and changes neither the view, nor the build record,
    nor the job's id; a store that holds the job's status still does. *)
Lemma emitLog_record env jobId level message source w :
  let r := AnalysisEngine.emitLog env jobId level message source w in
  fst r = Return tt
  /\ view (snd r) = view w
  /\ Job.buildInfo (World.job (snd r)) = Job.buildInfo (World.job w)
  /\ Job.jobId (World.job (snd r)) = Job.jobId (World.job w)
  /\ (in_sync w -> in_sync (snd r)).
Proof.
  cbv zeta. pose proof (quiet_emitLog env jobId level message source w) as Hq.
  split; [|split; [exact (proj1 Hq) | split; [|split; [|exact (quietly_in_sync _ _ Hq)]]]].
  all: unfold AnalysisEngine.emitLog, try_catch, bind, AnalysisEngine.activeJobs_has,
    AnalysisEngine.addLog, AnalysisEngine.found_addLog, AnalysisEngine.findOne,
    AnalysisEngine.save, AnalysisEngine.save_document, bind, modify_job, get_job, emit;
    cbn;
    destruct (bool_decide (jobId ∈ World.activeJobs w)); cbn;
    [ destruct (Env.save_result env (World.saves w)); reflexivity
    | destruct (World.stored w) as [doc|]; cbn; [|reflexivity];
      destruct (String.eqb (Job.jobId doc) jobId); cbn; [|reflexivity];
      destruct (Env.save_result env (World.saves w)); reflexivity ].
Qed.

Ltac stage_weaken :=
  intros; cbv beta in *; unfold Interrupted;
  first
    [ eapply Behind_weaken; [eassumption | cbn; intuition | lia]
    | eapply Synced_Behind; [eassumption | cbn; intuition | cbn; intuition | lia]
    | eapply Synced_weaken; [eassumption | cbn; intuition | lia] ].

Ltac moves_edge :=
  let a := fresh "a" in
  let Ha := fresh "Ha" in
  intros a Ha; cbn in Ha;
  repeat (destruct Ha as [<- | Ha]; [first [left; reflexivity | right; constructor]|]);
  contradiction.

Ltac live := cbn; intuition.

Lemma step_quiet {A B} statuses bound (m : Async A) (k : A -> Async B) Q E :
  preserved quietly m ->
  (forall message w, Synced statuses bound w -> E message w) ->
  (forall a, triple (fun w => Synced statuses bound w) (k a) Q E) ->
  triple (fun w => Synced statuses bound w) (bind m k) Q E.
Proof.
  intros Hm HE Hk. eapply triple_bind; [|exact Hk].
  eapply triple_conseq; [apply (triple_quiet (Stage statuses bound) m Hm) | | |]; auto.
Qed.

Lemma step_update {B} env statuses bound status progress (k : unit -> Async B) Q E :
  (forall a, In a statuses -> moves edge a status) -> bound <= progress ->
  (forall a, In a (status :: statuses) -> In a [pending; cloning; analyzing]) ->
  (forall message w, Behind [status] progress w -> E message w) ->
  (forall a, triple (fun w => Synced [status] progress w) (k a) Q E) ->
  triple (fun w => Synced statuses bound w)
    (bind (AnalysisEngine.updateJobStatus env status progress) k) Q E.
Proof.
  intros Hmove Hle Hlive HE Hk. eapply triple_bind; [|exact Hk].
  eapply triple_conseq;
    [apply (triple_updateJobStatus env statuses bound status progress Hmove Hle Hlive) | | |];
    auto.
Qed.

(** The loop over the batches: the progress climbs from batch to batch and
    stays under 40. *)
Lemma triple_batches env jobId (commits : list Commit.t) (starts : list nat) :
  chain le starts -> Forall (fun i => (i <= length commits)%nat) starts ->
  triple
    (fun w => Synced [cloning; analyzing]
                (match starts with
                 | i :: _ => batchProgress (length commits) i
                 | [] => 40
                 end) w)
    (forEach starts
       (fun i =>
          bind (forEach (take batchSize (drop i commits))
                  (AnalysisEngine.processCommit env jobId))
            (fun _ =>
               AnalysisEngine.updateJobStatus env analyzing
                 (batchProgress (length commits) i))))
    (fun _ w => Synced [cloning; analyzing] 40 w)
    (fun _ w => Behind [cloning; analyzing] 40 w).
Proof.
  induction starts as [|i starts IH]; intros Hsorted Hbelow.
  - apply (triple_ret (fun w => Synced [cloning; analyzing] 40 w)).
  - cbn [forEach].
    assert (Hi : (i <= length commits)%nat) by (inversion Hbelow; assumption).
    assert (Hrest : Forall (fun i => (i <= length commits)%nat) starts)
      by (inversion Hbelow; assumption).
    pose proof (batchProgress_bounds (length commits) i Hi) as Hbi.
    eapply triple_bind
      with (Q := fun _ w => Synced [analyzing] (batchProgress (length commits) i) w).
    + apply step_quiet.
      * apply preserved_forEach; eauto with quiet.
      * stage_weaken.
      * intros _. eapply triple_conseq;
          [apply (triple_updateJobStatus env [cloning; analyzing]
                    (batchProgress (length commits) i) analyzing
                    (batchProgress (length commits) i)); [moves_edge | lia | live]
          | auto | auto | ].
        stage_weaken.
    + intros _. eapply triple_conseq; [apply IH | | auto | auto].
      * destruct starts; [exact I | exact (proj2 Hsorted)].
      * exact Hrest.
      * intros w HS. eapply Synced_weaken; [exact HS | cbn; intuition |].
        destruct starts as [|i' starts]; [lia|].
        apply batchProgress_mono; [exact (proj1 Hsorted)|].
        inversion Hrest; assumption.
Qed.

Lemma triple_pre {A} (P P' : World.t -> Prop) (m : Async A) Q E :
  triple P m Q E -> (forall w, P' w -> P w) -> triple P' m Q E.
Proof. intros Hm HP. eapply triple_conseq; [exact Hm | exact HP | auto | auto]. Qed.

Lemma triple_throw {A} (P : World.t -> Prop) (message : string) Q :
  triple P (@throw A message) Q (fun _ w => P w).
Proof. intros w HP. exact HP. Qed.

Lemma triple_analyzeCommits env repoInfo :
  triple (fun w => Synced [cloning] 15 w)
    (AnalysisEngine.analyzeCommits env repoInfo)
    (fun _ w => Synced [cloning; analyzing] 40 w)
    (fun _ w => Behind [cloning; analyzing] 40 w).
Proof.
  unfold AnalysisEngine.analyzeCommits. cbv zeta.
  eapply triple_pre with (P := fun w => Synced [cloning; analyzing] 15 w);
    [ | stage_weaken ].
  apply step_quiet; [apply preserved_get_job, quietly_refl | stage_weaken |].
  intros j.
  eapply triple_try_catch
    with (E' := fun _ w => Behind [cloning; analyzing] 40 w).
  - apply step_quiet; [apply preserved_outcome, quietly_refl | stage_weaken |].
    intros commits.
    apply step_quiet; [eauto with quiet | stage_weaken |].
    intros _.
    eapply triple_bind with (Q := fun _ w => Synced [cloning; analyzing] 40 w).
    + eapply triple_pre;
        [apply (triple_batches env (Job.jobId j) commits (batchStarts (length commits)));
         [apply batchStarts_sorted | apply batchStarts_below] | ].
      intros w HS. eapply Synced_weaken; [exact HS | auto |].
      pose proof (batchStarts_below (length commits)) as Hb.
      destruct (batchStarts (length commits)) as [|i starts]; [lia|].
      inversion Hb; subst.
      pose proof (batchProgress_bounds (length commits) i ltac:(assumption)). lia.
    + intros _.
      apply step_quiet; [eauto with quiet | stage_weaken |].
      intros _. apply (triple_ret (fun w => Synced [cloning; analyzing] 40 w)).
  - intros message.
    eapply triple_bind with (Q := fun _ w => Behind [cloning; analyzing] 40 w).
    + apply triple_quiet_behind; [eauto with quiet | live].
    + intros _. apply (triple_throw (fun w => Behind [cloning; analyzing] 40 w)).
Qed.

(** *** The last statements of the [try] block *)

Lemma untouched_assign_status status : untouched (assign_status status).
Proof. intros w. split; reflexivity. Qed.

Lemma untouched_assign_progress progress : untouched (assign_progress progress).
Proof. intros w. split; reflexivity. Qed.

Lemma untouched_modify f : untouched (modify_job f).
Proof. intros w. split; reflexivity. Qed.

Lemma triple_assign_status statuses bound status E :
  (forall a, In a statuses -> moves edge a status) ->
  triple (fun w => Stage statuses bound (view w)) (assign_status status)
    (fun _ w => Stage [status] bound (view w)) E.
Proof.
  intros Hmove w ((Hc & Hl & Hpc & Hpl & Hph) & Hs & Hp & Hd & Hcl).
  cbn in *. unfold Stage, Hist. cbn.
  repeat split; auto.
  - apply chain_snoc; [exact Hc|]. intros a Ha. apply Hmove. congruence.
  - apply last_snoc.
Qed.

Lemma triple_assign_progress statuses bound progress E :
  bound <= progress ->
  triple (fun w => Stage statuses bound (view w)) (assign_progress progress)
    (fun _ w => Stage statuses progress (view w) /\ View.progress (view w) = progress) E.
Proof.
  intros Hle w ((Hc & Hl & Hpc & Hpl & Hph) & Hs & Hp & Hd & Hcl).
  cbn in *. unfold Stage, Hist. cbn.
  repeat split; auto.
  - apply chain_snoc; [exact Hpc|]. intros a Ha.
    assert (a = Job.progress (World.job w)) by congruence. lia.
  - apply last_snoc.
  - apply head_snoc, Hph.
  - lia.
Qed.

Lemma triple_modify (I : View.t -> Prop) f E :
  keeps f ->
  triple (fun w => I (view w)) (modify_job f) (fun _ w => I (view w)) E.
Proof.
  intros Hf w HI. pose proof (same_view_modify f Hf w) as Hv. unfold same_view in Hv.
  cbn in *. rewrite Hv. exact HI.
Qed.

(** A step that leaves the store alone and does not throw. *)
Lemma step_frame {A B} s P (m : Async A) Q (k : A -> Async B) Q' E :
  untouched m -> triple P m Q (fun _ _ => False) ->
  (forall a, triple (fun w => Q a w /\ Stored s w) (k a) Q' E) ->
  triple (fun w => P w /\ Stored s w) (bind m k) Q' E.
Proof.
  intros Hu Hm Hk. eapply triple_bind; [|exact Hk].
  eapply triple_conseq; [apply (triple_frame s P m Q _ Hu Hm) | auto | auto |].
  cbv beta. intros message w [[] _].
Qed.

(** [job.save()] with the store one move behind: the store catches up, or
    the save throws and the store is where it was. *)
Lemma triple_save_behind env (I : View.t -> Prop) s :
  (forall v, I v -> moves edge s (View.status v)) ->
  triple (fun w => I (view w) /\ Stored s w) (AnalysisEngine.save env)
    (fun _ w => I (view w) /\ in_sync w)
    (fun _ w => I (view w) /\ Stored s w).
Proof.
  intros Hmove w [HI Hs].
  pose proof (same_view_save env w) as Hv. unfold same_view in Hv.
  destruct (Stored_save_document env (World.job w) s w Hs (Hmove _ HI)) as [Hj H].
  change (AnalysisEngine.save env w)
    with (AnalysisEngine.save_document env (World.job w) w) in *.
  destruct (AnalysisEngine.save_document env (World.job w) w) as [[[]|message] w'];
    cbn [fst snd] in *; rewrite Hv; (split; [exact HI|]); [|exact H].
  unfold in_sync. rewrite Hj. exact H.
Qed.

(** A quiet step that does not throw. *)
Lemma step_returns {A B} (I : View.t -> Prop) (m : Async A) (k : A -> Async B) Q E :
  preserved quietly m -> (forall w, exists a, fst (m w) = Return a) ->
  (forall a, triple (fun w => I (view w) /\ in_sync w) (k a) Q E) ->
  triple (fun w => I (view w) /\ in_sync w) (bind m k) Q E.
Proof.
  intros Hm Hr Hk w HP. unfold bind.
  pose proof (triple_quiet I m Hm w HP) as H. destruct (Hr w) as [a Ha].
  destruct (m w) as [[a'|message] w']; cbn in Ha; [apply Hk, H | discriminate].
Qed.

Lemma triple_finish jobId E :
  triple (fun w => (Stage [completed] 100 (view w) /\ View.progress (view w) = 100)
                   /\ in_sync w)
    (let* j := get_job in
     emit (done_event (successDone j)) ;;
     githubService_cleanup jobId ;;
     activeJobs_delete jobId)
    (fun _ w => Succeeded jobId w) E.
Proof.
  intros w [[((Hc & Hl & Hpc & Hpl & Hph) & Hs & Hp & Hd & Hcl) H100] Hsync].
  assert (Hst : Job.status (World.job w) = completed).
  { destruct Hs as [Hs|[]]. symmetry. exact Hs. }
  unfold in_sync in Hsync. rewrite Hst in Hsync.
  cbn in *. unfold Succeeded, Hist, view. cbn.
  rewrite dones_app, Hd, Hcl. cbn.
  repeat split; auto; apply Hsync.
Qed.

(** The [try] block: it returns with the run succeeded, or throws with the
    job cloning, analyzing or (the last save rejected) completed, and the
    store holding a status that is not terminal. *)
Lemma triple_runAnalysis_try env jobId :
  triple (fun w => Synced [pending] 0 w)
    (AnalysisEngine.runAnalysis_try env jobId)
    (fun _ w => Succeeded jobId w)
    (fun _ w => Interrupted w).
Proof.
  unfold AnalysisEngine.runAnalysis_try.
  apply step_update; [moves_edge | lia | live | stage_weaken | intros _].
  apply step_quiet; [eauto with quiet | stage_weaken | intros _].
  apply step_quiet; [eauto with quiet | stage_weaken | intros repoInfo].
  apply step_update; [moves_edge | lia | live | stage_weaken | intros _].
  apply step_quiet; [eauto with quiet | stage_weaken | intros _].
  eapply triple_bind with (Q := fun _ w => Synced [cloning; analyzing] 40 w);
    [eapply triple_conseq; [apply triple_analyzeCommits | auto | auto | stage_weaken]
    | intros _].
  apply step_update; [moves_edge | lia | live | stage_weaken | intros _].
  apply step_quiet; [eauto with quiet | stage_weaken | intros _].
  apply step_quiet; [eauto with quiet | stage_weaken | intros _].
  apply step_update; [moves_edge | lia | live | stage_weaken | intros _].
  apply step_quiet; [eauto with quiet | stage_weaken | intros _].
  apply step_quiet; [eauto with quiet | stage_weaken | intros _].
  apply step_update; [moves_edge | lia | live | stage_weaken | intros _].
  apply step_quiet; [eauto with quiet | stage_weaken | intros _].
  apply step_quiet; [eauto with quiet | stage_weaken | intros _].
  apply step_update; [moves_edge | lia | live | stage_weaken | intros _].
  apply step_quiet; [eauto with quiet | stage_weaken | intros _].
  apply step_quiet; [eauto with quiet | stage_weaken | intros _].
  eapply triple_pre
    with (P := fun w => Stage [analyzing] 90 (view w) /\ Stored analyzing w).
  2: { intros w [HS Hs]. split; [exact HS|].
       destruct HS as (_ & [Hst|[]] & _). cbn in Hst. unfold in_sync in Hs.
       rewrite <- Hst in Hs. exact Hs. }
  apply step_frame
    with (Q := fun _ w => Stage [completed] 90 (view w));
    [apply untouched_assign_status | apply triple_assign_status; moves_edge | intros _].
  apply step_frame
    with (Q := fun _ w => Stage [completed] 90 (view w));
    [apply untouched_modify
    | apply (triple_modify (Stage [completed] 90)); intros j; repeat split; reflexivity
    | intros _].
  apply step_frame
    with (Q := fun _ w => Stage [completed] 100 (view w) /\ View.progress (view w) = 100);
    [apply untouched_assign_progress | apply triple_assign_progress; lia | intros _].
  apply step_frame
    with (Q := fun _ w => Stage [completed] 100 (view w) /\ View.progress (view w) = 100);
    [apply untouched_modify
    | apply (triple_modify (fun v => Stage [completed] 100 v /\ View.progress v = 100));
      intros j; repeat split; reflexivity
    | intros _].
  eapply triple_bind
    with (Q := fun _ w => (Stage [completed] 100 (view w) /\ View.progress (view w) = 100)
                          /\ in_sync w);
    [eapply triple_conseq;
       [apply (triple_save_behind env
                 (fun v => Stage [completed] 100 v /\ View.progress v = 100) analyzing)
       | auto | auto | ]
    | intros _].
  - intros v [(_ & [Hst|[]] & _) _]. rewrite <- Hst. right. constructor.
  - cbv beta. intros message w [[HS _] Hs]. split.
    + eapply Stage_weaken; [exact HS | cbn; intuition | lia].
    + exists analyzing. split; [apply nonterminal; cbn; auto|]. split; [|exact Hs].
      destruct HS as (_ & [Hst|[]] & _). cbn in Hst. rewrite <- Hst. right. constructor.
  - apply (step_returns (fun v => Stage [completed] 100 v /\ View.progress v = 100));
      [eauto with quiet | intros w; exists tt; apply emitLog_record | intros _].
    apply triple_finish.
Qed.

(** ** The engine never touches the sandbox registry *)

Lemma same_docker_refl w : same_docker w w.
Proof. reflexivity. Qed.

Lemma same_docker_trans a b c : same_docker a b -> same_docker b c -> same_docker a c.
Proof. unfold same_docker. congruence. Qed.

Lemma same_docker_save_document env doc :
  preserved same_docker (AnalysisEngine.save_document env doc).
Proof.
  intros w. unfold AnalysisEngine.save_document.
  destruct (Env.save_result env (World.saves w)); reflexivity.
Qed.

Lemma same_docker_save env : preserved same_docker (AnalysisEngine.save env).
Proof. intros w. apply (same_docker_save_document env (World.job w) w). Qed.

Lemma same_docker_found_addLog env jobId entry :
  preserved same_docker (AnalysisEngine.found_addLog env jobId entry).
Proof.
  intros w. unfold AnalysisEngine.found_addLog, bind, AnalysisEngine.findOne. cbn.
  destruct (World.stored w) as [doc|]; [|reflexivity].
  destruct (String.eqb (Job.jobId doc) jobId); [|reflexivity].
  apply same_docker_save_document.
Qed.

Lemma same_docker_found_addAlert env jobId alert :
  preserved same_docker (AnalysisEngine.found_addAlert env jobId alert).
Proof.
  intros w. unfold AnalysisEngine.found_addAlert, bind, AnalysisEngine.findOne. cbn.
  destruct (World.stored w) as [doc|]; [|reflexivity].
  destruct (String.eqb (Job.jobId doc) jobId); [|reflexivity].
  apply same_docker_save_document.
Qed.

Lemma same_docker_runAnalysis_try env jobId :
  preserved same_docker (AnalysisEngine.runAnalysis_try env jobId).
Proof.
  apply (preserved_runAnalysis_try env same_docker same_docker_refl same_docker_trans)
    with (allowed := fun _ => True); auto;
    try (intros; intros w; reflexivity).
  - apply same_docker_save.
  - apply same_docker_found_addLog.
  - apply same_docker_found_addAlert.
Qed.

Lemma same_docker_handleAnalysisError env message :
  preserved same_docker (AnalysisEngine.handleAnalysisError env message).
Proof.
  apply (preserved_handleAnalysisError env same_docker same_docker_refl same_docker_trans)
    with (allowed := fun _ => True); auto;
    try (intros; intros w; reflexivity).
  - apply same_docker_save.
  - apply same_docker_found_addLog.
Qed.

Lemma same_docker_runAnalysis env : preserved same_docker (AnalysisEngine.runAnalysis env).
Proof.
  unfold AnalysisEngine.runAnalysis.
  apply (preserved_bind same_docker same_docker_trans);
    [apply (preserved_get_job same_docker same_docker_refl) | intros j].
  apply (preserved_try_catch same_docker same_docker_trans);
    [apply same_docker_runAnalysis_try | apply same_docker_handleAnalysisError].
Qed.

Lemma same_docker_submit env : preserved same_docker (AnalysisEngine.submit env).
Proof.
  unfold AnalysisEngine.submit.
  apply (preserved_bind same_docker same_docker_trans); [|intros _].
  - unfold AnalysisEngine.startAnalysis.
    apply (preserved_bind same_docker same_docker_trans);
      [apply (preserved_get_job same_docker same_docker_refl) | intros j].
    apply (preserved_bind same_docker same_docker_trans);
      [apply same_docker_save | intros _; intros w; reflexivity].
  - unfold AnalysisEngine.backgroundRun.
    apply (preserved_try_catch same_docker same_docker_trans);
      [apply same_docker_runAnalysis | apply same_docker_handleAnalysisError].
Qed.

(** ** The error handler *)


Lemma Hist_failed v :
  Stage [cloning; analyzing; completed] 100 v ->
  Hist edge_or_late_failure
    (View.mk failed (View.progress v) (View.statusHistory v ++ [failed])
       (View.progressHistory v) (View.dones v) (View.cleaned v)).
Proof.
  intros ((Hc & Hl & Hpc & Hpl & Hph) & Hs & _).
  unfold Hist. cbn. repeat split; auto.
  - apply chain_snoc.
    + eapply chain_mono; [|exact Hc]. intros a b [->|Hab]; [left; reflexivity|].
      right. constructor. exact Hab.
    + intros a Ha. assert (a = View.status v) by congruence. subst a. right.
      cbn in Hs. destruct Hs as [<-|[<-|[<-|[]]]].
      * constructor. constructor. intros [?|?]; discriminate.
      * constructor. constructor. intros [?|?]; discriminate.
      * apply late_failure.
  - apply last_snoc.
Qed.

(** The handler returns; it leaves the job failed, with the message
    recorded; the [done] event and the workspace cleanup follow exactly
    when the store accepts the failed job. *)
Lemma handleAnalysisError_spec env message w :
  Interrupted w ->
  let r := AnalysisEngine.handleAnalysisError env message w in
  fst r = Return tt /\ FailedWith (Job.jobId (World.job w)) message (snd r).
Proof.
  intros [HS (s & Hnt & _ & (Hc & Hl) & Hs)].
  pose proof (Hist_failed _ HS) as Hh.
  destruct HS as (_ & _ & _ & Hd & Hcl). cbn in Hd, Hcl.
  cbv zeta.
  destruct (AnalysisEngine.handleAnalysisError env message w) as [o w'] eqn:Hrun.
  cbn [fst snd]. revert Hrun.
  cbv beta iota zeta delta [AnalysisEngine.handleAnalysisError try_catch bind assign_status
    modify_job AnalysisEngine.save AnalysisEngine.save_document get_job].
  cbn [World.saves World.with_job World.job World.stored World.activeJobs World.emitted
       World.cleaned World.statusHistory World.progressHistory World.storedHistory
       World.docker].
  destruct (Env.save_result env (World.saves w)) as [rejection|].
  - cbn. intros [= <- <-]. split; [reflexivity|]. unfold FailedWith. cbn.
    split; [exact Hh|]. split; [reflexivity|]. split; [reflexivity|]. split.
    + right. split; [|split; assumption].
      unfold storedStatus in *. cbn. rewrite Hs. intros [= ->]. apply Hnt. right. reflexivity.
    + split; assumption.
  - match goal with
    | |- context [AnalysisEngine.emitLog env ?i ?l ?m ?s ?w2] =>
        assert (Hsync : in_sync w2);
        [| pose proof (emitLog_record env i l m s w2) as (Hr & Hv & Hb & Hid & Hstored);
           specialize (Hstored Hsync);
           destruct (AnalysisEngine.emitLog env i l m s w2) as [[[]|e] w3];
           cbn [fst snd] in *; [|discriminate] ]
    end.
    { unfold in_sync, Stored, StoredOrder, storedStatus. cbn. repeat split.
      - apply chain_snoc; [exact Hc|]. intros a Ha. rewrite Hl, Hs in Ha.
        injection Ha as <-. right. constructor. exact Hnt.
      - apply last_snoc. }
    cbn. intros [= <- <-]. split; [reflexivity|]. unfold FailedWith.
    unfold view in Hv. cbn in Hv. injection Hv as Hs3 Hp3 Hsh3 Hph3 Hd3 Hc3.
    unfold in_sync in Hstored. rewrite Hs3 in Hstored. destruct Hstored as [Hord Hst3].
    unfold view. cbn.
    rewrite dones_app, Hs3, Hp3, Hsh3, Hph3, Hd3, Hc3, Hb, Hd, Hcl.
    cbn. split; [exact Hh|]. split; [reflexivity|]. split; [reflexivity|].
    split; [|exact Hord]. left. repeat split. exact Hst3.
Qed.

(** ** The job keeps its id *)

Lemma same_jobId_refl w : same_jobId w w.
Proof. reflexivity. Qed.

Lemma same_jobId_trans a b c : same_jobId a b -> same_jobId b c -> same_jobId a c.
Proof. unfold same_jobId. congruence. Qed.

Lemma same_jobId_save_document env doc :
  preserved same_jobId (AnalysisEngine.save_document env doc).
Proof.
  intros w. unfold AnalysisEngine.save_document.
  destruct (Env.save_result env (World.saves w)); reflexivity.
Qed.

Lemma same_jobId_found_addLog env jobId entry :
  preserved same_jobId (AnalysisEngine.found_addLog env jobId entry).
Proof.
  intros w. unfold AnalysisEngine.found_addLog, bind, AnalysisEngine.findOne. cbn.
  destruct (World.stored w) as [doc|]; [|reflexivity].
  destruct (String.eqb (Job.jobId doc) jobId); [|reflexivity].
  apply same_jobId_save_document.
Qed.

Lemma same_jobId_found_addAlert env jobId alert :
  preserved same_jobId (AnalysisEngine.found_addAlert env jobId alert).
Proof.
  intros w. unfold AnalysisEngine.found_addAlert, bind, AnalysisEngine.findOne. cbn.
  destruct (World.stored w) as [doc|]; [|reflexivity].
  destruct (String.eqb (Job.jobId doc) jobId); [|reflexivity].
  apply same_jobId_save_document.
Qed.

Lemma same_jobId_runAnalysis_try env jobId :
  preserved same_jobId (AnalysisEngine.runAnalysis_try env jobId).
Proof.
  apply (preserved_runAnalysis_try env same_jobId same_jobId_refl same_jobId_trans)
    with (allowed := fun _ => True); auto;
    try (intros; intros w; reflexivity).
  - intros f Hf w. unfold same_jobId. cbn. apply Hf.
  - intros w. apply (same_jobId_save_document env (World.job w) w).
  - apply same_jobId_found_addLog.
  - apply same_jobId_found_addAlert.
Qed.

(** ** The run as a whole *)

(** [runAnalysis] returns, with the run succeeded or failed. *)
Lemma runAnalysis_spec env w :
  Synced [pending] 0 w ->
  let r := AnalysisEngine.runAnalysis env w in
  fst r = Return tt
  /\ (Succeeded (Job.jobId (World.job w)) (snd r)
      \/ exists message, FailedWith (Job.jobId (World.job w)) message (snd r)).
Proof.
  intros HS. cbv zeta.
  unfold AnalysisEngine.runAnalysis, bind, try_catch. cbn [get_job].
  pose proof (triple_runAnalysis_try env (Job.jobId (World.job w)) w HS) as Htry.
  pose proof (same_jobId_runAnalysis_try env (Job.jobId (World.job w)) w) as Hid.
  destruct (AnalysisEngine.runAnalysis_try env (Job.jobId (World.job w)) w)
    as [[[]|message] w1]; cbn [fst snd] in *.
  - split; [reflexivity | left; exact Htry].
  - destruct (handleAnalysisError_spec env message w1 Htry) as [Hr Hf].
    split; [exact Hr|]. right. exists message. rewrite <- Hid. exact Hf.
Qed.

Lemma Stage_init docker jobId repoUrl stored activeJobs saves storedHistory :
  Stage [pending] 0
    (view (World.mk (Job.new jobId repoUrl) stored activeJobs [] saves [] [pending] [0]
             storedHistory docker)).
Proof.
  unfold Stage, Hist, view. cbn. repeat split; auto. lia.
Qed.

Lemma startAnalysis_spec env docker jobId repoUrl :
  match AnalysisEngine.startAnalysis env (World.init docker jobId repoUrl) with
  | (Return _, w) => Synced [pending] 0 w /\ Job.jobId (World.job w) = jobId
  | (Throw _, w) => Unscheduled w
  end.
Proof.
  cbv beta iota zeta delta [AnalysisEngine.startAnalysis bind get_job
    AnalysisEngine.save AnalysisEngine.save_document activeJobs_set World.init].
  cbn [World.saves World.job World.stored World.activeJobs World.emitted
       World.cleaned World.statusHistory World.progressHistory World.storedHistory
       World.docker].
  destruct (Env.save_result env 0%nat) as [rejection|].
  - repeat split; reflexivity || exact I.
  - split; [|reflexivity]. split; [apply Stage_init|].
    unfold in_sync, Stored, StoredOrder, storedStatus. cbn. repeat split.
Qed.

(** A submission is rejected before any run, or its run returns with the job
    succeeded or failed; the sandbox registry is as it was. *)
Lemma lifetime_spec env docker jobId repoUrl :
  let r := lifetime env docker jobId repoUrl in
  World.docker (snd r) = docker
  /\ ((exists message, fst r = Throw message /\ Unscheduled (snd r))
      \/ (fst r = Return tt
          /\ (Succeeded jobId (snd r)
              \/ exists message, FailedWith jobId message (snd r)))).
Proof.
  cbv zeta. split.
  - apply (same_docker_submit env (World.init docker jobId repoUrl)).
  - unfold lifetime, AnalysisEngine.submit, bind.
    pose proof (startAnalysis_spec env docker jobId repoUrl) as Hstart.
    destruct (AnalysisEngine.startAnalysis env (World.init docker jobId repoUrl))
      as [[[]|rejection] w1].
    + right. destruct Hstart as (HS & Hid).
      unfold AnalysisEngine.backgroundRun, try_catch.
      pose proof (runAnalysis_spec env w1 HS) as Hrun. cbv zeta in Hrun.
      rewrite Hid in Hrun.
      destruct (AnalysisEngine.runAnalysis env w1) as [[[]|message] w2];
        cbn [fst snd] in *.
      * exact Hrun.
      * destruct Hrun as [Hr _]. discriminate.
    + left. exists rejection. split; [reflexivity | exact Hstart].
Qed.

Lemma Hist_edge_late v : Hist edge v -> Hist edge_or_late_failure v.
Proof.
  intros (Hc & Hrest). split; [|exact Hrest].
  eapply chain_mono; [|exact Hc]. intros a b [->|Hab]; [left; reflexivity|].
  right. constructor. exact Hab.
Qed.

(** Whatever happens to a submission, its histories are in order. *)
Lemma lifetime_Hist env docker jobId repoUrl :
  Hist edge_or_late_failure (view (snd (lifetime env docker jobId repoUrl))).
Proof.
  destruct (lifetime_spec env docker jobId repoUrl)
    as [_ [(message & _ & _ & Hv & _) | [_ [Hs | (message & Hf)]]]].
  - rewrite Hv. unfold Hist. cbn. auto.
  - apply Hist_edge_late, Hs.
  - apply Hf.
Qed.

(** Whatever happens to a submission, the statuses the store has held are in
    order. *)
Lemma lifetime_StoredOrder env docker jobId repoUrl :
  StoredOrder (snd (lifetime env docker jobId repoUrl)).
Proof.
  destruct (lifetime_spec env docker jobId repoUrl)
    as [_ [(message & _ & _ & _ & Ho) | [_ [Hs | (message & Hf)]]]].
  - exact Ho.
  - destruct Hs as (_ & _ & _ & _ & _ & Ho & _). exact Ho.
  - destruct Hf as (_ & _ & _ & _ & Ho). exact Ho.
Qed.

Lemma terminal_stays (a b : Status) :
  moves edge_or_late_failure a b -> terminal a -> terminal b.
Proof.
  intros [->|Hab] Ha; [exact Ha|].
  destruct Hab as [a b Hab|]; [|right; reflexivity].
  destruct Hab; try (destruct Ha; discriminate). right. reflexivity.
Qed.

(** C4, as the code has it.  For every job, every assignment to the status
    field leaves it as it is or moves it along pending -> cloning ->
    analyzing -> completed, from a non-terminal state to failed, or from
    completed to failed (the save of the completed job was rejected); no
    assignment moves the job from a terminal state to a non-terminal one.
    The status of the document the store holds moves along the first four
    kinds of edges only: a completed job is never stored as failed. *)
Theorem status_moves_on_edges_or_late_failure env docker jobId repoUrl :
  let w := snd (lifetime env docker jobId repoUrl) in
  (forall a b, adjacent a b (World.statusHistory w) -> a <> b -> edge_or_late_failure a b)
  /\ (forall a b, adjacent a b (World.statusHistory w) -> terminal a -> terminal b)
  /\ last (World.statusHistory w) = Some (Job.status (World.job w))
  /\ (forall a b, adjacent a b (World.storedHistory w) -> a <> b -> edge a b)
  /\ last (World.storedHistory w) = storedStatus w.
Proof.
  cbv zeta. destruct (lifetime_Hist env docker jobId repoUrl) as (Hc & Hl & _).
  destruct (lifetime_StoredOrder env docker jobId repoUrl) as (Hsc & Hsl).
  cbn in Hc, Hl. repeat split.
  - intros a b Hab Hne.
    destruct (chain_adjacent _ _ _ _ Hc Hab) as [->|H]; [contradiction | exact H].
  - intros a b Hab. apply terminal_stays. exact (chain_adjacent _ _ _ _ Hc Hab).
  - exact Hl.
  - intros a b Hab Hne.
    destruct (chain_adjacent _ _ _ _ Hsc Hab) as [->|H]; [contradiction | exact H].
  - exact Hsl.
Qed.

(** C6.  For every job the progress starts at 0 and every assignment to it,
    the ones after each batch of commits included, gives a value that is at
    least the one before. *)
Theorem progress_non_decreasing env docker jobId repoUrl :
  let w := snd (lifetime env docker jobId repoUrl) in
  head (World.progressHistory w) = Some 0
  /\ (forall a b, adjacent a b (World.progressHistory w) -> a <= b)
  /\ last (World.progressHistory w) = Some (Job.progress (World.job w)).
Proof.
  cbv zeta. destruct (lifetime_Hist env docker jobId repoUrl) as (_ & _ & Hc & Hl & Hh).
  cbn in Hc, Hl, Hh. repeat split; auto.
  intros a b Hab. exact (chain_adjacent _ _ _ _ Hc Hab).
Qed.

(** The progress of a run over twelve commits: 15, 25 and 36 are the values
    assigned before the batches that start at commits 0, 5 and 10. *)
Example progress_of_twelve_commits :
  World.progressHistory
    (snd (lifetime busy_repository no_containers "job-1" "https://github.com/owner/repo"))
  = [0; 5; 15; 15; 25; 36; 40; 60; 80; 90; 100].
Proof. vm_compute. reflexivity. Qed.

(** C3, as the code has it.  Every execution of a job's background run ends
    with the job in a terminal status (completed or failed); the run calls
    the workspace cleanup of the source fetcher, once, when the job is
    completed and when the store accepted the failed job; it leaves the
    sandbox registry as it was: the engine never calls the Sandbox Manager. *)
Theorem run_ends_terminal_and_cleans_workspace env docker jobId repoUrl :
  let r := lifetime env docker jobId repoUrl in
  fst r = Return tt ->
  terminal (Job.status (World.job (snd r)))
  /\ World.docker (snd r) = docker
  /\ (Job.status (World.job (snd r)) = completed \/ storedStatus (snd r) = Some failed ->
      World.cleaned (snd r) = [jobId]).
Proof.
  cbv zeta. intros Hr.
  destruct (lifetime_spec env docker jobId repoUrl)
    as [Hd [(message & Hthrow & _) | [_ [Hs | (message & Hf)]]]].
  - congruence.
  - destruct Hs as (_ & Hst & _ & _ & Hcl & _).
    repeat split; [left; exact Hst | exact Hd | intros _; exact Hcl].
  - destruct Hf as (_ & Hst & _ & [(Hstored & _ & Hcl) | (Hstored & _ & _)] & _).
    + repeat split; [right; exact Hst | exact Hd | intros _; exact Hcl].
    + repeat split; [right; exact Hst | exact Hd |].
      intros [Hc | Hs]; [congruence | contradiction].
Qed.

(** C3 on an empty repository behind an accepting store, with the job's
    container in the registry: the run is scheduled, ends completed, cleans
    the workspace and leaves the registry as it was. *)
Lemma run_ends_terminal_and_cleans_workspace_witness :
  let r := lifetime (empty_repository accepting) one_container "job-1"
             "https://github.com/owner/repo" in
  fst r = Return tt
  /\ terminal (Job.status (World.job (snd r)))
  /\ World.docker (snd r) = one_container
  /\ (Job.status (World.job (snd r)) = completed \/ storedStatus (snd r) = Some failed ->
      World.cleaned (snd r) = ["job-1"]).
Proof.
  cbv zeta.
  assert (H : fst (lifetime (empty_repository accepting) one_container "job-1"
                     "https://github.com/owner/repo") = Return tt)
    by (vm_compute; reflexivity).
  split; [exact H|].
  exact (run_ends_terminal_and_cleans_workspace (empty_repository accepting)
           one_container "job-1" "https://github.com/owner/repo" H).
Defined.

(** C3 as stated fails: a run that completes with the job's container in
    the registry sends no stop request and leaves the container registered. *)
Lemma sandbox_not_released_by_run :
  let w := snd (lifetime (empty_repository accepting) one_container "job-1"
                  "https://github.com/owner/repo") in
  Job.status (World.job w) = completed
  /\ DockerService.stopRequests (World.docker w) = []
  /\ DockerService.activeContainers (World.docker w) !! "job-1"
     = Some (DockerService.ContainerInfo.mk "c0ffee" "nodejs" "/workspace/job-1").
Proof.
  cbv zeta.
  pose proof (proj1 (lifetime_spec (empty_repository accepting) one_container "job-1"
                       "https://github.com/owner/repo")) as Hd.
  cbv zeta in Hd. rewrite Hd.
  split; [vm_compute; reflexivity|]. split; [reflexivity|].
  unfold one_container. cbn. apply lookup_singleton_eq.
Qed.

(** C2, as the code has it.  Whenever a job's background run fails, the job
    is failed and records the triggering message, and at most one [done]
    event was emitted; when the store accepted the failed job, exactly one
    was, carrying riskScore 0, riskLevel "unknown" and the message. *)
Theorem failed_run_emits_one_done_when_stored env docker jobId repoUrl :
  let w := snd (lifetime env docker jobId repoUrl) in
  Job.status (World.job w) = failed ->
  exists message,
    Job.buildInfo (World.job w) = Some (BuildInfo.mk false [message] [])
    /\ (length (dones (World.emitted w)) <= 1)%nat
    /\ (storedStatus w = Some failed ->
        exists payload,
          dones (World.emitted w) = [payload]
          /\ Done.riskScore payload = Some (Fin 0)
          /\ Done.riskLevel payload = level_unknown
          /\ Done.error payload = Some message).
Proof.
  cbv zeta. intros Hfailed.
  destruct (lifetime_spec env docker jobId repoUrl)
    as [_ [(message & _ & Hp & _) | [_ [Hs | (message & Hf)]]]].
  - congruence.
  - destruct Hs as (_ & Hst & _). congruence.
  - exists message.
    destruct Hf as (_ & _ & Hb & [(Hstored & Hd & _) | (Hstored & Hd & _)] & _).
    + rewrite Hd. repeat split; [exact Hb | cbn; lia |].
      intros _. exists (failureDone message). repeat split.
    + rewrite Hd. repeat split; [exact Hb | cbn; lia |].
      intros Hs. contradiction.
Qed.

(** C2 on a repository that cannot be reached: the job is failed, and the
    one [done] event carries the fetcher's message. *)
Lemma failed_run_emits_one_done_when_stored_witness :
  let w := snd (lifetime unreachable_repository no_containers "job-1"
                  "https://github.com/owner/missing") in
  Job.status (World.job w) = failed
  /\ exists message,
       Job.buildInfo (World.job w) = Some (BuildInfo.mk false [message] [])
       /\ (length (dones (World.emitted w)) <= 1)%nat
       /\ (storedStatus w = Some failed ->
           exists payload,
             dones (World.emitted w) = [payload]
             /\ Done.riskScore payload = Some (Fin 0)
             /\ Done.riskLevel payload = level_unknown
             /\ Done.error payload = Some message).
Proof.
  cbv zeta.
  assert (H : Job.status (World.job (snd (lifetime unreachable_repository no_containers
                "job-1" "https://github.com/owner/missing"))) = failed)
    by (vm_compute; reflexivity).
  split; [exact H|].
  exact (failed_run_emits_one_done_when_stored unreachable_repository no_containers
           "job-1" "https://github.com/owner/missing" H).
Defined.

(** C2 as stated fails: behind a store that rejects every save after the
    submission, the run fails and no [done] event is emitted. *)
Lemma failed_run_without_done :
  let w := snd (lifetime (empty_repository down_after_submission) no_containers "job-1"
                  "https://github.com/owner/repo") in
  Job.status (World.job w) = failed
  /\ dones (World.emitted w) = [].
Proof. vm_compute. split; reflexivity. Qed.

(** C4 as stated fails: when the store rejects the save of the completed
    job, the status moves from completed to failed, which is no edge.  The
    store, which never held the job as completed, then holds it as failed. *)
Lemma status_moves_from_completed_to_failed :
  let w := snd (lifetime (empty_repository (outage 34 34)) no_containers "job-1"
                  "https://github.com/owner/repo") in
  adjacent completed failed (World.statusHistory w)
  /\ completed <> failed
  /\ ~ edge completed failed
  /\ storedStatus w = Some failed
  /\ ~ In completed (World.storedHistory w).
Proof.
  cbv zeta. split; [|split; [discriminate|split; [|split]]].
  - exists [pending; cloning; cloning; analyzing; analyzing; analyzing; analyzing], [].
    vm_compute. reflexivity.
  - intros H. inversion H as [| | |s Hs]; subst. apply Hs. left. reflexivity.
  - vm_compute. reflexivity.
  - vm_compute. intuition discriminate.
Qed.

(** ** Alerts for high-risk commits *)

Lemma Qgtb_lt (x y : Q) : Qgtb x y = true <-> (y < x)%Q.
Proof.
  unfold Qgtb. destruct (Qle_bool x y) eqn:E; cbn.
  - apply Qle_bool_iff in E. split; [discriminate | intros H; exfalso; lra].
  - apply Qle_bool_false in E. split; auto.
Qed.

Lemma addAlert_alerts env alertData w :
  let r := AnalysisEngine.addAlert env alertData w in
  Job.alerts (World.job (snd r)) = (Job.alerts (World.job w) ++ [alertData])%list
  /\ Job.commits (World.job (snd r)) = Job.commits (World.job w).
Proof.
  cbv beta iota zeta delta [AnalysisEngine.addAlert bind modify_job AnalysisEngine.save
    AnalysisEngine.save_document get_job].
  cbn [World.saves World.with_job World.job fst snd].
  destruct (Env.save_result env (World.saves w)); cbn; auto.
Qed.

Lemma emitAlert_alerts env jobId alert w :
  let r := AnalysisEngine.emitAlert env jobId alert w in
  fst r = Return tt
  /\ Job.commits (World.job (snd r)) = Job.commits (World.job w)
  /\ (Job.alerts (World.job (snd r)) = Job.alerts (World.job w)
      \/ Job.alerts (World.job (snd r)) = (Job.alerts (World.job w) ++ [alert])%list).
Proof.
  cbv beta iota zeta delta [AnalysisEngine.emitAlert try_catch bind
    AnalysisEngine.activeJobs_has AnalysisEngine.addAlert AnalysisEngine.found_addAlert
    AnalysisEngine.findOne modify_job AnalysisEngine.save AnalysisEngine.save_document
    get_job emit ret].
  cbn [World.saves World.with_job World.job World.stored World.activeJobs fst snd].
  destruct (bool_decide (jobId ∈ World.activeJobs w)).
  - destruct (Env.save_result env (World.saves w)); cbn; auto.
  - destruct (World.stored w) as [doc|]; [|cbn; auto].
    destruct (String.eqb (Job.jobId doc) jobId); [|cbn; auto].
    destruct (Env.save_result env (World.saves w)); cbn; auto.
Qed.

Lemma emitLog_alerts env jobId level message source w :
  let r := AnalysisEngine.emitLog env jobId level message source w in
  fst r = Return tt
  /\ Job.commits (World.job (snd r)) = Job.commits (World.job w)
  /\ Job.alerts (World.job (snd r)) = Job.alerts (World.job w).
Proof.
  cbv beta iota zeta delta [AnalysisEngine.emitLog try_catch bind
    AnalysisEngine.activeJobs_has AnalysisEngine.addLog AnalysisEngine.found_addLog
    AnalysisEngine.findOne modify_job AnalysisEngine.save AnalysisEngine.save_document
    get_job emit ret].
  cbn [World.saves World.with_job World.job World.stored World.activeJobs fst snd].
  destruct (bool_decide (jobId ∈ World.activeJobs w)).
  - destruct (Env.save_result env (World.saves w)); cbn; auto.
  - destruct (World.stored w) as [doc|]; [|cbn; auto].
    destruct (String.eqb (Job.jobId doc) jobId); [|cbn; auto].
    destruct (Env.save_result env (World.saves w)); cbn; auto.
Qed.

(** What [processCommit] does to the job's commits and alerts. *)
Lemma processCommit_alerts env jobId commit w :
  let riskScore :=
    default 0%Q (Analysis.riskScore (AIService.analyzeCommit (Env.oracle env) commit)) in
  let w' := snd (AnalysisEngine.processCommit env jobId commit w) in
  exists classified appended,
    Job.commits (World.job w') = (Job.commits (World.job w) ++ [classified])%list
    /\ Commit.hash classified = Commit.hash commit
    /\ Commit.riskScore classified = riskScore
    /\ Commit.aiAnalysis classified
       = Some (Verdict.mk
                 (Analysis.summary (AIService.analyzeCommit (Env.oracle env) commit))
                 (default [] (Analysis.threats
                                (AIService.analyzeCommit (Env.oracle env) commit)))
                 (sanitizeConfidence (Env.parseFloat env)
                    (Analysis.confidence
                       (AIService.analyzeCommit (Env.oracle env) commit))))
    /\ Job.alerts (World.job w') = (Job.alerts (World.job w) ++ appended)%list
    /\ (appended <> [] <-> (70 < riskScore)%Q)
    /\ (forall alert, In alert appended ->
          Alert.type alert = type_commit
          /\ ((90 < riskScore)%Q -> Alert.severity alert = sev_critical)
          /\ (~ (90 < riskScore)%Q -> Alert.severity alert = sev_high)).
Proof.
  cbv zeta.
  set (riskScore :=
         default 0%Q (Analysis.riskScore (AIService.analyzeCommit (Env.oracle env) commit))).
  assert (Hsev : forall alert : Alert.t,
             Alert.type alert = type_commit ->
             Alert.severity alert = (if Qgtb riskScore 90 then sev_critical else sev_high) ->
             Alert.type alert = type_commit
             /\ ((90 < riskScore)%Q -> Alert.severity alert = sev_critical)
             /\ (~ (90 < riskScore)%Q -> Alert.severity alert = sev_high)).
  { intros alert Ht Hs. split; [exact Ht|]. rewrite Hs.
    destruct (Qgtb riskScore 90) eqn:E90.
    - apply Qgtb_lt in E90. split; [reflexivity | contradiction].
    - split; [|reflexivity]. intros H. apply Qgtb_lt in H. congruence. }
  cbv beta iota zeta delta [AnalysisEngine.processCommit try_catch bind modify_job ret].
  cbn [World.with_job World.job fst snd Commit.riskScore Commit.hash Commit.author
       Commit.message].
  fold riskScore.
  destruct (Qgtb riskScore 70) eqn:E70.
  - assert (H70 : (70 < riskScore)%Q) by (apply Qgtb_lt; exact E70).
    match goal with
    | |- context [AnalysisEngine.addAlert env ?a1 ?w1] =>
        pose proof (addAlert_alerts env a1 w1) as [Ha1 Hc1];
        destruct (AnalysisEngine.addAlert env a1 w1) as [[[]|e1] w2]; cbn [fst snd] in *
    end.
    + match goal with
      | |- context [AnalysisEngine.emitAlert env ?i ?a2 w2] =>
          pose proof (emitAlert_alerts env i a2 w2) as (Hr2 & Hc2 & Ha2);
          destruct (AnalysisEngine.emitAlert env i a2 w2) as [[[]|e2] w3];
          cbn [fst snd] in *; [|discriminate]
      end.
      match goal with
      | |- context [AnalysisEngine.emitLog env ?i ?l ?m ?s w3] =>
          pose proof (emitLog_alerts env i l m s w3) as (Hr3 & Hc3 & Ha3);
          destruct (AnalysisEngine.emitLog env i l m s w3) as [[[]|e3] w4];
          cbn [fst snd] in *; [|discriminate]
      end.
      rewrite Hc3, Hc2, Hc1, Ha3. cbn.
      eexists. destruct Ha2 as [Ha2|Ha2]; rewrite Ha2, Ha1.
      * eexists. split; [reflexivity|]. cbn.
        split; [reflexivity|]. split; [reflexivity|]. split; [reflexivity|].
        split; [reflexivity|].
        split; [split; [intros _; exact H70 | discriminate]|].
        intros alert [<-|[]]. apply Hsev; reflexivity.
      * rewrite <- app_assoc. eexists. split; [reflexivity|]. cbn.
        split; [reflexivity|]. split; [reflexivity|]. split; [reflexivity|].
        split; [reflexivity|].
        split; [split; [intros _; exact H70 | discriminate]|].
        intros alert [<-|[<-|[]]]; apply Hsev; reflexivity.
    + rewrite Hc1, Ha1. cbn. eexists. eexists. split; [reflexivity|]. cbn.
      split; [reflexivity|]. split; [reflexivity|]. split; [reflexivity|].
      split; [reflexivity|].
      split; [split; [intros _; exact H70 | discriminate]|].
      intros alert [<-|[]]. apply Hsev; reflexivity.
  - assert (H70 : ~ (70 < riskScore)%Q)
      by (intros H; apply Qgtb_lt in H; congruence).
    match goal with
    | |- context [AnalysisEngine.emitLog env ?i ?l ?m ?s ?w1] =>
        pose proof (emitLog_alerts env i l m s w1) as (Hr3 & Hc3 & Ha3);
        destruct (AnalysisEngine.emitLog env i l m s w1) as [[[]|e3] w4];
        cbn [fst snd] in *; [|discriminate]
    end.
    rewrite Hc3, Ha3. cbn. eexists. exists []. rewrite app_nil_r.
    split; [reflexivity|]. cbn.
    split; [reflexivity|]. split; [reflexivity|]. split; [reflexivity|].
    split; [reflexivity|].
    split; [split; [congruence | contradiction]|].
    intros alert [].
Qed.

(** *** The commits and their alerts over a run *)

Lemma alerts_pushed_refl P w : alerts_pushed P w w.
Proof. repeat split. exists []. rewrite app_nil_r. split; [reflexivity | constructor]. Qed.

Lemma alerts_pushed_trans P a b c :
  alerts_pushed P a b -> alerts_pushed P b c -> alerts_pushed P a c.
Proof.
  intros (Hi & Hu & Hc & l & Ha & Hl) (Hi' & Hu' & Hc' & l' & Ha' & Hl').
  split; [congruence|]. split; [congruence|]. split; [congruence|].
  exists (l ++ l')%list. rewrite Ha', Ha, app_assoc.
  split; [reflexivity | apply Forall_app; auto].
Qed.

Lemma alerts_pushed_same_job P w w' : World.job w' = World.job w -> alerts_pushed P w w'.
Proof. intros H. unfold alerts_pushed. rewrite H. apply alerts_pushed_refl. Qed.

(** Steps that leave the job as it is, or change other fields of it. *)
Lemma pushed_modify P f :
  (forall j, Job.jobId (f j) = Job.jobId j /\ Job.repoUrl (f j) = Job.repoUrl j
             /\ Job.commits (f j) = Job.commits j /\ Job.alerts (f j) = Job.alerts j) ->
  preserved (alerts_pushed P) (modify_job f).
Proof.
  intros Hf w. destruct (Hf (World.job w)) as (Hi & Hu & Hc & Ha).
  unfold alerts_pushed. cbn. rewrite Hi, Hu, Hc, Ha. apply alerts_pushed_refl.
Qed.

Lemma pushed_save_document P env doc :
  preserved (alerts_pushed P) (AnalysisEngine.save_document env doc).
Proof.
  intros w. unfold AnalysisEngine.save_document.
  destruct (Env.save_result env (World.saves w)); apply alerts_pushed_same_job; reflexivity.
Qed.

Lemma pushed_save P env : preserved (alerts_pushed P) (AnalysisEngine.save env).
Proof. intros w. apply (pushed_save_document P env (World.job w) w). Qed.

Lemma pushed_emit P event : preserved (alerts_pushed P) (emit event).
Proof. intros w. apply alerts_pushed_same_job. reflexivity. Qed.

Lemma pushed_assign_status P status : preserved (alerts_pushed P) (assign_status status).
Proof. intros w. unfold alerts_pushed. cbn. apply alerts_pushed_refl. Qed.

Lemma pushed_assign_progress P progress :
  preserved (alerts_pushed P) (assign_progress progress).
Proof. intros w. unfold alerts_pushed. cbn. apply alerts_pushed_refl. Qed.

Lemma pushed_cleanup P jobId : preserved (alerts_pushed P) (githubService_cleanup jobId).
Proof. intros w. apply alerts_pushed_same_job. reflexivity. Qed.

Lemma pushed_delete P jobId : preserved (alerts_pushed P) (activeJobs_delete jobId).
Proof. intros w. apply alerts_pushed_same_job. reflexivity. Qed.

Lemma pushed_found_addLog P env jobId entry :
  preserved (alerts_pushed P) (AnalysisEngine.found_addLog env jobId entry).
Proof.
  intros w. unfold AnalysisEngine.found_addLog, bind, AnalysisEngine.findOne. cbn.
  destruct (World.stored w) as [doc|]; [|apply alerts_pushed_refl].
  destruct (String.eqb (Job.jobId doc) jobId); [|apply alerts_pushed_refl].
  apply pushed_save_document.
Qed.

Lemma pushed_found_addAlert P env jobId alert :
  preserved (alerts_pushed P) (AnalysisEngine.found_addAlert env jobId alert).
Proof.
  intros w. unfold AnalysisEngine.found_addAlert, bind, AnalysisEngine.findOne. cbn.
  destruct (World.stored w) as [doc|]; [|apply alerts_pushed_refl].
  destruct (String.eqb (Job.jobId doc) jobId); [|apply alerts_pushed_refl].
  apply pushed_save_document.
Qed.

Lemma pushed_addAlert (P : Alert.t -> Prop) env alert :
  P alert -> preserved (alerts_pushed P) (AnalysisEngine.addAlert env alert).
Proof.
  intros HP. unfold AnalysisEngine.addAlert.
  apply preserved_bind; [apply alerts_pushed_trans | | intros _; apply pushed_save].
  intros w. repeat split. exists [alert]. split; [reflexivity | constructor; [exact HP | constructor]].
Qed.

Ltac pushed_step side :=
  cbv beta zeta;
  lazymatch goal with
  | |- preserved _ (bind _ _) =>
      apply preserved_bind; [apply alerts_pushed_trans | | intros ?]
  | |- preserved _ (try_catch _ _) =>
      apply preserved_try_catch; [apply alerts_pushed_trans | | intros ?]
  | |- preserved _ (forEach _ _) =>
      apply preserved_forEach;
      [apply alerts_pushed_refl | apply alerts_pushed_trans | intros ?]
  | |- preserved _ (ret _) => apply preserved_ret; apply alerts_pushed_refl
  | |- preserved _ (throw _) => apply preserved_throw; apply alerts_pushed_refl
  | |- preserved _ get_job => apply preserved_get_job; apply alerts_pushed_refl
  | |- preserved _ (AnalysisEngine.findOne _) =>
      apply preserved_findOne; apply alerts_pushed_refl
  | |- preserved _ (AnalysisEngine.activeJobs_has _) =>
      apply preserved_activeJobs_has; apply alerts_pushed_refl
  | |- preserved _ (modify_job _) =>
      apply pushed_modify; intros ?; repeat split; reflexivity
  | |- preserved _ (emit _) => apply pushed_emit
  | |- preserved _ (assign_status _) => apply pushed_assign_status
  | |- preserved _ (assign_progress _) => apply pushed_assign_progress
  | |- preserved _ (githubService_cleanup _) => apply pushed_cleanup
  | |- preserved _ (activeJobs_delete _) => apply pushed_delete
  | |- preserved _ (AnalysisEngine.save _) => apply pushed_save
  | |- preserved _ (AnalysisEngine.found_addLog _ _ _) => apply pushed_found_addLog
  | |- preserved _ (AnalysisEngine.found_addAlert _ _ _) => apply pushed_found_addAlert
  | |- preserved _ (AnalysisEngine.addAlert _ _) => apply pushed_addAlert; side
  | |- preserved _ (if ?b then _ else _) => destruct b
  | |- preserved _ (match ?x with _ => _ end) => destruct x
  end.

Ltac not_commit := cbv beta; cbn [Alert.type]; discriminate.

Lemma pushed_addLog P env level message source :
  preserved (alerts_pushed P) (AnalysisEngine.addLog env level message source).
Proof. unfold AnalysisEngine.addLog. repeat pushed_step idtac. Qed.

Lemma pushed_emitLog P env jobId level message source :
  preserved (alerts_pushed P) (AnalysisEngine.emitLog env jobId level message source).
Proof.
  unfold AnalysisEngine.emitLog. repeat first [apply pushed_addLog | pushed_step idtac].
Qed.

Lemma pushed_emitAlert (P : Alert.t -> Prop) env jobId alert :
  P alert -> preserved (alerts_pushed P) (AnalysisEngine.emitAlert env jobId alert).
Proof. intros HP. unfold AnalysisEngine.emitAlert. repeat pushed_step assumption. Qed.

Lemma pushed_updateJobStatus P env status progress :
  preserved (alerts_pushed P) (AnalysisEngine.updateJobStatus env status progress).
Proof.
  unfold AnalysisEngine.updateJobStatus.
  repeat first [apply pushed_addLog | pushed_step idtac].
Qed.

(** Steps of the engine's methods, with [side] for the alerts they push. *)
Ltac pushed_call side :=
  cbv beta zeta;
  lazymatch goal with
  | |- preserved _ (AnalysisEngine.emitLog _ _ _ _ _) => apply pushed_emitLog
  | |- preserved _ (AnalysisEngine.emitAlert _ _ _) => apply pushed_emitAlert; side
  | |- preserved _ (AnalysisEngine.updateJobStatus _ _ _) => apply pushed_updateJobStatus
  | |- preserved _ (AnalysisEngine.addLog _ _ _ _) => apply pushed_addLog
  | _ => pushed_step side
  end.

Ltac kept := repeat pushed_call not_commit.

Lemma kept_processDependency env jobId dependency :
  preserved commits_kept (AnalysisEngine.processDependency env jobId dependency).
Proof. unfold AnalysisEngine.processDependency. kept. Qed.

Lemma kept_analyzeDependencies env repoInfo :
  preserved commits_kept (AnalysisEngine.analyzeDependencies env repoInfo).
Proof.
  unfold AnalysisEngine.analyzeDependencies.
  repeat first [apply kept_processDependency | pushed_call not_commit].
Qed.

Lemma kept_runAIAnalysis env : preserved commits_kept (AnalysisEngine.runAIAnalysis env).
Proof. unfold AnalysisEngine.runAIAnalysis. kept. Qed.

Lemma kept_calculateRiskScore env :
  preserved commits_kept (AnalysisEngine.calculateRiskScore env).
Proof. unfold AnalysisEngine.calculateRiskScore. kept. Qed.

Lemma kept_generateFinalAssessment env :
  preserved commits_kept (AnalysisEngine.generateFinalAssessment env).
Proof. unfold AnalysisEngine.generateFinalAssessment. kept. Qed.

Ltac kept_method :=
  lazymatch goal with
  | |- preserved _ (AnalysisEngine.analyzeDependencies _ _) => apply kept_analyzeDependencies
  | |- preserved _ (AnalysisEngine.runAIAnalysis _) => apply kept_runAIAnalysis
  | |- preserved _ (AnalysisEngine.calculateRiskScore _) => apply kept_calculateRiskScore
  | |- preserved _ (AnalysisEngine.generateFinalAssessment _) =>
      apply kept_generateFinalAssessment
  | _ => kept
  end.

(** What [processCommit] does to the job's id, address and commits. *)
Lemma processCommit_job env jobId commit w :
  let w' := snd (AnalysisEngine.processCommit env jobId commit w) in
  Job.jobId (World.job w') = Job.jobId (World.job w)
  /\ Job.repoUrl (World.job w') = Job.repoUrl (World.job w)
  /\ Job.commits (World.job w')
     = (Job.commits (World.job w) ++ [analyzedCommit env commit])%list.
Proof.
  cbv zeta. cbv beta iota zeta delta [AnalysisEngine.processCommit].
  match goal with
  | |- context [try_catch (bind (modify_job ?f) ?K) ?H w] =>
      change (try_catch (bind (modify_job f) K) H w)
        with (try_catch (K tt) H (World.with_job f w));
      assert (Hp : preserved (alerts_pushed (fun _ => True)) (try_catch (K tt) H));
      [| destruct (Hp (World.with_job f w)) as (Hi & Hu & Hc & _) ]
  end.
  { repeat pushed_call ltac:(exact I). }
  rewrite Hi, Hu, Hc. repeat split.
Qed.

Lemma commitAlerts_app (xs ys : list Alert.t) :
  commitAlerts (xs ++ ys) = (commitAlerts xs ++ commitAlerts ys)%list.
Proof. apply List.filter_app. Qed.

Lemma commitAlerts_others (alerts : list Alert.t) :
  Forall (fun alert => Alert.type alert <> type_commit) alerts -> commitAlerts alerts = [].
Proof.
  induction 1 as [|alert alerts Ha _ IH]; [reflexivity|].
  cbn. destruct (Alert.type alert); try exact IH. contradiction.
Qed.

Lemma commitAlerts_all (alerts : list Alert.t) :
  (forall alert, In alert alerts -> Alert.type alert = type_commit) ->
  commitAlerts alerts = alerts.
Proof.
  induction alerts as [|alert alerts IH]; intros H; [reflexivity|].
  cbn. rewrite (H alert) by (left; reflexivity). f_equal. apply IH.
  intros a Ha. apply H. right. exact Ha.
Qed.

Lemma processed_nil env w w' : commits_kept w w' -> commits_processed env [] w w'.
Proof.
  intros (Hi & Hu & Hc & l & Ha & Hl). split; [exact Hi|]. split; [exact Hu|].
  split; [cbn; rewrite app_nil_r; exact Hc|].
  exists []. split; [constructor|].
  rewrite Ha, commitAlerts_app, (commitAlerts_others l Hl). reflexivity.
Qed.

Lemma processed_app env cs cs' w0 w w' :
  commits_processed env cs w0 w -> commits_processed env cs' w w' ->
  commits_processed env (cs ++ cs') w0 w'.
Proof.
  intros (Hi & Hu & Hc & l & Hl & Ha) (Hi' & Hu' & Hc' & l' & Hl' & Ha').
  split; [congruence|]. split; [congruence|].
  split; [rewrite Hc', Hc, map_app, app_assoc; reflexivity|].
  exists (l ++ l')%list. split; [apply Forall2_app; assumption|].
  rewrite Ha', Ha, concat_app, app_assoc. reflexivity.
Qed.

Lemma processed_kept env cs w0 w w' :
  commits_processed env cs w0 w -> commits_kept w w' -> commits_processed env cs w0 w'.
Proof.
  intros H Hk. rewrite <- (app_nil_r cs).
  eapply processed_app; [exact H | apply processed_nil, Hk].
Qed.

Lemma processCommit_processed env jobId commit w :
  commits_processed env [commit] w (snd (AnalysisEngine.processCommit env jobId commit w)).
Proof.
  destruct (processCommit_job env jobId commit w) as (Hi & Hu & Hc).
  destruct (processCommit_alerts env jobId commit w)
    as (_ & appended & _ & _ & _ & _ & Ha & Hiff & Hsev).
  split; [exact Hi|]. split; [exact Hu|]. split; [exact Hc|].
  exists [appended]. split.
  - constructor; [|constructor]. split; [exact Hiff | exact Hsev].
  - rewrite Ha, commitAlerts_app. cbn [List.concat]. rewrite app_nil_r.
    rewrite (commitAlerts_all appended); [reflexivity|].
    intros alert Hin. apply (Hsev alert Hin).
Qed.

(** A step that keeps the commits, before the steps [k]. *)
Lemma step_kept {A B} (P : World.t -> Prop) (m : Async A) (k : A -> Async B) Q :
  preserved commits_kept m ->
  (forall w w', P w -> commits_kept w w' -> P w') ->
  (forall a, triple P (k a) Q (fun _ _ => True)) ->
  triple P (bind m k) Q (fun _ _ => True).
Proof.
  intros Hm HP Hk w Hw. unfold bind. specialize (Hm w).
  destruct (m w) as [[a|message] w']; cbn in Hm; [|exact I].
  apply Hk. eapply HP; eassumption.
Qed.

Lemma last_kept {A} (P : World.t -> Prop) (m : Async A) :
  preserved commits_kept m ->
  (forall w w', P w -> commits_kept w w' -> P w') ->
  triple P m (fun _ w => P w) (fun _ _ => True).
Proof.
  intros Hm HP w Hw. specialize (Hm w).
  destruct (m w) as [[a|message] w']; cbn in Hm; [|exact I].
  eapply HP; eassumption.
Qed.

(** A handler that throws again. *)
Lemma triple_rethrow {A B} (P : World.t -> Prop) (m : Async A) (message : string)
    (Q : B -> World.t -> Prop) :
  triple P (m ;; throw message) Q (fun _ _ => True).
Proof.
  intros w _. unfold bind. destruct (m w) as [[a|e] w']; exact I.
Qed.

Lemma kept_stable w0 w w' : commits_kept w0 w -> commits_kept w w' -> commits_kept w0 w'.
Proof. apply alerts_pushed_trans. Qed.

Lemma forEach_processCommit env jobId w0 (batch done : list Commit.t) :
  triple (fun w => commits_processed env done w0 w)
    (forEach batch (AnalysisEngine.processCommit env jobId))
    (fun _ w => commits_processed env (done ++ batch) w0 w)
    (fun _ _ => True).
Proof.
  revert done. induction batch as [|commit batch IH]; intros done.
  - intros w Hw. cbn. rewrite app_nil_r. exact Hw.
  - cbn [forEach]. intros w Hw. unfold bind.
    pose proof (processCommit_processed env jobId commit w) as Hc.
    destruct (AnalysisEngine.processCommit env jobId commit w) as [[[]|message] w1];
      cbn [snd] in Hc; [|exact I].
    replace (done ++ commit :: batch)%list with ((done ++ [commit]) ++ batch)%list
      by (rewrite <- app_assoc; reflexivity).
    apply IH. eapply processed_app; eassumption.
Qed.

Lemma forEach_batches env jobId w0 (commits : list Commit.t) (starts : list nat)
    (done : list Commit.t) :
  triple (fun w => commits_processed env done w0 w)
    (forEach starts
       (fun i =>
          forEach (take batchSize (drop i commits)) (AnalysisEngine.processCommit env jobId) ;;
          AnalysisEngine.updateJobStatus env analyzing (batchProgress (length commits) i)))
    (fun _ w =>
       commits_processed env
         (done ++ List.concat (map (fun i => take batchSize (drop i commits)) starts)) w0 w)
    (fun _ _ => True).
Proof.
  revert done. induction starts as [|i starts IH]; intros done.
  - intros w Hw. cbn. rewrite app_nil_r. exact Hw.
  - cbn [forEach map List.concat]. rewrite app_assoc.
    apply triple_bind with
      (Q := fun _ w =>
              commits_processed env (done ++ take batchSize (drop i commits)) w0 w);
      [|intros _; apply IH].
    apply triple_bind with
      (Q := fun _ w =>
              commits_processed env (done ++ take batchSize (drop i commits)) w0 w);
      [apply forEach_processCommit | intros _].
    apply last_kept; [kept|].
    intros w w'. apply processed_kept.
Qed.

(** The batches of [analyzeCommits], one after the other, are the commits. *)
Lemma batches_concat {A} (l : list A) :
  List.concat (map (fun i => take batchSize (drop i l)) (batchStarts (length l))) = l.
Proof.
  unfold batchStarts. rewrite map_map.
  assert (H : forall m,
             List.concat (map (fun k => take batchSize (drop (k * batchSize) l)) (seq 0 m))
             = take (m * batchSize) l).
  { induction m as [|m IH]; [reflexivity|].
    rewrite seq_S, map_app, concat_app, IH. cbn [map List.concat Nat.add].
    rewrite app_nil_r, take_take_drop. f_equal. lia. }
  rewrite H. apply take_ge. unfold batchSize.
  pose proof (Nat.div_mod_eq (length l + 5 - 1) 5) as Hdiv.
  pose proof (Nat.mod_upper_bound (length l + 5 - 1) 5 ltac:(lia)). lia.
Qed.

(** [cloneRepository] returns what the fetcher returned. *)
Lemma cloneRepository_kept env w0 :
  triple (fun w => commits_kept w0 w)
    (AnalysisEngine.cloneRepository env)
    (fun repoInfo w =>
       Env.cloneRepository env (Job.repoUrl (World.job w0)) (Job.jobId (World.job w0))
       = Return repoInfo
       /\ commits_kept w0 w)
    (fun _ _ => True).
Proof.
  intros w Hw. pose proof Hw as (Hi & Hu & _).
  unfold AnalysisEngine.cloneRepository. unfold bind at 1. cbn [get_job].
  rewrite Hi, Hu. clear Hi Hu. revert w Hw.
  match goal with
  | |- forall w, _ -> match ?m w with _ => _ end =>
      change (triple (fun w => commits_kept w0 w) m
                (fun repoInfo w =>
                   Env.cloneRepository env (Job.repoUrl (World.job w0))
                     (Job.jobId (World.job w0)) = Return repoInfo
                   /\ commits_kept w0 w)
                (fun _ _ => True))
  end.
  apply triple_try_catch with (E' := fun _ _ => True);
    [|intros message; apply triple_rethrow].
  apply step_kept; [kept | apply kept_stable | intros _].
  destruct (Env.cloneRepository env (Job.repoUrl (World.job w0)) (Job.jobId (World.job w0)))
    as [repoInfo|message].
  - match goal with
    | |- triple _ (bind (ret repoInfo) ?k) _ _ => change (bind (ret repoInfo) k) with (k repoInfo)
    end.
    cbv beta.
    apply step_kept; [kept | apply kept_stable | intros _].
    apply step_kept; [kept | apply kept_stable | intros _].
    apply step_kept; [kept | apply kept_stable | intros _].
    intros w Hw. split; [reflexivity | exact Hw].
  - intros w _. exact I.
Qed.

(** [analyzeCommits] analyses the commits the fetcher returned. *)
Lemma analyzeCommits_processed env repoInfo w0 :
  triple (fun w => commits_kept w0 w)
    (AnalysisEngine.analyzeCommits env repoInfo)
    (fun _ w =>
       exists commits,
         Env.analyzeCommits env (RepoInfo.localPath repoInfo) = Return commits
         /\ commits_processed env commits w0 w)
    (fun _ _ => True).
Proof.
  intros w Hw. unfold AnalysisEngine.analyzeCommits. unfold bind at 1. cbn [get_job].
  cbv zeta. generalize (Job.jobId (World.job w)). intros jobId.
  revert w Hw.
  match goal with
  | |- forall w, _ -> match ?m w with _ => _ end =>
      change (triple (fun w => commits_kept w0 w) m
                (fun _ w =>
                   exists commits,
                     Env.analyzeCommits env (RepoInfo.localPath repoInfo) = Return commits
                     /\ commits_processed env commits w0 w)
                (fun _ _ => True))
  end.
  apply triple_try_catch with (E' := fun _ _ => True);
    [|intros message; apply triple_rethrow].
  destruct (Env.analyzeCommits env (RepoInfo.localPath repoInfo)) as [commits|message].
  - match goal with
    | |- triple _ (bind (ret commits) ?k) _ _ => change (bind (ret commits) k) with (k commits)
    end.
    cbv beta.
    apply step_kept; [kept | apply kept_stable | intros _].
    apply triple_bind with (Q := fun _ w => commits_processed env commits w0 w).
    + eapply triple_conseq;
        [apply (forEach_batches env jobId w0 commits (batchStarts (length commits)) [])
        | intros w Hw; apply processed_nil, Hw
        | intros a w Hw; cbn [app] in Hw; rewrite batches_concat in Hw; exact Hw
        | auto].
    + intros _.
      apply step_kept; [kept | intros w w'; apply processed_kept | intros _].
      intros w Hw. exists commits. split; [reflexivity | exact Hw].
  - intros w _. exact I.
Qed.

(** A run that returns has analysed the commits the fetcher listed for the
    repository it cloned, and nothing else has touched the job's commits or
    pushed an alert about a commit. *)
Lemma runAnalysis_try_commits env jobId w0 :
  triple (fun w => commits_kept w0 w)
    (AnalysisEngine.runAnalysis_try env jobId)
    (fun _ w =>
       exists repoInfo commits,
         Env.cloneRepository env (Job.repoUrl (World.job w0)) (Job.jobId (World.job w0))
         = Return repoInfo
         /\ Env.analyzeCommits env (RepoInfo.localPath repoInfo) = Return commits
         /\ commits_processed env commits w0 w)
    (fun _ _ => True).
Proof.
  unfold AnalysisEngine.runAnalysis_try.
  apply step_kept; [kept | apply kept_stable | intros _].
  apply step_kept; [kept | apply kept_stable | intros _].
  eapply triple_bind; [apply cloneRepository_kept | intros repoInfo].
  assert (Hclone : forall w w',
             Env.cloneRepository env (Job.repoUrl (World.job w0)) (Job.jobId (World.job w0))
             = Return repoInfo /\ commits_kept w0 w ->
             commits_kept w w' ->
             Env.cloneRepository env (Job.repoUrl (World.job w0)) (Job.jobId (World.job w0))
             = Return repoInfo /\ commits_kept w0 w').
  { intros w w' [H Hk] Hk'. split; [exact H | eapply kept_stable; eassumption]. }
  apply step_kept; [kept | exact Hclone | intros _].
  apply step_kept; [kept | exact Hclone | intros _].
  eapply triple_bind with
    (Q := fun _ w =>
            exists repoInfo commits,
              Env.cloneRepository env (Job.repoUrl (World.job w0)) (Job.jobId (World.job w0))
              = Return repoInfo
              /\ Env.analyzeCommits env (RepoInfo.localPath repoInfo) = Return commits
              /\ commits_processed env commits w0 w).
  { intros w [Hc Hk]. pose proof (analyzeCommits_processed env repoInfo w0 w Hk) as H.
    destruct (AnalysisEngine.analyzeCommits env repoInfo w) as [[a|message] w']; [|exact I].
    destruct H as (commits & Hf & Hp). exists repoInfo, commits. auto. }
  intros _.
  assert (Hdone : forall w w',
             (exists repoInfo commits,
                 Env.cloneRepository env (Job.repoUrl (World.job w0))
                   (Job.jobId (World.job w0)) = Return repoInfo
                 /\ Env.analyzeCommits env (RepoInfo.localPath repoInfo) = Return commits
                 /\ commits_processed env commits w0 w) ->
             commits_kept w w' ->
             exists repoInfo commits,
               Env.cloneRepository env (Job.repoUrl (World.job w0))
                 (Job.jobId (World.job w0)) = Return repoInfo
               /\ Env.analyzeCommits env (RepoInfo.localPath repoInfo) = Return commits
               /\ commits_processed env commits w0 w').
  { intros w w' (r & commits & Hc & Hf & Hp) Hk. exists r, commits.
    split; [exact Hc|]. split; [exact Hf|]. eapply processed_kept; eassumption. }
  repeat lazymatch goal with
         | |- triple _ (bind _ _) _ _ =>
             apply step_kept; [kept_method | exact Hdone | intros ?]
         end.
  apply last_kept; [kept | exact Hdone].
Qed.

Lemma startAnalysis_job env docker jobId repoUrl :
  World.job (snd (AnalysisEngine.startAnalysis env (World.init docker jobId repoUrl)))
  = Job.new jobId repoUrl.
Proof.
  cbv beta iota zeta delta [AnalysisEngine.startAnalysis bind get_job
    AnalysisEngine.save AnalysisEngine.save_document activeJobs_set World.init].
  cbn [World.saves World.job].
  destruct (Env.save_result env 0%nat); reflexivity.
Qed.

(** The commits and the commit alerts of a job whose run completed. *)
Lemma completed_run_commits env docker jobId repoUrl :
  let w := snd (lifetime env docker jobId repoUrl) in
  Job.status (World.job w) = completed ->
  exists repoInfo commits,
    Env.cloneRepository env repoUrl jobId = Return repoInfo
    /\ Env.analyzeCommits env (RepoInfo.localPath repoInfo) = Return commits
    /\ commits_processed env commits
         (snd (AnalysisEngine.startAnalysis env (World.init docker jobId repoUrl))) w.
Proof.
  cbv zeta. unfold lifetime, AnalysisEngine.submit, bind.
  pose proof (startAnalysis_spec env docker jobId repoUrl) as Hstart.
  pose proof (startAnalysis_job env docker jobId repoUrl) as Hjob.
  destruct (AnalysisEngine.startAnalysis env (World.init docker jobId repoUrl))
    as [[[]|rejection] w1]; cbn [snd] in *.
  - destruct Hstart as (HS & Hid).
    unfold AnalysisEngine.backgroundRun, try_catch.
    pose proof (runAnalysis_spec env w1 HS) as Hrun. cbv zeta in Hrun.
    revert Hrun.
    unfold AnalysisEngine.runAnalysis, bind, try_catch. cbn [get_job].
    pose proof (triple_runAnalysis_try env (Job.jobId (World.job w1)) w1 HS) as Htry.
    pose proof (runAnalysis_try_commits env (Job.jobId (World.job w1)) w1 w1
                  (alerts_pushed_refl _ w1)) as Hcommits.
    destruct (AnalysisEngine.runAnalysis_try env (Job.jobId (World.job w1)) w1)
      as [[[]|message] w2]; cbn [fst snd].
    + intros _ _. rewrite Hjob in Hcommits. exact Hcommits.
    + pose proof (handleAnalysisError_spec env message w2 Htry) as [Hr Hf].
      destruct (AnalysisEngine.handleAnalysisError env message w2) as [[[]|e] w3];
        cbn [fst snd] in *; [|discriminate].
      intros _ Hcompleted. destruct Hf as (_ & Hst & _). congruence.
  - intros Hcompleted. destruct Hstart as (Hst & _). congruence.
Qed.

Lemma filter_map_length {A B} (f : A -> B) (p : B -> bool) (l : list A) :
  length (List.filter p (map f l)) = length (List.filter (fun a => p (f a)) l).
Proof.
  induction l as [|a l IH]; [reflexivity|].
  cbn. destruct (p (f a)); cbn; congruence.
Qed.

(** C10.  While commits are analysed, alerts are appended to the job for a
    commit if and only if its classified riskScore exceeds 70; each of them
    is a commit alert, critical when the riskScore exceeds 90 and high
    otherwise.  The [done] event of a run that completes carries, as
    commitIssues, the number of the job's commits with riskScore above 70.
    In a run that completes, the repository was cloned and the job's commits
    are the commits the fetcher listed for it, each with the riskScore the
    oracle gave it (0 when it gave none), in order; the job's commit alerts
    are the alerts of these commits, in order, and commitIssues is the
    number of the fetcher's commits the oracle scores above 70. *)
Theorem commit_alerts_and_commitIssues env docker jobId repoUrl :
  (forall id commit w,
     let riskScore :=
       default 0%Q (Analysis.riskScore (AIService.analyzeCommit (Env.oracle env) commit)) in
     let w' := snd (AnalysisEngine.processCommit env id commit w) in
     exists appended,
       Job.alerts (World.job w') = (Job.alerts (World.job w) ++ appended)%list
       /\ (appended <> [] <-> (70 < riskScore)%Q)
       /\ (forall alert, In alert appended ->
             Alert.type alert = type_commit
             /\ ((90 < riskScore)%Q -> Alert.severity alert = sev_critical)
             /\ (~ (90 < riskScore)%Q -> Alert.severity alert = sev_high)))
  /\ (let w := snd (lifetime env docker jobId repoUrl) in
      Job.status (World.job w) = completed ->
      exists payload,
        dones (World.emitted w) = [payload]
        /\ Done.commitIssues payload
           = length (List.filter (fun c => Qgtb (Commit.riskScore c) 70)
                       (Job.commits (World.job w))))
  /\ (let w := snd (lifetime env docker jobId repoUrl) in
      Job.status (World.job w) = completed ->
      exists repoInfo commits appended payload,
        Env.cloneRepository env repoUrl jobId = Return repoInfo
        /\ Env.analyzeCommits env (RepoInfo.localPath repoInfo) = Return commits
        /\ Job.commits (World.job w) = map (analyzedCommit env) commits
        /\ Forall2 (alerts_of_commit env) commits appended
        /\ commitAlerts (Job.alerts (World.job w)) = List.concat appended
        /\ dones (World.emitted w) = [payload]
        /\ Done.commitIssues payload
           = length (List.filter
                       (fun commit =>
                          Qgtb (default 0%Q
                                  (Analysis.riskScore
                                     (AIService.analyzeCommit (Env.oracle env) commit))) 70)
                       commits)).
Proof.
  assert (Hdone : let w := snd (lifetime env docker jobId repoUrl) in
                  Job.status (World.job w) = completed ->
                  dones (World.emitted w) = [successDone (World.job w)]).
  { cbv zeta. intros Hcompleted.
    destruct (lifetime_spec env docker jobId repoUrl)
      as [_ [(message & _ & Hp & _) | [_ [Hs | (message & Hf)]]]].
    - congruence.
    - destruct Hs as (_ & _ & _ & Hd & _). exact Hd.
    - destruct Hf as (_ & Hst & _). congruence. }
  cbv zeta in Hdone.
  split; [|split].
  - intros id commit w. cbv zeta.
    destruct (processCommit_alerts env id commit w)
      as (classified & appended & _ & _ & _ & _ & Ha & Hiff & Hsev).
    exists appended. auto.
  - cbv zeta. intros Hcompleted. rewrite (Hdone Hcompleted).
    eexists. split; reflexivity.
  - cbv zeta. intros Hcompleted.
    destruct (completed_run_commits env docker jobId repoUrl Hcompleted)
      as (repoInfo & commits & Hclone & Hfetch & _ & _ & Hc & appended & Hall & Ha).
    rewrite startAnalysis_job in Hc, Ha. cbn in Hc, Ha.
    exists repoInfo, commits, appended, (successDone (World.job (snd (lifetime env docker jobId repoUrl)))).
    split; [exact Hclone|]. split; [exact Hfetch|]. split; [exact Hc|].
    split; [exact Hall|]. split; [exact Ha|]. split; [exact (Hdone Hcompleted)|].
    cbn [successDone Done.commitIssues]. rewrite Hc.
    apply (filter_map_length (analyzedCommit env)).
Qed.

(** C10 on a repository with one commit that the oracle scores 80: the run
    completes, its [done] event counts the commits above 70, and the job's
    commits and commit alerts are those of the fetcher's commit. *)
Lemma commit_alerts_and_commitIssues_witness :
  let env := small_repository alarmed_oracle in
  let w := snd (lifetime env no_containers "job-1" "https://github.com/owner/repo") in
  Job.status (World.job w) = completed
  /\ (exists payload,
        dones (World.emitted w) = [payload]
        /\ Done.commitIssues payload
           = length (List.filter (fun c => Qgtb (Commit.riskScore c) 70)
                       (Job.commits (World.job w))))
  /\ exists repoInfo commits appended payload,
       Env.cloneRepository env "https://github.com/owner/repo" "job-1" = Return repoInfo
       /\ Env.analyzeCommits env (RepoInfo.localPath repoInfo) = Return commits
       /\ Job.commits (World.job w) = map (analyzedCommit env) commits
       /\ Forall2 (alerts_of_commit env) commits appended
       /\ commitAlerts (Job.alerts (World.job w)) = List.concat appended
       /\ dones (World.emitted w) = [payload]
       /\ Done.commitIssues payload
          = length (List.filter
                      (fun commit =>
                         Qgtb (default 0%Q
                                 (Analysis.riskScore
                                    (AIService.analyzeCommit (Env.oracle env) commit))) 70)
                      commits).
Proof.
  cbv zeta.
  assert (H : Job.status (World.job (snd (lifetime (small_repository alarmed_oracle)
                no_containers "job-1" "https://github.com/owner/repo"))) = completed)
    by (vm_compute; reflexivity).
  split; [exact H|].
  pose proof (commit_alerts_and_commitIssues (small_repository alarmed_oracle)
                no_containers "job-1" "https://github.com/owner/repo") as (_ & Hd & Hc).
  split; [exact (Hd H) | exact (Hc H)].
Defined.

(** The run on that repository, evaluated: one commit issue, and the two
    alerts of the commit (the one added directly, the one added while it is
    emitted), both high. *)
Example alarmed_run_evaluated :
  let w := snd (lifetime (small_repository alarmed_oracle) no_containers "job-1"
                  "https://github.com/owner/repo") in
  map Done.commitIssues (dones (World.emitted w)) = [1%nat]
  /\ map Alert.severity (Job.alerts (World.job w)) = [sev_high; sev_high]
  /\ map Commit.riskScore (Job.commits (World.job w)) = [80%Q].
Proof. vm_compute. repeat split. Qed.

(** ** The stored confidence *)

(** C9.  For every confidence value the oracle can supply - a number in
    [0,1], a number greater than 1, a numeric string, a string ending in
    '%', null or undefined - [sanitizeConfidence] returns a number in the
    interval [0,1], and that number is the confidence of the verdict stored
    on the commit. *)
Theorem sanitizeConfidence_in_unit (parseFloat : string -> Num) (value : JSValue) :
  SuppliedConfidence parseFloat value ->
  Num.in_unit (sanitizeConfidence parseFloat value)
  /\ forall env jobId commit w,
       Env.parseFloat env = parseFloat ->
       Analysis.confidence (AIService.analyzeCommit (Env.oracle env) commit) = value ->
       exists classified verdict,
         last (Job.commits (World.job (snd (AnalysisEngine.processCommit env jobId commit w))))
         = Some classified
         /\ Commit.aiAnalysis classified = Some verdict
         /\ Num.in_unit (Verdict.confidence verdict).
Proof.
  intros Hsupplied.
  assert (Hunit : Num.in_unit (sanitizeConfidence parseFloat value)).
  { destruct Hsupplied as [q H0 H1 | n Hgt | s Hpct Hnum | s Hpct | | ];
      cbn [sanitizeConfidence].
    - apply sanitizeNumber_in_unit. discriminate.
    - apply sanitizeNumber_in_unit. intros ->. discriminate.
    - rewrite Hpct. apply sanitizeNumber_in_unit, Hnum.
    - rewrite Hpct. apply sanitizePercentage_in_unit.
    - cbn. split; lra.
    - cbn. split; lra. }
  split; [exact Hunit|].
  intros env jobId commit w Hpf Hvalue.
  destruct (processCommit_alerts env jobId commit w)
    as (classified & appended & Hc & _ & _ & Hv & _).
  cbv zeta in Hc. exists classified. eexists.
  split; [rewrite Hc; apply last_snoc|]. split; [exact Hv|].
  cbn. rewrite Hpf, Hvalue. exact Hunit.
Qed.

(** C9 at the string ['85%']: it is a supplied value, and its sanitized
    confidence lies in [0,1]. *)
Lemma sanitizeConfidence_in_unit_witness :
  SuppliedConfidence parseFloat_digits (JString "85%")
  /\ Num.in_unit (sanitizeConfidence parseFloat_digits (JString "85%")).
Proof.
  assert (H : SuppliedConfidence parseFloat_digits (JString "85%"))
    by (apply supplied_percent_string; reflexivity).
  split; [exact H|].
  exact (proj1 (sanitizeConfidence_in_unit parseFloat_digits (JString "85%") H)).
Defined.

(** ** The oracle adapter when the oracle degrades *)

(** The adapter's [catch] blocks are never entered: [generateResponse] and
    [parseAIResponse] swallow their own errors, so the result is always what
    [parseAIResponse] returns, never one of the fallback analyses. *)
Lemma analyzeWith_parses o posted fallback :
  exists response, AIService.analyzeWith o posted fallback = AIService.parseAIResponse o response.
Proof.
  unfold AIService.analyzeWith, AIService.generateResponse.
  destruct (negb (Oracle.isAvailable o)); [eexists; reflexivity|].
  destruct posted; eexists; reflexivity.
Qed.

(** What the adapter returns when the oracle is unavailable or its request
    fails: an object with an [error], and none of the verdict's fields. *)
Lemma analyzeWith_unavailable o posted fallback :
  Oracle.isAvailable o = false \/ posted = http_failed ->
  AIService.analyzeWith o posted fallback
  = Analysis.mk None None None None None JUndefined None None
      (Some "Could not parse AI response")
      (Some "AI service unavailable - using fallback analysis").
Proof.
  unfold AIService.analyzeWith, AIService.generateResponse.
  intros [-> | ->]; [reflexivity|].
  destruct (negb (Oracle.isAvailable o)); reflexivity.
Qed.

(** What it returns for an answer that holds no JSON object, or one that
    [JSON.parse] rejects. *)
Lemma analyzeWith_unparseable o text fallback :
  Oracle.isAvailable o = true ->
  match jsonMatch text with
  | Some matched => Oracle.JSON_parse o matched = None
  | None => True
  end ->
  exists error,
    AIService.analyzeWith o (http_ok (Some text)) fallback
    = Analysis.mk None None None None None JUndefined None None (Some error) (Some text).
Proof.
  intros Ha Hparse. unfold AIService.analyzeWith, AIService.generateResponse.
  rewrite Ha. cbn. destruct (jsonMatch text) as [matched|].
  - rewrite Hparse. eexists. reflexivity.
  - eexists. reflexivity.
Qed.

(** The verdict the engine stores on a commit when the oracle is
    unavailable: riskScore 0, no summary, no threat, confidence 0. *)
Lemma processCommit_unavailable env jobId commit w :
  Oracle.isAvailable (Env.oracle env) = false ->
  exists classified,
    last (Job.commits (World.job (snd (AnalysisEngine.processCommit env jobId commit w))))
    = Some classified
    /\ Commit.riskScore classified = 0%Q
    /\ Commit.aiAnalysis classified = Some (Verdict.mk None [] (Fin 0)).
Proof.
  intros Hunavailable.
  destruct (processCommit_alerts env jobId commit w)
    as (classified & appended & Hc & _ & Hr & Hv & _).
  cbv zeta in Hc. exists classified.
  split; [rewrite Hc; apply last_snoc|].
  unfold AIService.analyzeCommit in Hr, Hv.
  rewrite (analyzeWith_unavailable _ _ _ (or_introl Hunavailable)) in Hr, Hv.
  split; [exact Hr | exact Hv].
Qed.

(** C5 at an unavailable oracle, on a repository with one commit and one
    dependency behind an accepting store.  The job completes with the pair
    (0, low); the verdicts stored on the commit and on the dependency have
    no threat, but confidence 0 and no summary, where the adapter's fallback
    analyses (never returned) have confidence 0.1 and a summary. *)
Lemma unavailable_oracle_verdicts :
  let w := snd (lifetime (small_repository unavailable_oracle) no_containers "job-1"
                  "https://github.com/owner/repo") in
  Job.status (World.job w) = completed
  /\ Job.riskScore (World.job w) = Some (Fin 0)
  /\ Job.riskLevel (World.job w) = Some low
  /\ map Commit.riskScore (Job.commits (World.job w)) = [0%Q]
  /\ map Commit.aiAnalysis (Job.commits (World.job w)) = [Some (Verdict.mk None [] (Fin 0))]
  /\ map Dependency.riskLevel (Job.dependencies (World.job w)) = [tier_safe]
  /\ map Dependency.aiAnalysis (Job.dependencies (World.job w))
     = [Some (Verdict.mk None [] (Fin 0))]
  /\ Analysis.confidence AIService.getFallbackCommitAnalysis = JNumber (Fin 0.1%Q)
  /\ Analysis.summary AIService.getFallbackCommitAnalysis
     = Some "Fallback analysis - AI service unavailable".
Proof. vm_compute. repeat split. Qed.

(** ** Errors while the score is saved *)

Ltac world_fields :=
  cbn [World.saves World.with_job World.job World.stored World.activeJobs World.emitted
       World.cleaned World.statusHistory World.progressHistory World.storedHistory
       World.docker fst snd
       Job.jobId Job.set_riskScore Job.set_riskLevel Job.set_logs].

(** When the save of the computed score is rejected, the job gets the
    defaults 50 and medium and the degradation is logged; the step returns
    exactly when the store accepts the save of the defaults, and throws the
    store's message otherwise. *)
Lemma calculateRiskScore_defaults env w message :
  Job.jobId (World.job w) ∈ World.activeJobs w ->
  Env.save_result env (World.saves w) = Some message ->
  let r := AnalysisEngine.calculateRiskScore env w in
  Job.riskScore (World.job (snd r)) = Some (Fin 50)
  /\ Job.riskLevel (World.job (snd r)) = Some medium
  /\ In (log_event (LogEntry.mk error [lit "Risk calculation failed: "; lit message]
                      src_analysis)) (World.emitted (snd r))
  /\ fst r = match Env.save_result env (S (S (World.saves w))) with
             | None => Return tt
             | Some rejection => Throw rejection
             end.
Proof.
  intros Hactive Hsave. cbv zeta.
  destruct (AnalysisEngine.calculateRiskScore env w) as [o w'] eqn:Hrun.
  cbn [fst snd]. revert Hrun.
  cbv beta iota zeta delta [AnalysisEngine.calculateRiskScore AnalysisEngine.emitLog
    try_catch bind AnalysisEngine.activeJobs_has AnalysisEngine.addLog modify_job
    AnalysisEngine.save AnalysisEngine.save_document get_job emit ret].
  world_fields. rewrite Hsave.
  world_fields. rewrite (bool_decide_eq_true_2 _ Hactive).
  world_fields.
  destruct (Env.save_result env (S (World.saves w))) as [m1|]; world_fields;
    destruct (Env.save_result env (S (S (World.saves w)))) as [m2|];
    intros [= <- <-]; cbn;
    repeat split; apply in_or_app; right; left; reflexivity.
Qed.

(** C8 at a store that rejects the three saves of the scoring step (saves
    26 to 28 of the run on an empty repository) and accepts every other one.
    The job fails with the store's message, its score at the default 50; had
    the store rejected the first of the three only, the job would have
    completed with (50, medium). *)
Lemma scoring_error_fails_the_job :
  let w := snd (lifetime (empty_repository (outage 26 28)) no_containers "job-1"
                  "https://github.com/owner/repo") in
  let w' := snd (lifetime (empty_repository (outage 26 26)) no_containers "job-1"
                   "https://github.com/owner/repo") in
  Job.status (World.job w) = failed
  /\ Job.buildInfo (World.job w) = Some (BuildInfo.mk false ["store unavailable"] [])
  /\ Job.riskScore (World.job w) = Some (Fin 50)
  /\ last (World.progressHistory w) = Some 80
  /\ Job.status (World.job w') = completed
  /\ Job.riskScore (World.job w') = Some (Fin 50)
  /\ Job.riskLevel (World.job w') = Some medium.
Proof. vm_compute. repeat split. Qed.

(** * Further properties of the engine *)

(** ** Log lines and alerts reach the room whatever the store answers *)

Ltac engine_steps :=
  cbv beta iota zeta delta [AnalysisEngine.emitLog AnalysisEngine.emitAlert try_catch bind
    AnalysisEngine.activeJobs_has AnalysisEngine.addLog AnalysisEngine.addAlert
    AnalysisEngine.found_addLog AnalysisEngine.found_addAlert
    AnalysisEngine.findOne modify_job AnalysisEngine.save AnalysisEngine.save_document
    get_job emit ret];
  cbn [World.saves World.with_job World.job World.stored World.activeJobs World.emitted
       World.cleaned World.statusHistory World.progressHistory World.storedHistory
       World.docker fst snd].

(** [emitLog] never throws and emits the line exactly once, also when the
    store rejects the entry.  The line is pushed on the engine's job when
    the job is in [activeJobs]; otherwise the engine's job is left alone. *)
Theorem emitLog_emits_once env jobId level message source w :
  let entry := LogEntry.mk level message source in
  let r := AnalysisEngine.emitLog env jobId level message source w in
  fst r = Return tt
  /\ World.emitted (snd r) = (World.emitted w ++ [log_event entry])%list
  /\ (jobId ∈ World.activeJobs w ->
      Job.logs (World.job (snd r)) = (Job.logs (World.job w) ++ [entry])%list)
  /\ (jobId ∉ World.activeJobs w -> World.job (snd r) = World.job w).
Proof.
  engine_steps.
  destruct (decide (jobId ∈ World.activeJobs w)) as [Hin | Hout].
  - rewrite (bool_decide_eq_true_2 _ Hin).
    destruct (Env.save_result env (World.saves w)); cbn;
      repeat split; intros; first [reflexivity | contradiction].
  - rewrite (bool_decide_eq_false_2 _ Hout).
    destruct (World.stored w) as [doc|]; [|cbn; repeat split; intros; first [reflexivity | contradiction]].
    destruct (String.eqb (Job.jobId doc) jobId); [|cbn; repeat split; intros; first [reflexivity | contradiction]].
    destruct (Env.save_result env (World.saves w)); cbn; repeat split; intros; first [reflexivity | contradiction].
Qed.

(** [emitAlert] never throws and emits the alert exactly once, also when the
    store rejects it.  The alert is pushed on the engine's job when the job
    is in [activeJobs]; otherwise the engine's job is left alone. *)
Theorem emitAlert_emits_once env jobId alert w :
  let r := AnalysisEngine.emitAlert env jobId alert w in
  fst r = Return tt
  /\ World.emitted (snd r) = (World.emitted w ++ [alert_event alert])%list
  /\ (jobId ∈ World.activeJobs w ->
      Job.alerts (World.job (snd r)) = (Job.alerts (World.job w) ++ [alert])%list)
  /\ (jobId ∉ World.activeJobs w -> World.job (snd r) = World.job w).
Proof.
  engine_steps.
  destruct (decide (jobId ∈ World.activeJobs w)) as [Hin | Hout].
  - rewrite (bool_decide_eq_true_2 _ Hin).
    destruct (Env.save_result env (World.saves w)); cbn;
      repeat split; intros; first [reflexivity | contradiction].
  - rewrite (bool_decide_eq_false_2 _ Hout).
    destruct (World.stored w) as [doc|]; [|cbn; repeat split; intros; first [reflexivity | contradiction]].
    destruct (String.eqb (Job.jobId doc) jobId); [|cbn; repeat split; intros; first [reflexivity | contradiction]].
    destruct (Env.save_result env (World.saves w)); cbn; repeat split; intros; first [reflexivity | contradiction].
Qed.

(** ** [updateJobStatus] *)

(** [updateJobStatus] assigns status and progress to the engine's job before
    it saves: the assignment stands whatever the store answers.  It saves
    twice; when the store accepts both saves it returns and emits one
    [progress] event with the percentage and the stage; when the store
    rejects one of them it throws the store's message and emits nothing. *)
Theorem updateJobStatus_outcome env status progress w :
  let r := AnalysisEngine.updateJobStatus env status progress w in
  Job.status (World.job (snd r)) = status
  /\ Job.progress (World.job (snd r)) = progress
  /\ match Env.save_result env (World.saves w),
           Env.save_result env (S (World.saves w)) with
     | None, None =>
         fst r = Return tt
         /\ World.emitted (snd r)
            = (World.emitted w ++ [progress_event progress status])%list
         /\ World.saves (snd r) = S (S (World.saves w))
     | Some message, _ =>
         fst r = Throw message
         /\ World.emitted (snd r) = World.emitted w
         /\ World.saves (snd r) = S (World.saves w)
     | None, Some message =>
         fst r = Throw message
         /\ World.emitted (snd r) = World.emitted w
         /\ World.saves (snd r) = S (S (World.saves w))
     end.
Proof.
  cbv beta iota zeta delta [AnalysisEngine.updateJobStatus bind assign_status
    assign_progress AnalysisEngine.addLog modify_job AnalysisEngine.save
    AnalysisEngine.save_document get_job emit].
  cbn [World.saves World.with_job World.job World.stored World.activeJobs World.emitted
       World.cleaned World.statusHistory World.progressHistory World.storedHistory
       World.docker fst snd].
  destruct (Env.save_result env (World.saves w)) as [m1|]; cbn.
  - repeat split.
  - destruct (Env.save_result env (S (World.saves w))) as [m2|]; cbn; repeat split.
Qed.

(** ** Steps that cannot fail the run *)

Lemma try_catch_returns (m : Async unit) handler w :
  (forall message w', fst (handler message w') = Return tt) ->
  fst (try_catch m handler w) = Return tt.
Proof.
  intros Hh. unfold try_catch. destruct (m w) as [[[]|message] w']; [reflexivity | apply Hh].
Qed.

(** [runAIAnalysis] and [generateFinalAssessment] return whatever the oracle
    and the store answer, and leave the job's status and progress as they
    were: neither can be the reason a run fails. *)
Theorem assessments_never_throw env w :
  let r := AnalysisEngine.runAIAnalysis env w in
  let r' := AnalysisEngine.generateFinalAssessment env w in
  (fst r = Return tt
   /\ Job.status (World.job (snd r)) = Job.status (World.job w)
   /\ Job.progress (World.job (snd r)) = Job.progress (World.job w))
  /\ (fst r' = Return tt
      /\ Job.status (World.job (snd r')) = Job.status (World.job w)
      /\ Job.progress (World.job (snd r')) = Job.progress (World.job w)).
Proof.
  cbv zeta. split.
  - pose proof (proj1 (quiet_runAIAnalysis env w)) as Hv.
    split; [|split; [exact (f_equal View.status Hv) | exact (f_equal View.progress Hv)]].
    unfold AnalysisEngine.runAIAnalysis, bind at 1, get_job.
    apply try_catch_returns. intros message w'. apply emitLog_record.
  - pose proof (proj1 (quiet_generateFinalAssessment env w)) as Hv.
    split; [|split; [exact (f_equal View.status Hv) | exact (f_equal View.progress Hv)]].
    unfold AnalysisEngine.generateFinalAssessment, bind at 1, get_job.
    apply try_catch_returns. intros message w'. apply emitLog_record.
Qed.

(** ** Dependencies and their alerts *)

Lemma alerts_grow_refl P w : alerts_grow P w w.
Proof. repeat split. exists []. rewrite app_nil_r. split; [reflexivity | constructor]. Qed.

Lemma alerts_grow_same_job P w w' : World.job w' = World.job w -> alerts_grow P w w'.
Proof.
  intros H. unfold alerts_grow. rewrite H. repeat split.
  exists []. rewrite app_nil_r. split; [reflexivity | constructor].
Qed.

Lemma alerts_grow_trans P a b c : alerts_grow P a b -> alerts_grow P b c -> alerts_grow P a c.
Proof.
  intros (Hc & Hd & l & Ha & Hl) (Hc' & Hd' & l' & Ha' & Hl').
  split; [congruence|]. split; [congruence|].
  exists (l ++ l')%list. rewrite Ha', Ha, app_assoc.
  split; [reflexivity | apply Forall_app; auto].
Qed.

Lemma alerts_grow_from_then first P a b c :
  alerts_grow_from first P a b -> alerts_grow P b c -> alerts_grow_from first P a c.
Proof.
  intros (Hc & Hd & l & Ha & Hl) (Hc' & Hd' & l' & Ha' & Hl').
  split; [congruence|]. split; [congruence|].
  exists (l ++ l')%list. rewrite Ha', Ha, <- app_assoc.
  split; [reflexivity | apply Forall_app; auto].
Qed.

Lemma alerts_grow_mono (P Q : Alert.t -> Prop) w w' :
  (forall a, P a -> Q a) -> alerts_grow P w w' -> alerts_grow Q w w'.
Proof.
  intros HPQ (Hc & Hd & l & Ha & Hl). repeat split; auto.
  exists l. split; [exact Ha | eapply Forall_impl; eauto].
Qed.

(** A step that pushes [first], followed by steps that push alerts. *)
Lemma preserved_bind_from {A B} first P (m : Async A) (k : A -> Async B) :
  preserved (alerts_grow_from first P) m -> (forall a, preserved (alerts_grow P) (k a)) ->
  preserved (alerts_grow_from first P) (bind m k).
Proof.
  intros Hm Hk w. unfold bind. specialize (Hm w).
  destruct (m w) as [[a|message] w']; cbn in *; [|exact Hm].
  eapply alerts_grow_from_then; [exact Hm | apply Hk].
Qed.

Lemma preserved_try_catch_from {A} first P (m : Async A) handler :
  preserved (alerts_grow_from first P) m ->
  (forall message, preserved (alerts_grow P) (handler message)) ->
  preserved (alerts_grow_from first P) (try_catch m handler).
Proof.
  intros Hm Hh w. unfold try_catch. specialize (Hm w).
  destruct (m w) as [[a|message] w']; cbn in *; [exact Hm|].
  eapply alerts_grow_from_then; [exact Hm | apply Hh].
Qed.

Lemma alerts_grow_from_addAlert env alert P :
  preserved (alerts_grow_from alert P) (AnalysisEngine.addAlert env alert).
Proof.
  intros w. engine_steps.
  destruct (Env.save_result env (World.saves w)); cbn;
    (repeat split; exists []; split; [reflexivity | constructor]).
Qed.

Lemma alerts_grow_addAlert env alert (P : Alert.t -> Prop) :
  P alert -> preserved (alerts_grow P) (AnalysisEngine.addAlert env alert).
Proof.
  intros HP w. destruct (alerts_grow_from_addAlert env alert P w) as (Hc & Hd & l & Ha & Hl).
  repeat split; auto. exists (alert :: l). split; [exact Ha | constructor; assumption].
Qed.

Lemma alerts_grow_emitAlert env jobId alert (P : Alert.t -> Prop) :
  P alert -> preserved (alerts_grow P) (AnalysisEngine.emitAlert env jobId alert).
Proof.
  intros HP w. engine_steps.
  destruct (bool_decide (jobId ∈ World.activeJobs w)).
  - destruct (Env.save_result env (World.saves w)); cbn;
      (repeat split; exists [alert]; split; [reflexivity | constructor; [exact HP | constructor]]).
  - destruct (World.stored w) as [doc|]; [|apply alerts_grow_same_job; reflexivity].
    destruct (String.eqb (Job.jobId doc) jobId); [|apply alerts_grow_same_job; reflexivity].
    destruct (Env.save_result env (World.saves w)); apply alerts_grow_same_job; reflexivity.
Qed.

Lemma alerts_grow_emitLog env jobId level message source P :
  preserved (alerts_grow P) (AnalysisEngine.emitLog env jobId level message source).
Proof.
  intros w. engine_steps.
  destruct (bool_decide (jobId ∈ World.activeJobs w)).
  - destruct (Env.save_result env (World.saves w)); cbn;
      (repeat split; exists []; rewrite app_nil_r; split; [reflexivity | constructor]).
  - destruct (World.stored w) as [doc|]; [|apply alerts_grow_same_job; reflexivity].
    destruct (String.eqb (Job.jobId doc) jobId); [|apply alerts_grow_same_job; reflexivity].
    destruct (Env.save_result env (World.saves w)); apply alerts_grow_same_job; reflexivity.
Qed.

Lemma alerts_grow_save env P : preserved (alerts_grow P) (AnalysisEngine.save env).
Proof.
  intros w. engine_steps.
  destruct (Env.save_result env (World.saves w)); apply alerts_grow_same_job; reflexivity.
Qed.

Lemma preserved_bind_ret {A B} (R : World.t -> World.t -> Prop) (a : A) (k : A -> Async B) :
  preserved R (k a) -> preserved R (bind (ret a) k).
Proof. intros H w. exact (H w). Qed.

Lemma RiskTier_eqb_eq (a b : RiskTier) : RiskTier_eqb a b = true <-> a = b.
Proof.
  destruct a, b; cbn; try (split; congruence).
  rewrite String.eqb_eq. split; congruence.
Qed.

Ltac grow_steps :=
  repeat first
    [ apply alerts_grow_emitLog
    | apply alerts_grow_save
    | apply alerts_grow_addAlert
    | apply alerts_grow_emitAlert
    | apply preserved_ret; intros ?; apply alerts_grow_refl
    | apply preserved_bind; [intros ? ? ?; apply alerts_grow_trans | | intros ?]
    | apply preserved_try_catch; [intros ? ? ?; apply alerts_grow_trans | | intros ?] ].

(** What [processDependency] does to the job: it returns, whatever the store
    answers; the dependency is pushed on the job's dependencies; alerts are
    pushed exactly when the tier is high or critical or the oracle calls the
    package a typosquat. *)
Lemma processDependency_job env jobId dependency w :
  let aiAnalysis := AIService.analyzeDependency (Env.oracle env) dependency in
  let tier := default tier_safe (Analysis.riskLevel aiAnalysis) in
  let typosquatting :=
    default (Typosquatting.mk false [] (JNumber (Fin 0))) (Analysis.typosquatting aiAnalysis) in
  let r := AnalysisEngine.processDependency env jobId dependency w in
  fst r = Return tt
  /\ Job.commits (World.job (snd r)) = Job.commits (World.job w)
  /\ exists analyzed appended,
       Job.dependencies (World.job (snd r))
       = (Job.dependencies (World.job w) ++ [analyzed])%list
       /\ analyzed_as env dependency analyzed
       /\ Dependency.typosquatting analyzed = typosquatting
       /\ Job.alerts (World.job (snd r)) = (Job.alerts (World.job w) ++ appended)%list
       /\ Forall (dependency_alert tier) appended
       /\ (appended <> []
           <-> tier = tier_high \/ tier = tier_critical
               \/ Typosquatting.isTyposquat typosquatting = true)
       /\ (tier = tier_critical ->
           exists alert, In alert appended /\ Alert.severity alert = sev_critical).
Proof.
  cbv zeta. split; [apply try_catch_returns; reflexivity|].
  set (aiAnalysis := AIService.analyzeDependency (Env.oracle env) dependency).
  set (tier := default tier_safe (Analysis.riskLevel aiAnalysis)).
  set (typosquatting :=
         default (Typosquatting.mk false [] (JNumber (Fin 0)))
           (Analysis.typosquatting aiAnalysis)).
  cbv beta iota zeta delta [AnalysisEngine.processDependency].
  fold aiAnalysis.
  cbn [Dependency.riskLevel Dependency.typosquatting].
  fold tier. fold typosquatting.
  match goal with
  | |- context [try_catch (bind (modify_job ?f) ?K) ?H w] =>
      change (try_catch (bind (modify_job f) K) H w)
        with (try_catch (K tt) H (World.with_job f w));
      set (w1 := World.with_job f w)
  end.
  cbv beta.
  assert (Hrisk : forall severity : Severity,
             severity = (if RiskTier_eqb tier tier_critical then sev_critical else sev_high) ->
             (severity = sev_high \/ severity = sev_critical)
             /\ (severity = sev_critical -> tier = tier_critical)).
  { intros severity ->. destruct (RiskTier_eqb tier tier_critical) eqn:E.
    - apply RiskTier_eqb_eq in E. auto.
    - split; [auto | discriminate]. }
  destruct (RiskTier_eqb tier tier_high || RiskTier_eqb tier tier_critical) eqn:Erisky.
  - (* the tier is high or critical *)
    match goal with
    | |- context [try_catch ?m ?h w1] =>
        match m with
        | context [bind (bind (AnalysisEngine.addAlert env ?first) _) _] =>
            assert (Hp : preserved (alerts_grow_from first (dependency_alert tier))
                           (try_catch m h))
        end
    end.
    { apply preserved_try_catch_from; [|intros ?; apply preserved_ret; apply alerts_grow_refl].
      apply preserved_bind_from; [|intros ?].
      - apply preserved_bind_from; [apply alerts_grow_from_addAlert | intros ?].
        apply alerts_grow_emitAlert. split; [reflexivity | apply Hrisk; reflexivity].
      - destruct (Typosquatting.isTyposquat typosquatting); grow_steps;
          (split; [reflexivity | split; [left; reflexivity | discriminate]]). }
    destruct (Hp w1) as (Hc & Hd & appended & Ha & HP).
    split; [exact Hc|].
    eexists. eexists. split; [rewrite Hd; reflexivity|]. split; [repeat split|].
    split; [reflexivity|]. split; [exact Ha|].
    split; [constructor; [split; [reflexivity | apply Hrisk; reflexivity] | exact HP]|].
    split.
    + split; [intros _ | discriminate].
      apply orb_true_iff in Erisky. destruct Erisky as [E|E]; apply RiskTier_eqb_eq in E; auto.
    + intros Hcritical. eexists. split; [left; reflexivity|]. cbn.
      rewrite Hcritical. reflexivity.
  - apply orb_false_iff in Erisky. destruct Erisky as [Ehigh Ecritical].
    assert (Hnot : ~ (tier = tier_high \/ tier = tier_critical)).
    { intros [H|H]; apply RiskTier_eqb_eq in H; congruence. }
    destruct (Typosquatting.isTyposquat typosquatting) eqn:Etypo.
    + (* a typosquat of a lower tier *)
      match goal with
      | |- context [try_catch ?m ?h w1] =>
          match m with
          | context [bind (bind (AnalysisEngine.addAlert env ?first) _) _] =>
              assert (Hp : preserved (alerts_grow_from first (dependency_alert tier))
                             (try_catch m h))
          end
      end.
      { apply preserved_try_catch_from; [|intros ?; apply preserved_ret; apply alerts_grow_refl].
        apply preserved_bind_ret.
        apply preserved_bind_from; [|intros ?; apply alerts_grow_emitLog].
        apply preserved_bind_from; [apply alerts_grow_from_addAlert | intros ?].
        apply alerts_grow_emitAlert.
        split; [reflexivity | split; [left; reflexivity | discriminate]]. }
      destruct (Hp w1) as (Hc & Hd & appended & Ha & HP).
      split; [exact Hc|].
      eexists. eexists. split; [rewrite Hd; reflexivity|]. split; [repeat split|].
      split; [reflexivity|]. split; [exact Ha|].
      split; [constructor;
              [split; [reflexivity | split; [left; reflexivity | discriminate]] | exact HP]|].
      split; [split; [auto | discriminate]|].
      intros Hcritical. exfalso. apply Hnot. auto.
    + (* neither *)
      match goal with
      | |- context [try_catch ?m ?h w1] =>
          assert (Hp : preserved (alerts_grow (fun _ => False)) (try_catch m h))
      end.
      { grow_steps. }
      destruct (Hp w1) as (Hc & Hd & appended & Ha & HP).
      destruct appended as [|alert appended]; [|inversion HP; contradiction].
      split; [exact Hc|].
      eexists. exists []. split; [rewrite Hd; reflexivity|]. split; [repeat split|].
      split; [reflexivity|]. split; [exact Ha|].
      split; [constructor|].
      split; [split; [congruence | intros [H|[H|H]]; [exfalso; auto | exfalso; auto | discriminate]]|].
      intros Hcritical. exfalso. apply Hnot. auto.
Qed.

Lemma forEach_processDependency env jobId (dependencies : list Package.t) w :
  let r := forEach dependencies (AnalysisEngine.processDependency env jobId) w in
  fst r = Return tt
  /\ Job.commits (World.job (snd r)) = Job.commits (World.job w)
  /\ exists analyzed appended,
       Job.dependencies (World.job (snd r))
       = (Job.dependencies (World.job w) ++ analyzed)%list
       /\ Forall2 (analyzed_as env) dependencies analyzed
       /\ Job.alerts (World.job (snd r)) = (Job.alerts (World.job w) ++ appended)%list
       /\ Forall (fun alert => Alert.type alert = type_dependency
                               /\ (Alert.severity alert = sev_high
                                   \/ Alert.severity alert = sev_critical)) appended.
Proof.
  cbv zeta. revert w. induction dependencies as [|dependency dependencies IH]; intros w.
  - cbn. repeat split. exists [], []. rewrite !app_nil_r. repeat split; constructor.
  - cbn [forEach]. unfold bind.
    destruct (processDependency_job env jobId dependency w)
      as (Hr & Hc & analyzed & appended & Hd & Has & _ & Ha & HP & _).
    destruct (AnalysisEngine.processDependency env jobId dependency w) as [[[]|message] w1];
      cbn [fst snd] in *; [|discriminate].
    destruct (IH w1) as (Hr' & Hc' & analyzed' & appended' & Hd' & Has' & Ha' & HP').
    split; [exact Hr'|]. split; [congruence|].
    exists (analyzed :: analyzed'), (appended ++ appended')%list.
    rewrite Hd', Hd, Ha', Ha, <- !app_assoc.
    split; [reflexivity|]. split; [constructor; assumption|]. split; [reflexivity|].
    apply Forall_app. split; [|exact HP'].
    eapply Forall_impl; [exact HP|]. intros alert (Ht & Hs & _). auto.
Qed.

(** Every dependency the fetcher lists is recorded on the job, in order and
    with the tier the oracle gave it ([safe] when it gave none), whatever the
    store answers while the dependencies are processed; the alerts pushed
    meanwhile are dependency alerts, high or critical; the commits are left
    alone.  When the method returns, it returns the list the fetcher gave. *)
Theorem analyzeDependencies_records_every_dependency env repoInfo w :
  let dependencies := Env.analyzeDependencies env (RepoInfo.localPath repoInfo) in
  let r := AnalysisEngine.analyzeDependencies env repoInfo w in
  Job.commits (World.job (snd r)) = Job.commits (World.job w)
  /\ (exists analyzed appended,
        Job.dependencies (World.job (snd r))
        = (Job.dependencies (World.job w) ++ analyzed)%list
        /\ Forall2 (analyzed_as env) dependencies analyzed
        /\ Job.alerts (World.job (snd r)) = (Job.alerts (World.job w) ++ appended)%list
        /\ Forall (fun alert => Alert.type alert = type_dependency
                                /\ (Alert.severity alert = sev_high
                                    \/ Alert.severity alert = sev_critical)) appended)
  /\ match fst r with
     | Return returned => returned = dependencies
     | Throw _ => True
     end.
Proof.
  cbv zeta.
  set (dependencies := Env.analyzeDependencies env (RepoInfo.localPath repoInfo)).
  assert (Hquiet : forall (A : Type) (m : Async A) w0,
             preserved (alerts_grow (fun _ => False)) m ->
             Job.commits (World.job (snd (m w0))) = Job.commits (World.job w0)
             /\ Job.dependencies (World.job (snd (m w0))) = Job.dependencies (World.job w0)
             /\ Job.alerts (World.job (snd (m w0))) = Job.alerts (World.job w0)).
  { intros A m w0 Hm. destruct (Hm w0) as (Hc & Hd & appended & Ha & HP).
    destruct appended; [|inversion HP; contradiction].
    rewrite app_nil_r in Ha. auto. }
  destruct (AnalysisEngine.analyzeDependencies env repoInfo w) as [o w'] eqn:Hrun.
  cbn [fst snd]. revert Hrun.
  cbv beta iota zeta delta [AnalysisEngine.analyzeDependencies bind get_job try_catch ret
    throw].
  fold dependencies.
  match goal with
  | |- context [AnalysisEngine.emitLog env ?i ?l ?m ?s w] =>
      destruct (Hquiet _ (AnalysisEngine.emitLog env i l m s) w
                  ltac:(apply alerts_grow_emitLog)) as (Hc1 & Hd1 & Ha1);
      pose proof (proj1 (emitLog_record env i l m s w)) as Hr1;
      destruct (AnalysisEngine.emitLog env i l m s w) as [[[]|e1] w1];
      cbn [fst snd] in *; [|discriminate]
  end.
  destruct (forEach_processDependency env (Job.jobId (World.job w)) dependencies w1)
    as (Hr2 & Hc2 & analyzed & appended & Hd2 & Has & Ha2 & HP).
  destruct (forEach dependencies
              (AnalysisEngine.processDependency env (Job.jobId (World.job w))) w1)
    as [[[]|e2] w2]; cbn [fst snd] in *; [|discriminate].
  destruct (Hquiet _ (AnalysisEngine.save env) w2 ltac:(apply alerts_grow_save))
    as (Hc3 & Hd3 & Ha3).
  destruct (AnalysisEngine.save env w2) as [[[]|e3] w3]; cbn [fst snd] in *.
  - intros [= <- <-]. split; [congruence|]. split; [|reflexivity].
    exists analyzed, appended. rewrite Hd3, Hd2, Hd1, Ha3, Ha2, Ha1. auto.
  - match goal with
    | |- context [AnalysisEngine.emitLog env ?i ?l ?m ?s w3] =>
        destruct (Hquiet _ (AnalysisEngine.emitLog env i l m s) w3
                    ltac:(apply alerts_grow_emitLog)) as (Hc4 & Hd4 & Ha4);
        pose proof (proj1 (emitLog_record env i l m s w3)) as Hr4;
        destruct (AnalysisEngine.emitLog env i l m s w3) as [[[]|e4] w4];
        cbn [fst snd] in *; [|discriminate]
    end.
    intros [= <- <-]. split; [congruence|]. split; [|exact I].
    exists analyzed, appended. rewrite Hd4, Hd3, Hd2, Hd1, Ha4, Ha3, Ha2, Ha1. auto.
Qed.

(** While dependencies are analysed, alerts are pushed on the job for a
    dependency if and only if its tier is high or critical or the oracle
    calls it a typosquat; each of them is a dependency alert, high or
    critical, and critical only for a critical tier, which always gets a
    critical one.  The [done] event of a run that completes carries, as
    dependencyIssues, the number of the job's dependencies whose tier is
    high or critical. *)
Theorem dependency_alerts_and_dependencyIssues env docker jobId repoUrl :
  (forall id dependency w,
     let aiAnalysis := AIService.analyzeDependency (Env.oracle env) dependency in
     let tier := default tier_safe (Analysis.riskLevel aiAnalysis) in
     let typosquatting :=
       default (Typosquatting.mk false [] (JNumber (Fin 0)))
         (Analysis.typosquatting aiAnalysis) in
     let w' := snd (AnalysisEngine.processDependency env id dependency w) in
     exists appended,
       Job.alerts (World.job w') = (Job.alerts (World.job w) ++ appended)%list
       /\ (appended <> []
           <-> tier = tier_high \/ tier = tier_critical
               \/ Typosquatting.isTyposquat typosquatting = true)
       /\ Forall (dependency_alert tier) appended
       /\ (tier = tier_critical ->
           exists alert, In alert appended /\ Alert.severity alert = sev_critical))
  /\ (let w := snd (lifetime env docker jobId repoUrl) in
      Job.status (World.job w) = completed ->
      exists payload,
        dones (World.emitted w) = [payload]
        /\ Done.dependencyIssues payload
           = length (List.filter
                       (fun d => RiskTier_eqb (Dependency.riskLevel d) tier_high
                                 || RiskTier_eqb (Dependency.riskLevel d) tier_critical)
                       (Job.dependencies (World.job w)))).
Proof.
  split.
  - intros id dependency w. cbv zeta.
    destruct (processDependency_job env id dependency w)
      as (_ & _ & analyzed & appended & _ & _ & _ & Ha & HP & Hiff & Hcritical).
    exists appended. auto.
  - cbv zeta. intros Hcompleted.
    destruct (lifetime_spec env docker jobId repoUrl)
      as [_ [(message & _ & Hp & _) | [_ [Hs | (message & Hf)]]]].
    + congruence.
    + destruct Hs as (_ & _ & _ & Hd & _). rewrite Hd. eexists. split; reflexivity.
    + destruct Hf as (_ & Hst & _). congruence.
Qed.

(** ** Bounds of the risk score *)

(** For the inputs the scoring step meets (risk scores between 0 and 100,
    tiers of the table, arrays of fewer than 2^32 elements) the score is an
    integer between 0 and 100. *)
Theorem riskScoreOf_bounds commits dependencies alerts :
  scorable commits dependencies alerts ->
  exists z : Z,
    riskScoreOf commits dependencies alerts = Fin (inject_Z z) /\ 0 <= z <= 100.
Proof.
  intros Hs.
  destruct (includedFactors commits dependencies alerts) as [|fw rest] eqn:Hf.
  - destruct commits, dependencies, alerts; try discriminate.
    exists 0. split; [reflexivity | lia].
  - destruct (score_close commits dependencies alerts Hs) as (r & Hr & Hclose & Hmean).
    { rewrite Hf. discriminate. }
    exists (Math_round r). split; [exact Hr|].
    assert (Hlow : Math_round (- (1 # 10000)) <= Math_round r)
      by (apply Math_round_mono; lra).
    assert (Hhigh : Math_round r <= Math_round (100 + (1 # 10000)))
      by (apply Math_round_mono; lra).
    change (Math_round (- (1 # 10000))) with 0 in Hlow.
    change (Math_round (100 + (1 # 10000))) with 100 in Hhigh. lia.
Qed.

(** The inputs of the specification's example are scorable, and their
    score lies between 0 and 100. *)
Lemma riskScoreOf_bounds_witness :
  scorable [commit_with_riskScore 80] [] [alert_with_severity sev_critical]
  /\ exists z : Z,
       riskScoreOf [commit_with_riskScore 80] [] [alert_with_severity sev_critical]
       = Fin (inject_Z z) /\ 0 <= z <= 100.
Proof.
  assert (H : scorable [commit_with_riskScore 80] [] [alert_with_severity sev_critical]).
  { unfold scorable. split; [repeat constructor; cbn; lra|].
    split; [constructor|]. cbn. repeat split; lia. }
  split; [exact H|].
  exact (riskScoreOf_bounds [commit_with_riskScore 80] []
           [alert_with_severity sev_critical] H).
Defined.

(** ** The confidence of a verdict, for every value *)

Lemma in_unit_not_NaN (n : Num) : Num.in_unit n -> n <> NaN.
Proof. intros H ->. exact H. Qed.

(** [sanitizeConfidence] returns a number in [0,1] for every value but the
    number [NaN] and the strings without '%' that [parseFloat] reads as
    [NaN]: for those it returns [NaN].  A number already in [0,1] is
    returned as it is; a boolean or an object gives 0. *)
Theorem sanitizeConfidence_unit_or_NaN (parseFloat : string -> Num) (value : JSValue) :
  let r := sanitizeConfidence parseFloat value in
  (r = NaN <-> unreadable parseFloat value)
  /\ (r <> NaN -> Num.in_unit r)
  /\ (forall q, (0 <= q)%Q -> (q <= 1)%Q -> value = JNumber (Fin q) -> r = Fin q)
  /\ (forall b, value = JBool b -> r = Fin 0)
  /\ (value = JObject -> r = Fin 0).
Proof.
  cbv zeta.
  assert (Hcases : Num.in_unit (sanitizeConfidence parseFloat value)
                   /\ ~ unreadable parseFloat value
                   \/ sanitizeConfidence parseFloat value = NaN
                      /\ unreadable parseFloat value).
  { destruct value as [| |n|s| |]; cbn [sanitizeConfidence unreadable];
      try (left; split; [cbn; split; lra | tauto]).
    - destruct n as [|x| |]; [right; split; [reflexivity | exact I] | | |];
        (left; split; [apply sanitizeNumber_in_unit; discriminate | tauto]).
    - destruct (endsWith_percent s).
      + left. split; [apply sanitizePercentage_in_unit | intros [H _]; discriminate].
      + destruct (parseFloat s) as [|x| |] eqn:E;
          [right; split; [reflexivity | split; reflexivity] | | |];
          (left; split; [apply sanitizeNumber_in_unit; discriminate
                        | intros [_ H]; discriminate]). }
  split; [|split; [|split; [|split]]].
  - destruct Hcases as [[Hu Hn] | [Hr Hu]].
    + split; [intros H; exfalso; exact (in_unit_not_NaN _ Hu H) | contradiction].
    + split; auto.
  - destruct Hcases as [[Hu _] | [Hr _]]; [auto | contradiction].
  - intros q H0 H1 ->. cbn [sanitizeConfidence].
    unfold sanitizeNumber, Num.gt, Num.min, Num.max.
    compare_all; cbn [negb]; compare_all; try reflexivity; exfalso; lra.
  - intros b ->. reflexivity.
  - intros ->. reflexivity.
Qed.

(** ** The run never throws *)

(** [runAnalysis] and [handleAnalysisError] return from every state,
    whatever the collaborators answer: the run's own [catch] handles every
    error, so the handler [startAnalysis] attaches to the run with
    [.catch] has nothing to handle. *)
Theorem runAnalysis_never_throws env w message :
  fst (AnalysisEngine.runAnalysis env w) = Return tt
  /\ fst (AnalysisEngine.handleAnalysisError env message w) = Return tt
  /\ AnalysisEngine.backgroundRun env w = AnalysisEngine.runAnalysis env w.
Proof.
  assert (Hh : forall message w', fst (AnalysisEngine.handleAnalysisError env message w')
                                  = Return tt).
  { intros m w'. unfold AnalysisEngine.handleAnalysisError.
    apply try_catch_returns. reflexivity. }
  assert (Hr : fst (AnalysisEngine.runAnalysis env w) = Return tt).
  { unfold AnalysisEngine.runAnalysis, bind at 1, get_job.
    apply try_catch_returns. exact Hh. }
  split; [exact Hr|]. split; [apply Hh|].
  unfold AnalysisEngine.backgroundRun, try_catch.
  destruct (AnalysisEngine.runAnalysis env w) as [[[]|e] w']; [reflexivity | discriminate].
Qed.

(** ** The counts of the metrics *)

Lemma filter_length_le {A} (p : A -> bool) (xs : list A) :
  (length (List.filter p xs) <= length xs)%nat.
Proof. induction xs as [|x xs IH]; cbn; [lia|]. destruct (p x); cbn; lia. Qed.

Lemma filter_disjoint_length {A} (p q : A -> bool) (xs : list A) :
  (forall x, p x = true -> q x = false) ->
  length (List.filter (fun x => p x || q x) xs)
  = (length (List.filter p xs) + length (List.filter q xs))%nat.
Proof.
  intros Hpq. induction xs as [|x xs IH]; cbn; [reflexivity|].
  destruct (p x) eqn:Ep; cbn.
  - rewrite (Hpq x Ep). cbn. rewrite IH. reflexivity.
  - destruct (q x); cbn; rewrite IH; lia.
Qed.

Lemma severities_partition (alerts : list Alert.t) :
  let count s :=
    length (List.filter (fun a => Severity_eqb (Alert.severity a) s) alerts) in
  length alerts = (count sev_critical + count sev_high + count sev_medium + count sev_low)%nat.
Proof.
  cbv zeta. induction alerts as [|a alerts IH]; cbn; [reflexivity|].
  destruct (Alert.severity a); cbn; lia.
Qed.

(** The counts [calculateComprehensiveMetrics] returns are consistent: the
    alerts of the four severities add up to the total, the counted commits
    and dependencies are at most the totals, and the summary of the [done]
    event of the same job carries the same numbers. *)
Theorem metrics_counts_add_up (j : Job.t) :
  let m := calculateComprehensiveMetrics j in
  (Metrics.totalAlerts m
   = Metrics.criticalAlerts m + Metrics.highAlerts m
     + Metrics.mediumAlerts m + Metrics.lowAlerts m)%nat
  /\ (Metrics.highRiskCommits m <= Metrics.totalCommits m)%nat
  /\ (Metrics.suspiciousCommits m <= Metrics.totalCommits m)%nat
  /\ (Metrics.criticalDependencies m + Metrics.highRiskDependencies m
      <= Metrics.totalDependencies m)%nat
  /\ (Metrics.typosquattingDependencies m <= Metrics.totalDependencies m)%nat
  /\ (Metrics.vulnerableDependencies m <= Metrics.totalDependencies m)%nat
  /\ Done.totalAlerts (successDone j) = Metrics.totalAlerts m
  /\ Done.criticalAlerts (successDone j) = Metrics.criticalAlerts m
  /\ Done.commitIssues (successDone j) = Metrics.highRiskCommits m
  /\ Done.dependencyIssues (successDone j)
     = (Metrics.highRiskDependencies m + Metrics.criticalDependencies m)%nat.
Proof.
  cbv zeta. unfold calculateComprehensiveMetrics, successDone, Job.totalAlerts,
    Job.criticalAlerts. cbn [Metrics.totalAlerts Metrics.criticalAlerts Metrics.highAlerts
    Metrics.mediumAlerts Metrics.lowAlerts Metrics.highRiskCommits Metrics.totalCommits
    Metrics.suspiciousCommits Metrics.criticalDependencies Metrics.highRiskDependencies
    Metrics.totalDependencies Metrics.typosquattingDependencies
    Metrics.vulnerableDependencies Done.totalAlerts Done.criticalAlerts Done.commitIssues
    Done.dependencyIssues].
  split; [apply severities_partition|].
  split; [apply filter_length_le|]. split; [apply filter_length_le|].
  split.
  - rewrite Nat.add_comm,
      <- (filter_disjoint_length
            (fun d => RiskTier_eqb (Dependency.riskLevel d) tier_high)
            (fun d => RiskTier_eqb (Dependency.riskLevel d) tier_critical)).
    + apply filter_length_le.
    + intros d. destruct (Dependency.riskLevel d); cbn; congruence.
  - split; [apply filter_length_le|]. split; [apply filter_length_le|].
    split; [reflexivity|]. split; [reflexivity|]. split; [reflexivity|].
    apply (filter_disjoint_length
             (fun d => RiskTier_eqb (Dependency.riskLevel d) tier_high)
             (fun d => RiskTier_eqb (Dependency.riskLevel d) tier_critical)).
    intros d. destruct (Dependency.riskLevel d); cbn; congruence.
Qed.

(** ** A high-risk commit is stored twice *)

(** [job.addAlert]: the alert is pushed, nothing is emitted, and the
    method returns exactly when the store accepts the save. *)
Lemma addAlert_outcome env alertData w :
  let r := AnalysisEngine.addAlert env alertData w in
  Job.alerts (World.job (snd r)) = (Job.alerts (World.job w) ++ [alertData])%list
  /\ World.emitted (snd r) = World.emitted w
  /\ World.activeJobs (snd r) = World.activeJobs w
  /\ fst r = match Env.save_result env (World.saves w) with
             | None => Return tt
             | Some message => Throw message
             end.
Proof.
  engine_steps. destruct (Env.save_result env (World.saves w)); cbn; auto.
Qed.

(** [emitAlert] for a job in [activeJobs]: the alert is pushed and emitted. *)
Lemma emitAlert_active env jobId alert w :
  jobId ∈ World.activeJobs w ->
  let r := AnalysisEngine.emitAlert env jobId alert w in
  fst r = Return tt
  /\ Job.alerts (World.job (snd r)) = (Job.alerts (World.job w) ++ [alert])%list
  /\ World.emitted (snd r) = (World.emitted w ++ [alert_event alert])%list.
Proof.
  intros Hin. engine_steps. rewrite (bool_decide_eq_true_2 _ Hin).
  destruct (Env.save_result env (World.saves w)); cbn; auto.
Qed.

(** [emitLog]: the alerts are left alone and the line is emitted. *)
Lemma emitLog_emitted env jobId level message source w :
  let r := AnalysisEngine.emitLog env jobId level message source w in
  fst r = Return tt
  /\ Job.alerts (World.job (snd r)) = Job.alerts (World.job w)
  /\ World.emitted (snd r)
     = (World.emitted w ++ [log_event (LogEntry.mk level message source)])%list.
Proof.
  engine_steps.
  destruct (bool_decide (jobId ∈ World.activeJobs w)).
  - destruct (Env.save_result env (World.saves w)); cbn; auto.
  - destruct (World.stored w) as [doc|]; [|cbn; auto].
    destruct (String.eqb (Job.jobId doc) jobId); [|cbn; auto].
    destruct (Env.save_result env (World.saves w)); cbn; auto.
Qed.

(** For a job in [activeJobs] and a commit the oracle scores above 70:
    [job.addAlert] pushes the alert with its details and saves; when the
    store accepts that save, [emitAlert] pushes a second alert for the same
    commit, without details, and emits it; when the store rejects it, the
    commit's [catch] swallows the error and nothing is emitted for the
    commit, neither the alert nor the log line. *)
Theorem high_risk_commit_alerts env jobId commit w :
  jobId ∈ World.activeJobs w ->
  (70 < default 0 (Analysis.riskScore (AIService.analyzeCommit (Env.oracle env) commit)))%Q ->
  let r := AnalysisEngine.processCommit env jobId commit w in
  fst r = Return tt
  /\ match Env.save_result env (World.saves w) with
     | None =>
         exists full brief,
           Job.alerts (World.job (snd r)) = (Job.alerts (World.job w) ++ [full; brief])%list
           /\ Alert.details full
              = commit_details (Commit.hash commit) (Commit.author commit)
                  (Commit.message commit)
                  (Analysis.threats (AIService.analyzeCommit (Env.oracle env) commit))
           /\ Alert.details brief = no_details
           /\ Alert.severity brief = Alert.severity full
           /\ In (alert_event brief) (World.emitted (snd r))
     | Some _ =>
         exists full,
           Job.alerts (World.job (snd r)) = (Job.alerts (World.job w) ++ [full])%list
           /\ World.emitted (snd r) = World.emitted w
     end.
Proof.
  intros Hactive Hrisk. cbv zeta.
  split; [apply try_catch_returns; reflexivity|].
  apply Qgtb_lt in Hrisk.
  cbv beta iota zeta delta [AnalysisEngine.processCommit try_catch bind modify_job ret].
  cbn [World.with_job World.job fst snd Commit.riskScore Commit.hash Commit.author
       Commit.message].
  rewrite Hrisk.
  match goal with
  | |- context [AnalysisEngine.addAlert env ?a1 ?w1] =>
      pose proof (addAlert_outcome env a1 w1) as (Ha1 & He1 & Hj1 & Hr1);
      destruct (AnalysisEngine.addAlert env a1 w1) as [o1 w2]
  end.
  cbn [fst snd World.with_job World.job World.saves World.emitted World.activeJobs
       Job.alerts Job.set_commits] in Ha1, He1, Hj1, Hr1.
  destruct (Env.save_result env (World.saves w)) as [rejection|]; subst o1.
  - cbn [fst snd]. eexists. split; [exact Ha1 | exact He1].
  - match goal with
    | |- context [AnalysisEngine.emitAlert env jobId ?a2 w2] =>
        destruct (emitAlert_active env jobId a2 w2) as (Hr2 & Ha2 & He2);
        [rewrite Hj1; exact Hactive|];
        destruct (AnalysisEngine.emitAlert env jobId a2 w2) as [o2 w3]
    end.
    cbn [fst snd] in Hr2, Ha2, He2. subst o2.
    match goal with
    | |- context [AnalysisEngine.emitLog env jobId ?l ?m ?s w3] =>
        destruct (emitLog_emitted env jobId l m s w3) as (Hr3 & Ha3 & He3);
        destruct (AnalysisEngine.emitLog env jobId l m s w3) as [o3 w4]
    end.
    cbn [fst snd] in Hr3, Ha3, He3. subst o3. cbn [fst snd].
    eexists. eexists.
    split; [rewrite Ha3, Ha2, Ha1, <- app_assoc; reflexivity|].
    split; [reflexivity|]. split; [reflexivity|]. split; [reflexivity|].
    rewrite He3, He2, !in_app_iff. cbn. auto.
Qed.

(** The commit of the sample repository, which the alarmed oracle scores
    80, in the job a submission has just registered. *)
Lemma high_risk_commit_alerts_witness :
  let env := small_repository alarmed_oracle in
  let w := snd (AnalysisEngine.startAnalysis env
                  (World.init no_containers "job-1" "https://github.com/owner/repo")) in
  let r := AnalysisEngine.processCommit env "job-1" sample_commit w in
  "job-1" ∈ World.activeJobs w
  /\ (70 < default 0 (Analysis.riskScore
                        (AIService.analyzeCommit (Env.oracle env) sample_commit)))%Q
  /\ fst r = Return tt
  /\ match Env.save_result env (World.saves w) with
     | None =>
         exists full brief,
           Job.alerts (World.job (snd r)) = (Job.alerts (World.job w) ++ [full; brief])%list
           /\ Alert.details full
              = commit_details (Commit.hash sample_commit) (Commit.author sample_commit)
                  (Commit.message sample_commit)
                  (Analysis.threats
                     (AIService.analyzeCommit (Env.oracle env) sample_commit))
           /\ Alert.details brief = no_details
           /\ Alert.severity brief = Alert.severity full
           /\ In (alert_event brief) (World.emitted (snd r))
     | Some _ =>
         exists full,
           Job.alerts (World.job (snd r)) = (Job.alerts (World.job w) ++ [full])%list
           /\ World.emitted (snd r) = World.emitted w
     end.
Proof.
  cbv zeta.
  assert (Hactive :
            "job-1" ∈ World.activeJobs
              (snd (AnalysisEngine.startAnalysis (small_repository alarmed_oracle)
                      (World.init no_containers "job-1" "https://github.com/owner/repo")))).
  { apply (bool_decide_eq_true_1 _). vm_compute. reflexivity. }
  assert (Hrisk :
            (70 < default 0 (Analysis.riskScore
                               (AIService.analyzeCommit
                                  (Env.oracle (small_repository alarmed_oracle))
                                  sample_commit)))%Q).
  { vm_compute. reflexivity. }
  split; [exact Hactive|]. split; [exact Hrisk|].
  exact (high_risk_commit_alerts (small_repository alarmed_oracle) "job-1" sample_commit
           _ Hactive Hrisk).
Defined.

(** * Properties of the summary report *)

(** [generateKeyFindings] never returns an empty list: it returns the two
    all-clear lines exactly when none of the five counts it reads is
    positive, and otherwise one line for each positive count. *)
Theorem keyFindings_never_empty (j : Job.t) (m : ComprehensiveMetrics.t) :
  let findings := Report.generateKeyFindings j m in
  let positive (n : nat) : nat := if (0 <? n)%nat then 1%nat else 0%nat in
  let raised :=
    (positive (ComprehensiveMetrics.criticalAlerts m)
     + positive (ComprehensiveMetrics.highRiskCommits m)
     + positive (ComprehensiveMetrics.criticalDependencies m)
     + positive (ComprehensiveMetrics.typosquattingDependencies m)
     + positive (ComprehensiveMetrics.vulnerableDependencies m))%nat in
  findings <> []
  /\ (findings = all_clear <-> raised = 0%nat)
  /\ (raised <> 0%nat -> length findings = raised).
Proof.
  cbv zeta. unfold Report.generateKeyFindings, Report.push_if, all_clear.
  destruct (ComprehensiveMetrics.criticalAlerts m),
    (ComprehensiveMetrics.highRiskCommits m),
    (ComprehensiveMetrics.criticalDependencies m),
    (ComprehensiveMetrics.typosquattingDependencies m),
    (ComprehensiveMetrics.vulnerableDependencies m); cbn;
    (split; [discriminate|]);
    (split; [split; first [reflexivity | discriminate | lia] | first [lia | reflexivity]]).
Qed.

(** [generateRecommendations] lists the most urgent recommendation first,
    always ends with the two standing ones, and holds a critical one exactly
    when a critical issue was counted. *)
Theorem recommendations_ordered (j : Job.t) (m : ComprehensiveMetrics.t) :
  let recommendations := Report.generateRecommendations j m in
  chain (fun a b => (Priority_rank (Recommendation.priority a)
                     <= Priority_rank (Recommendation.priority b))%nat) recommendations
  /\ (exists raised, recommendations = (raised ++ standing_recommendations)%list
                     /\ (length raised <= 4)%nat
                     /\ Forall (fun r => Recommendation.priority r <> priority_low) raised)
  /\ ((exists r, In r recommendations /\ Recommendation.priority r = priority_critical)
      <-> (0 < ComprehensiveMetrics.criticalIssues m)%nat).
Proof.
  cbv zeta. unfold Report.generateRecommendations, Report.push_if, standing_recommendations.
  destruct (ComprehensiveMetrics.criticalIssues m),
    (ComprehensiveMetrics.vulnerableDependencies m),
    (ComprehensiveMetrics.typosquattingDependencies m),
    (ComprehensiveMetrics.highRiskCommits m); cbn [Nat.ltb Nat.leb app].
  all: split; [cbn; repeat split; lia|].
  all: split;
    [ eexists; split;
      [ match goal with
        | |- ?l = _ =>
            let n := eval cbv in (length l - 2)%nat in
            instantiate (1 := firstn n l); reflexivity
        end
      | cbn; split; [lia | repeat constructor; discriminate] ]
    | ].
  all: split;
    [ intros (r & Hin & Hp); cbn in Hin;
      repeat (destruct Hin as [<- | Hin]; [first [discriminate Hp | lia]|]); contradiction
    | intros H; first [lia | eexists; split; [left; reflexivity | reflexivity]] ].
Qed.

Lemma executiveSummary_last (j : Job.t) (m : ComprehensiveMetrics.t) :
  last (Report.generateExecutiveSummary j m)
  = Some (lit "No significant security issues were detected in this analysis.")
  <-> ComprehensiveMetrics.totalIssues m = 0%nat.
Proof.
  unfold Report.generateExecutiveSummary.
  destruct (0 <? ComprehensiveMetrics.criticalIssues m)%nat;
    destruct (ComprehensiveMetrics.totalIssues m); cbn;
    split; first [reflexivity | discriminate].
Qed.

(** [Math.max(0, 100 - (job.riskScore || 0))] is never negative. *)
Lemma securityScore_nonnegative (j : Job.t) :
  Num.nonnegative (Num.max (Fin 0) (Binary64.sub (Fin 100) (Report.riskScore_or0 j))).
Proof.
  unfold Report.riskScore_or0, Binary64.sub.
  assert (H : forall a, a <> NaN -> Num.nonnegative (Num.max (Fin 0) a)).
  { intros [|y| |] Ha; [congruence| | |]; cbn.
    - destruct (Qle_bool 0 y) eqn:E; cbn; [apply Qle_bool_iff, E | lra].
    - exact I.
    - lra. }
  assert (Hadd : forall a, a <> NaN -> Binary64.add (Fin 100) (Binary64.opp a) <> NaN).
  { intros [|y| |] Ha; [congruence| | |]; cbn; try discriminate.
    destruct (number_cases (100 + - y)) as [(r & -> & _) | [[-> _] | [-> _]]];
      discriminate. }
  apply H, Hadd.
  destruct (Job.riskScore j) as [[|x| |]|]; cbn; try discriminate.
  destruct (Qeq_bool x 0); discriminate.
Qed.

(** For an integer risk score up to 100 it is 100 minus the score, as long
    as that is below 2^53. *)
Lemma securityScore_of_integer (j : Job.t) (score : Z) :
  Job.riskScore j = Some (Fin (inject_Z score)) -> (100 - 2 ^ 53 < score <= 100)%Z ->
  Num.max (Fin 0) (Binary64.sub (Fin 100) (Report.riskScore_or0 j))
  = Fin (inject_Z (100 - score)).
Proof.
  intros Hscore Hrange. unfold Report.riskScore_or0, Binary64.sub. rewrite Hscore.
  assert (Hsub : forall x : Q,
             (x == inject_Z score)%Q ->
             Num.max (Fin 0) (Binary64.add (Fin 100) (Binary64.opp (Fin x)))
             = Fin (inject_Z (100 - score))).
  { intros x Ex. cbn [Binary64.opp Binary64.add].
    assert (E : (100 + - x == inject_Z (100 - score))%Q).
    { rewrite Ex. unfold Zminus. rewrite inject_Z_plus, inject_Z_opp. reflexivity. }
    rewrite (number_comp _ _ E), number_Z by lia.
    cbn [Num.max].
    assert (Hle : Qle_bool 0 (inject_Z (100 - score)) = true).
    { apply Qle_bool_iff. change 0%Q with (inject_Z 0). rewrite <- Zle_Qle. lia. }
    rewrite Hle. reflexivity. }
  unfold Num.or0. destruct (Qeq_bool (inject_Z score) 0) eqn:E.
  - apply Hsub. apply Qeq_bool_iff in E. rewrite E. reflexivity.
  - apply Hsub. reflexivity.
Qed.

(** Without a risk score, or with [NaN] for one, it is 100. *)
Lemma securityScore_without_score (j : Job.t) :
  Job.riskScore j = None \/ Job.riskScore j = Some NaN ->
  Num.max (Fin 0) (Binary64.sub (Fin 100) (Report.riskScore_or0 j)) = Fin 100.
Proof.
  intros [H|H]; unfold Report.riskScore_or0; rewrite H; vm_compute; reflexivity.
Qed.

(** The report of a job, made from the metrics computed from the same job.
    The metrics hold the counts the engine stores on the repository
    information, with the alerts as issues; the security score is never
    negative, it is 100 minus the risk score when that is an integer of at
    most 100 (and the difference is below 2^53, where binary64 subtracts
    integers exactly), and 100 when the job has no risk score or [NaN] for
    one; the breakdown's alerts add up; the executive summary
    ends with the all-clear sentence exactly when the job has no alert; the
    files analysed are the files changed, summed over the commits. *)
Theorem summaryReport_of_job (j : Job.t) :
  let m := Report.calculateComprehensiveMetrics j in
  let report := Report.generateSummaryReport j m in
  let breakdown := SummaryReport.riskBreakdown report in
  counts_of m = calculateComprehensiveMetrics j
  /\ ComprehensiveMetrics.totalIssues m = length (Job.alerts j)
  /\ ComprehensiveMetrics.criticalIssues m = ComprehensiveMetrics.criticalAlerts m
  /\ Num.nonnegative (RiskBreakdown.securityScore (RiskBreakdown.overall breakdown))
  /\ (forall score : Z,
        Job.riskScore j = Some (Fin (inject_Z score)) ->
        (100 - 2 ^ 53 < score <= 100)%Z ->
        RiskBreakdown.securityScore (RiskBreakdown.overall breakdown)
        = Fin (inject_Z (100 - score)))
  /\ (Job.riskScore j = None \/ Job.riskScore j = Some NaN ->
      RiskBreakdown.securityScore (RiskBreakdown.overall breakdown) = Fin 100)
  /\ (RiskBreakdown.alerts_total (RiskBreakdown.alerts breakdown)
      = RiskBreakdown.alerts_critical (RiskBreakdown.alerts breakdown)
        + RiskBreakdown.alerts_high (RiskBreakdown.alerts breakdown)
        + RiskBreakdown.alerts_medium (RiskBreakdown.alerts breakdown)
        + RiskBreakdown.alerts_low (RiskBreakdown.alerts breakdown))%nat
  /\ (last (SummaryReport.executiveSummary report)
      = Some (lit "No significant security issues were detected in this analysis.")
      <-> Job.alerts j = [])
  /\ TechnicalDetails.filesAnalyzed (SummaryReport.technicalDetails report)
     = list_sum (map (fun c => length (Commit.filesChanged c)) (Job.commits j)).
Proof.
  cbv zeta. split; [reflexivity|]. split; [reflexivity|]. split; [reflexivity|].
  cbn [Report.generateSummaryReport SummaryReport.riskBreakdown Report.generateRiskBreakdown
       RiskBreakdown.overall RiskBreakdown.securityScore
       Report.calculateComprehensiveMetrics ComprehensiveMetrics.securityScore].
  split; [apply securityScore_nonnegative|].
  split; [intros score Hscore Hrange; apply securityScore_of_integer; assumption|].
  split; [apply securityScore_without_score|].
  split; [apply (severities_partition (Job.alerts j))|].
  split.
  - cbn [Report.generateSummaryReport SummaryReport.executiveSummary].
    rewrite executiveSummary_last. cbn [Report.calculateComprehensiveMetrics
      ComprehensiveMetrics.totalIssues].
    destruct (Job.alerts j); cbn; split; first [reflexivity | discriminate].
  - cbn [Report.generateSummaryReport SummaryReport.technicalDetails
         TechnicalDetails.filesAnalyzed].
    assert (H : forall (cs : list Commit.t) start,
               fold_left (fun sum c => (sum + length (Commit.filesChanged c))%nat) cs start
               = (start + list_sum (map (fun c => length (Commit.filesChanged c)) cs))%nat).
    { induction cs as [|c cs IH]; intros start; cbn [fold_left map]; [cbn; lia|].
      rewrite IH. unfold list_sum. cbn [fold_right]. lia. }
    rewrite H. reflexivity.
Qed.


(** * Properties of the sandbox *)

Lemma fold_log_info (lines : list string) (prefix : string) (s : DockerService.t) :
  let s' := fold_left (fun s line => DockerService.log info (prefix ++ line) s) lines s in
  DockerService.activeContainers s' = DockerService.activeContainers s
  /\ DockerService.stopRequests s' = DockerService.stopRequests s
  /\ DockerService.errorsLogged s' = DockerService.errorsLogged s.
Proof.
  cbv zeta. revert s. induction lines as [|line lines IH]; intros s; cbn [fold_left].
  - repeat split.
  - destruct (IH (DockerService.log info (prefix ++ line) s)) as (Ha & Hs & He).
    rewrite Ha, Hs, He. repeat split. apply errorsLogged_log_info.
Qed.

Lemma errorsLogged_log_error (s : DockerService.t) (line : string) :
  DockerService.errorsLogged (DockerService.log error line s)
  = (DockerService.errorsLogged s ++ [line])%list.
Proof.
  unfold DockerService.errorsLogged, DockerService.log. cbn.
  rewrite List.filter_app, List.map_app. reflexivity.
Qed.

Lemma buildImage_state d projectType s :
  let r := Containers.buildImage d projectType s in
  DockerService.activeContainers (snd r) = DockerService.activeContainers s
  /\ DockerService.stopRequests (snd r) = DockerService.stopRequests s
  /\ match fst r with
     | Return image =>
         image = Containers.imageName projectType
         /\ DockerService.errorsLogged (snd r) = DockerService.errorsLogged s
     | Throw _ => True
     end.
Proof.
  cbv zeta. unfold Containers.buildImage.
  destruct (Containers.Daemon.build d _ projectType) as [events ending].
  match goal with
  | |- context [fold_left ?f events ?s0] =>
      destruct (fold_log_info events "Build: " s0) as (Ha & Hs & He)
  end.
  cbv zeta in Ha, Hs, He.
  destruct ending as [[]|message]; cbn [fst snd DockerService.log
    DockerService.activeContainers DockerService.stopRequests].
  - rewrite Ha, Hs. repeat split.
    rewrite errorsLogged_log_info, He. apply errorsLogged_log_info.
  - rewrite Ha, Hs. repeat split.
Qed.

Lemma createAnalysisContainer_state d projectType workspacePath jobId s :
  let r := Containers.createAnalysisContainer d projectType workspacePath jobId s in
  DockerService.stopRequests (snd r) = DockerService.stopRequests s
  /\ match fst r with
     | Return container =>
         DockerService.activeContainers (snd r)
         = <[jobId := DockerService.ContainerInfo.mk container projectType workspacePath]>
             (DockerService.activeContainers s)
         /\ DockerService.errorsLogged (snd r) = DockerService.errorsLogged s
     | Throw _ =>
         DockerService.activeContainers (snd r) = DockerService.activeContainers s
         /\ In "Failed to create analysis container" (DockerService.errorsLogged (snd r))
     end.
Proof.
  cbv zeta. unfold Containers.createAnalysisContainer.
  assert (Hregister : forall m s0,
             DockerService.errorsLogged
               (DockerService.mk m (DockerService.stopRequests s0) (DockerService.console s0))
             = DockerService.errorsLogged s0) by reflexivity.
  destruct (Containers.Daemon.image_inspect d _ _).
  - destruct (Containers.Daemon.createContainer d _ _ _) as [container|message];
      cbn [fst snd]; (split; [reflexivity|]); (split; [reflexivity|]).
    + rewrite errorsLogged_log_info, Hregister. apply errorsLogged_log_info.
    + rewrite errorsLogged_log_error. apply in_or_app. right. left. reflexivity.
  - match goal with
    | |- context [Containers.buildImage d projectType ?s0] =>
        destruct (buildImage_state d projectType s0) as (Ha & Hs & Hr);
        destruct (Containers.buildImage d projectType s0) as [[image|message] s1]
    end; cbn [fst snd] in *.
    + destruct Hr as [_ He].
      destruct (Containers.Daemon.createContainer d _ _ _) as [container|message];
        cbn [fst snd DockerService.log DockerService.activeContainers
             DockerService.stopRequests];
        (split; [exact Hs|]); (split; [rewrite Ha; reflexivity|]).
      * change (DockerService.mk ?m ?r (?c ++ [(info, "Analysis container created")])%list)
          with (DockerService.log info "Analysis container created"
                  (DockerService.mk m r c)).
        rewrite errorsLogged_log_info, Hregister, He, !errorsLogged_log_info. reflexivity.
      * change (DockerService.mk ?m ?r (?c ++ [(error, ?l)])%list)
          with (DockerService.log error l (DockerService.mk m r c)).
        rewrite errorsLogged_log_error. apply in_or_app. right. left. reflexivity.
    + cbn [DockerService.log DockerService.activeContainers DockerService.stopRequests].
      split; [exact Hs|]. split; [rewrite Ha; reflexivity|].
      change (DockerService.mk ?m ?r (?c ++ [(error, ?l)])%list)
          with (DockerService.log error l (DockerService.mk m r c)).
      rewrite errorsLogged_log_error. apply in_or_app. right. left. reflexivity.
Qed.

(** [createAnalysisContainer] registers the container it creates under the
    job's id, replacing the entry the job had, and logs no error; when the
    image cannot be built or the daemon refuses the container, it throws the
    error it met, logs it, and leaves the registry as it was.  It sends no
    stop request. *)
Theorem createAnalysisContainer_registers d projectType workspacePath jobId s :
  let r := Containers.createAnalysisContainer d projectType workspacePath jobId s in
  DockerService.stopRequests (snd r) = DockerService.stopRequests s
  /\ match fst r with
     | Return container =>
         DockerService.activeContainers (snd r)
         = <[jobId := DockerService.ContainerInfo.mk container projectType workspacePath]>
             (DockerService.activeContainers s)
         /\ DockerService.errorsLogged (snd r) = DockerService.errorsLogged s
     | Throw _ =>
         DockerService.activeContainers (snd r) = DockerService.activeContainers s
         /\ In "Failed to create analysis container" (DockerService.errorsLogged (snd r))
     end.
Proof.
  exact (createAnalysisContainer_state d projectType workspacePath jobId s).
Qed.

(** A container created for a job that had none, and then released: when
    the daemon stops it (or finds it stopped), [cleanup] leaves the registry
    as it was before the container was created, after one stop request for
    that container, and logs no error. *)
Theorem create_then_cleanup d projectType workspacePath jobId s container s1 :
  DockerService.activeContainers s !! jobId = None ->
  Containers.createAnalysisContainer d projectType workspacePath jobId s
  = (Return container, s1) ->
  (Containers.Daemon.stop d (DockerService.stopRequests s) container
   = DockerService.stop_resolved
   \/ Containers.Daemon.stop d (DockerService.stopRequests s) container
      = DockerService.stop_rejected 304) ->
  let r := DockerService.cleanup (Containers.Daemon.stop d) jobId s1 in
  fst r = Return tt
  /\ DockerService.activeContainers (snd r) = DockerService.activeContainers s
  /\ DockerService.stopRequests (snd r)
     = (DockerService.stopRequests s ++ [container])%list
  /\ DockerService.errorsLogged (snd r) = DockerService.errorsLogged s.
Proof.
  intros Hfresh Hcreate Hstop. cbv zeta.
  pose proof (createAnalysisContainer_state d projectType workspacePath jobId s)
    as Hreg.
  cbv zeta in Hreg. rewrite Hcreate in Hreg. cbn [fst snd] in Hreg.
  destruct Hreg as (Hrequests & Hactive & Herrors).
  unfold DockerService.cleanup, DockerService.stopContainer.
  rewrite Hactive, lookup_insert_eq.
  cbn [DockerService.ContainerInfo.container DockerService.log DockerService.stopRequests
       DockerService.activeContainers DockerService.console].
  rewrite Hrequests.
  assert (Hdone : forall console,
             DockerService.errorsLogged
               (DockerService.mk (delete jobId (DockerService.activeContainers s1))
                  (DockerService.stopRequests s ++ [container])
                  (((DockerService.console s1 ++ [(info, "Stopping container...")])
                    ++ [(info, console)]) ++ [(info, "Container cleanup completed")]))
             = DockerService.errorsLogged s).
  { intros console. rewrite <- Herrors. unfold DockerService.errorsLogged. cbn.
    rewrite !List.filter_app, !List.map_app. cbn. rewrite !app_nil_r. reflexivity. }
  destruct Hstop as [-> | ->]; cbn [Z.eqb Pos.eqb fst snd DockerService.log
    DockerService.stopRequests DockerService.activeContainers DockerService.console].
  - split; [reflexivity|].
    split; [rewrite Hactive; apply delete_insert_id, Hfresh|].
    split; [reflexivity | apply Hdone].
  - split; [reflexivity|].
    split; [rewrite Hactive; apply delete_insert_id, Hfresh|].
    split; [reflexivity | apply Hdone].
Qed.

(** With the sample daemon, on an empty registry. *)
Lemma create_then_cleanup_witness :
  let s := no_containers in
  let created :=
    Containers.createAnalysisContainer sample_daemon "nodejs" "./workspace/job-1" "job-1" s in
  let r := DockerService.cleanup (Containers.Daemon.stop sample_daemon) "job-1" (snd created) in
  DockerService.activeContainers s !! "job-1" = None
  /\ created = (Return "c0ffee", snd created)
  /\ (Containers.Daemon.stop sample_daemon (DockerService.stopRequests s) "c0ffee"
      = DockerService.stop_resolved
      \/ Containers.Daemon.stop sample_daemon (DockerService.stopRequests s) "c0ffee"
         = DockerService.stop_rejected 304)
  /\ fst r = Return tt
  /\ DockerService.activeContainers (snd r) = DockerService.activeContainers s
  /\ DockerService.stopRequests (snd r) = (DockerService.stopRequests s ++ ["c0ffee"])%list
  /\ DockerService.errorsLogged (snd r) = DockerService.errorsLogged s.
Proof.
  cbv zeta.
  assert (Hfresh : DockerService.activeContainers no_containers !! "job-1" = None)
    by apply lookup_empty.
  assert (Hcreate :
            Containers.createAnalysisContainer sample_daemon "nodejs" "./workspace/job-1"
              "job-1" no_containers
            = (Return "c0ffee",
               snd (Containers.createAnalysisContainer sample_daemon "nodejs"
                      "./workspace/job-1" "job-1" no_containers)))
    by reflexivity.
  assert (Hstop :
            Containers.Daemon.stop sample_daemon (DockerService.stopRequests no_containers)
              "c0ffee" = DockerService.stop_resolved
            \/ Containers.Daemon.stop sample_daemon
                 (DockerService.stopRequests no_containers) "c0ffee"
               = DockerService.stop_rejected 304)
    by (left; reflexivity).
  split; [exact Hfresh|]. split; [exact Hcreate|]. split; [exact Hstop|].
  exact (create_then_cleanup sample_daemon "nodejs" "./workspace/job-1" "job-1"
           no_containers "c0ffee" _ Hfresh Hcreate Hstop).
Defined.

(** When the daemon refuses to stop a job's container with a status other
    than 304, [stopContainer] logs the error and returns as if nothing had
    happened: the entry stays in the registry, so a later call asks the
    daemon again; [cleanup] then reports the cleanup as completed. *)
Theorem failed_stop_keeps_the_entry daemon jobId s containerInfo statusCode :
  DockerService.activeContainers s !! jobId = Some containerInfo ->
  daemon (DockerService.stopRequests s) (DockerService.ContainerInfo.container containerInfo)
  = DockerService.stop_rejected statusCode ->
  statusCode <> 304 ->
  let r := DockerService.stopContainer daemon jobId s in
  let r' := DockerService.cleanup daemon jobId s in
  fst r = Return tt
  /\ DockerService.activeContainers (snd r) = DockerService.activeContainers s
  /\ DockerService.stopRequests (snd r)
     = (DockerService.stopRequests s
        ++ [DockerService.ContainerInfo.container containerInfo])%list
  /\ DockerService.errorsLogged (snd r)
     = (DockerService.errorsLogged s ++ ["Failed to stop container"])%list
  /\ fst r' = Return tt
  /\ last (DockerService.console (snd r')) = Some (info, "Container cleanup completed").
Proof.
  intros Hentry Hanswer Hcode. cbv zeta.
  unfold DockerService.cleanup, DockerService.stopContainer.
  rewrite Hentry.
  cbn [DockerService.log DockerService.stopRequests DockerService.activeContainers
       DockerService.console].
  rewrite Hanswer.
  destruct (Z.eqb_spec statusCode 304) as [E|_]; [contradiction|].
  cbn [fst snd DockerService.log DockerService.stopRequests DockerService.activeContainers
       DockerService.console].
  split; [reflexivity|]. split; [reflexivity|]. split; [reflexivity|].
  split; [|split; [reflexivity | apply last_snoc]].
  unfold DockerService.errorsLogged. cbn.
  rewrite !List.filter_app, !List.map_app. cbn. rewrite app_nil_r. reflexivity.
Qed.

(** The registry with one container, and a daemon that answers 500. *)
Lemma failed_stop_keeps_the_entry_witness :
  let containerInfo := DockerService.ContainerInfo.mk "c0ffee" "nodejs" "/workspace/job-1" in
  let r := DockerService.stopContainer stuck "job-1" one_container in
  let r' := DockerService.cleanup stuck "job-1" one_container in
  DockerService.activeContainers one_container !! "job-1" = Some containerInfo
  /\ stuck (DockerService.stopRequests one_container)
       (DockerService.ContainerInfo.container containerInfo)
     = DockerService.stop_rejected 500
  /\ 500 <> 304
  /\ fst r = Return tt
  /\ DockerService.activeContainers (snd r) = DockerService.activeContainers one_container
  /\ DockerService.stopRequests (snd r)
     = (DockerService.stopRequests one_container
        ++ [DockerService.ContainerInfo.container containerInfo])%list
  /\ DockerService.errorsLogged (snd r)
     = (DockerService.errorsLogged one_container ++ ["Failed to stop container"])%list
  /\ fst r' = Return tt
  /\ last (DockerService.console (snd r')) = Some (info, "Container cleanup completed").
Proof.
  cbv zeta.
  assert (Hentry : DockerService.activeContainers one_container !! "job-1"
                   = Some (DockerService.ContainerInfo.mk "c0ffee" "nodejs"
                             "/workspace/job-1"))
    by apply lookup_singleton_eq.
  assert (Hcode : 500 <> 304) by lia.
  split; [exact Hentry|]. split; [reflexivity|]. split; [exact Hcode|].
  exact (failed_stop_keeps_the_entry stuck "job-1" one_container _ 500 Hentry eq_refl Hcode).
Defined.

Lemma executeCommand_registry d container command s :
  let r := Containers.executeCommand d container command s in
  DockerService.activeContainers (snd r) = DockerService.activeContainers s
  /\ DockerService.stopRequests (snd r) = DockerService.stopRequests s.
Proof.
  cbv zeta. unfold Containers.executeCommand.
  destruct (Containers.Daemon.exec d _ container _); split; reflexivity.
Qed.

(** What the loop over the output files adds to [analysisResults]. *)
Lemma readOutput_fold d container files :
  forall analysisResults s,
    let r := fold_left (fun acc file => Containers.readOutput d container file acc) files
               (analysisResults, s) in
    DockerService.activeContainers (snd r) = DockerService.activeContainers s
    /\ DockerService.stopRequests (snd r) = DockerService.stopRequests s
    /\ exists added,
        fst r = (analysisResults ++ added)%list
        /\ sublist (map fst added) files
        /\ forall file text, In (file, text) added ->
            exists s' stderr,
              Containers.Daemon.exec d s' container ["/bin/bash"; "-c"; "cat " ++ file]
              = Containers.exec_ended (Containers.ExecResult.mk 0 text stderr).
Proof.
  induction files as [|file files IH]; intros analysisResults s; cbv zeta; cbn [fold_left].
  - split; [reflexivity|]. split; [reflexivity|].
    exists []. rewrite app_nil_r. split; [reflexivity|]. split; [constructor|].
    intros ? ? [].
  - pose proof (executeCommand_registry d container
                  (Containers.command_text ("cat " ++ file)) s) as [Ha Hs].
    cbv zeta in Ha, Hs.
    destruct (Containers.executeCommand d container
                (Containers.command_text ("cat " ++ file)) s)
      as [[fileResult|message] s1] eqn:Hrun; cbn [fst snd] in Ha, Hs.
    + destruct (Z.eqb_spec (Containers.ExecResult.exitCode fileResult) 0) as [Hzero|Hcode].
      * assert (Hstep : Containers.readOutput d container file (analysisResults, s)
                        = ((analysisResults
                            ++ [(file, Containers.ExecResult.stdout fileResult)])%list, s1)).
        { unfold Containers.readOutput. rewrite Hrun, Hzero. reflexivity. }
        rewrite Hstep.
        specialize (IH (analysisResults
                          ++ [(file, Containers.ExecResult.stdout fileResult)])%list s1).
        cbv zeta in IH. destruct IH as (Ha' & Hs' & added & Hfst & Hsub & Hfrom).
        split; [congruence|]. split; [congruence|].
        exists ((file, Containers.ExecResult.stdout fileResult) :: added).
        split; [rewrite Hfst, <- app_assoc; reflexivity|].
        split; [cbn [map fst]; constructor; exact Hsub|].
        intros file' text [Heq|Hin]; [|exact (Hfrom _ _ Hin)].
        injection Heq as <- <-.
        revert Hrun. unfold Containers.executeCommand.
        destruct (Containers.Daemon.exec d _ container _) as [?|?|result] eqn:Hexec;
          intros Hrun; try discriminate.
        injection Hrun as -> _.
        eexists _, (Containers.ExecResult.stderr fileResult). rewrite Hexec.
        destruct fileResult as [code out err]. cbn in Hzero |- *. rewrite Hzero.
        reflexivity.
      * assert (Hstep : Containers.readOutput d container file (analysisResults, s)
                        = (analysisResults, s1)).
        { unfold Containers.readOutput. rewrite Hrun.
          destruct (Z.eqb_spec (Containers.ExecResult.exitCode fileResult) 0);
            [contradiction | reflexivity]. }
        rewrite Hstep.
        specialize (IH analysisResults s1).
        cbv zeta in IH. destruct IH as (Ha' & Hs' & added & Hfst & Hsub & Hfrom).
        split; [congruence|]. split; [congruence|].
        exists added. split; [exact Hfst|]. split; [constructor; exact Hsub|exact Hfrom].
    + assert (Hstep : Containers.readOutput d container file (analysisResults, s)
                      = (analysisResults,
                         DockerService.log warn ("Could not read analysis file: " ++ file) s1)).
      { unfold Containers.readOutput. rewrite Hrun. reflexivity. }
      rewrite Hstep.
      specialize (IH analysisResults
                    (DockerService.log warn ("Could not read analysis file: " ++ file) s1)).
      cbv zeta in IH. destruct IH as (Ha' & Hs' & added & Hfst & Hsub & Hfrom).
      split; [rewrite Ha'; exact Ha|]. split; [rewrite Hs'; exact Hs|].
      exists added. split; [exact Hfst|]. split; [constructor; exact Hsub|exact Hfrom].
Qed.

(** [runAnalysis] throws exactly when the analysis script cannot be run to
    its end, and then logs the failure; a script that ends returns its exit
    code and output whatever the exit code is.  The results hold output files
    only, each at most once and in the order of the list, and each text is
    the output of a [cat] of that file that ended with exit code 0: a file
    that cannot be read is left out.  The registry is not touched. *)
Theorem runAnalysis_reads_outputs d container projectType s :
  let r := Containers.runAnalysis d container projectType s in
  let answer :=
    Containers.Daemon.exec d
      (DockerService.log info "Executing command in container..."
         (DockerService.log info "Running security analysis..." s))
      container ["/bin/bash"; "-c"; "/usr/local/bin/analyze"] in
  DockerService.activeContainers (snd r) = DockerService.activeContainers s
  /\ DockerService.stopRequests (snd r) = DockerService.stopRequests s
  /\ match fst r with
     | Return output =>
         answer
         = Containers.exec_ended
             (Containers.ExecResult.mk (Containers.AnalysisOutput.exitCode output)
                (Containers.AnalysisOutput.stdout output)
                (Containers.AnalysisOutput.stderr output))
         /\ sublist (map fst (Containers.AnalysisOutput.analysisResults output))
              Containers.outputFiles
         /\ forall file text,
             In (file, text) (Containers.AnalysisOutput.analysisResults output) ->
             exists s' stderr,
               Containers.Daemon.exec d s' container ["/bin/bash"; "-c"; "cat " ++ file]
               = Containers.exec_ended (Containers.ExecResult.mk 0 text stderr)
     | Throw message =>
         (answer = Containers.exec_refused message \/ answer = Containers.exec_broken message)
         /\ In "Analysis execution failed" (DockerService.errorsLogged (snd r))
     end.
Proof.
  cbv zeta.
  destruct (Containers.Daemon.exec d _ container _) as [message|message|result] eqn:Hexec.
  - assert (Hrun : Containers.runAnalysis d container projectType s
                   = (Throw message,
                      DockerService.log error "Analysis execution failed"
                        (DockerService.log error "Command execution failed"
                           (DockerService.log info "Executing command in container..."
                              (DockerService.log info "Running security analysis..." s))))).
    { unfold Containers.runAnalysis, Containers.executeCommand. rewrite Hexec. reflexivity. }
    rewrite Hrun. cbn [fst snd]. split; [reflexivity|]. split; [reflexivity|].
    split; [left; reflexivity|].
    rewrite errorsLogged_log_error. apply in_or_app. right. left. reflexivity.
  - assert (Hrun : Containers.runAnalysis d container projectType s
                   = (Throw message,
                      DockerService.log error "Analysis execution failed"
                        (DockerService.log info "Executing command in container..."
                           (DockerService.log info "Running security analysis..." s)))).
    { unfold Containers.runAnalysis, Containers.executeCommand. rewrite Hexec. reflexivity. }
    rewrite Hrun. cbn [fst snd]. split; [reflexivity|]. split; [reflexivity|].
    split; [right; reflexivity|].
    rewrite errorsLogged_log_error. apply in_or_app. right. left. reflexivity.
  - unfold Containers.runAnalysis.
    assert (Hrun : Containers.executeCommand d container
                     (Containers.command_text "/usr/local/bin/analyze")
                     (DockerService.log info "Running security analysis..." s)
                   = (Return result,
                      DockerService.log info "Command executed"
                        (DockerService.log info "Executing command in container..."
                           (DockerService.log info "Running security analysis..." s)))).
    { unfold Containers.executeCommand. rewrite Hexec. reflexivity. }
    rewrite Hrun.
    match goal with
    | |- context [fold_left ?read Containers.outputFiles (?start, ?s0)] =>
        pose proof (readOutput_fold d container Containers.outputFiles start s0) as H;
        cbv zeta in H;
        destruct (fold_left read Containers.outputFiles (start, s0))
          as [analysisResults s1]
    end.
    cbn [fst snd] in H. destruct H as (Ha & Hs & added & -> & Hsub & Hfrom).
    cbn [fst snd DockerService.log DockerService.activeContainers DockerService.stopRequests
         Containers.AnalysisOutput.exitCode Containers.AnalysisOutput.stdout
         Containers.AnalysisOutput.stderr Containers.AnalysisOutput.analysisResults app].
    split; [rewrite Ha; destruct (negb _); reflexivity|].
    split; [rewrite Hs; destruct (negb _); reflexivity|].
    split; [destruct result; reflexivity|].
    split; [exact Hsub | exact Hfrom].
Qed.

(** ** The text handed to [JSON.parse] *)

Lemma upToLastBrace_None (s : string) :
  upToLastBrace s = None <-> ~ occurs "}" s.
Proof.
  unfold occurs. induction s as [|c rest IH]; cbn [upToLastBrace list_ascii_of_string].
  - split; [intros _ [] | reflexivity].
  - destruct (upToLastBrace rest) as [t|].
    + split; [discriminate|]. intros Hno. exfalso.
      assert (Hrest : ~ In "}"%char (list_ascii_of_string rest))
        by (intros Hin; apply Hno; right; exact Hin).
      apply IH in Hrest. discriminate.
    + destruct (Ascii.eqb_spec c "}") as [->|Hc].
      * split; [discriminate|]. intros Hno. exfalso. apply Hno. left. reflexivity.
      * split; [|reflexivity]. intros _ [Heq|Hin]; [congruence|].
        exact (proj1 IH eq_refl Hin).
Qed.

Lemma upToLastBrace_Some (s t : string) :
  upToLastBrace s = Some t
  <-> exists body post,
      s = String.append body (String "}" post)
      /\ t = String.append body "}"
      /\ ~ occurs "}" post.
Proof.
  split.
  - revert t. induction s as [|c rest IH]; intros t; cbn [upToLastBrace]; [discriminate|].
    destruct (upToLastBrace rest) as [t'|] eqn:Hrest.
    + intros [= <-]. destruct (IH t' eq_refl) as (body & post & -> & -> & Hno).
      exists (String c body), post. repeat split. exact Hno.
    + destruct (Ascii.eqb_spec c "}") as [->|_]; [|discriminate].
      intros [= <-]. exists EmptyString, rest. repeat split.
      apply upToLastBrace_None, Hrest.
  - intros (body & post & -> & -> & Hno). apply upToLastBrace_None in Hno.
    induction body as [|c body IH].
    + change (upToLastBrace (String "}" post) = Some (String "}" EmptyString)).
      cbn [upToLastBrace]. rewrite Hno. reflexivity.
    + change (upToLastBrace (String c (String.append body (String "}" post)))
              = Some (String c (String.append body "}"))).
      cbn [upToLastBrace]. rewrite IH. reflexivity.
Qed.

(** The text that [parseAIResponse] hands to [JSON.parse] runs from the
    first ["{"] of the response to its last ["}"], whatever lies between
    them; there is one exactly when a ["}"] follows a ["{"]. *)
Theorem jsonMatch_first_to_last (response matched : string) :
  jsonMatch response = Some matched
  <-> exists before body after,
      response = String.append before (String "{" (String.append body (String "}" after)))
      /\ matched = String "{" (String.append body "}")
      /\ ~ occurs "{" before
      /\ ~ occurs "}" after.
Proof.
  split.
  - induction response as [|c rest IH]; cbn [jsonMatch]; [discriminate|].
    destruct (Ascii.eqb_spec c "{") as [->|Hc].
    + destruct (upToLastBrace rest) as [t|] eqn:Hrest; [|discriminate].
      intros [= <-]. apply upToLastBrace_Some in Hrest.
      destruct Hrest as (body & after & -> & -> & Hno).
      exists EmptyString, body, after. repeat split; [intros []|exact Hno].
    + intros Hm. destruct (IH Hm) as (before & body & after & -> & -> & Hb & Ha).
      exists (String c before), body, after. repeat split; [|exact Ha].
      intros [Heq|Hin]; [congruence | exact (Hb Hin)].
  - intros (before & body & after & -> & -> & Hb & Ha).
    induction before as [|c before IH].
    + change (jsonMatch (String "{" (String.append body (String "}" after)))
              = Some (String "{" (String.append body "}"))).
      cbn [jsonMatch].
      assert (Hrest : upToLastBrace (String.append body (String "}" after))
                      = Some (String.append body "}"))
        by (apply upToLastBrace_Some; exists body, after; repeat split; exact Ha).
      rewrite Hrest. reflexivity.
    + change (jsonMatch (String c (String.append before
                                     (String "{" (String.append body (String "}" after)))))
              = Some (String "{" (String.append body "}"))).
      cbn [jsonMatch].
      destruct (Ascii.eqb_spec c "{") as [->|_].
      * exfalso. apply Hb. left. reflexivity.
      * apply IH. intros Hin. apply Hb. right. exact Hin.
Qed.
